(** * ResourceFetcher: a shallow embedding of
      ambassador/config/resourcefetcher.py

    The fetcher ingests Kubernetes objects, Consul catalog entries and
    Ambassador resources, stages them in three side tables and reconciles
    Kubernetes Service ports against Endpoints data in [finalize].

    Conventions of the embedding:
    - Python dictionaries keep insertion order, and that order drives the
      order of the emitted resources, so a dictionary is an association
      list with in-place update ([Dict.set]).
    - Dynamically typed leaves are [atom]s: None, an integer or a string
      (booleans and floats are left out).  A key that [.get] does not find
      reads as [PNone], as in the source.  A string is held as its UTF-8
      bytes: [isdigit] decodes them and follows Python on every string,
      [upper] and [lower] follow it on ASCII text.
    - Kubernetes and Consul objects are records of the fields the handlers
      read; application resources are untyped [value]s.
    - A method is a function of the fetcher's state that returns or
      raises ([M]); [logger.debug] output is not modelled, [logger.error]
      in the port loop and [aconf.post_error] are.
    - [ACResource], the YAML library and [Config] are parameters. *)

From Stdlib Require Import ZArith List String Ascii Bool Lia DecimalString.
Import ListNotations.
Local Open Scope string_scope.
Local Open Scope Z_scope.
Local Open Scope list_scope.

Set Implicit Arguments.
Set Warnings "-register-all".

(** ** Python leaves *)

Inductive atom : Type :=
| PNone
| PInt (z : Z)
| PStr (s : string).

Definition atom_eq_dec (a b : atom) : {a = b} + {a <> b}.
Proof. decide equality; [apply Z.eq_dec | apply string_dec]. Defined.

Definition atom_eqb (a b : atom) : bool :=
  if atom_eq_dec a b then true else false.

(** [bool(x)]: None, 0 and the empty string are falsy. *)
Definition truthy (a : atom) : bool :=
  match a with
  | PNone => false
  | PInt z => negb (z =? 0)
  | PStr s => negb (String.eqb s "")
  end.

(** [str(x)]. *)
Definition py_str (a : atom) : string :=
  match a with
  | PNone => "None"
  | PInt z => NilZero.string_of_int (Z.to_int z)
  | PStr s => s
  end.

(** A Python string is held as the bytes of its UTF-8 encoding.
    [str.isdigit] looks at code points: a digit is a character whose
    Numeric_Type is Decimal or Digit, which takes in the ASCII digits and
    also superscripts, circled digits and the decimal digits of other
    scripts.  The ranges are those of the Unicode database of CPython 3.11
    (Unicode 14.0). *)
Definition digit_ranges : list (N * N) :=
  [(48, 57); (178, 179); (185, 185); (1632, 1641); (1776, 1785);
   (1984, 1993); (2406, 2415); (2534, 2543); (2662, 2671); (2790, 2799);
   (2918, 2927); (3046, 3055); (3174, 3183); (3302, 3311); (3430, 3439);
   (3558, 3567); (3664, 3673); (3792, 3801); (3872, 3881); (4160, 4169);
   (4240, 4249); (4969, 4977); (6112, 6121); (6160, 6169); (6470, 6479);
   (6608, 6618); (6784, 6793); (6800, 6809); (6992, 7001); (7088, 7097);
   (7232, 7241); (7248, 7257); (8304, 8304); (8308, 8313); (8320, 8329);
   (9312, 9320); (9332, 9340); (9352, 9360); (9450, 9450); (9461, 9469);
   (9471, 9471); (10102, 10110); (10112, 10120); (10122, 10130);
   (42528, 42537); (43216, 43225); (43264, 43273); (43472, 43481);
   (43504, 43513); (43600, 43609); (44016, 44025); (65296, 65305);
   (66720, 66729); (68160, 68163); (68912, 68921); (69216, 69224);
   (69714, 69722); (69734, 69743); (69872, 69881); (69942, 69951);
   (70096, 70105); (70384, 70393); (70736, 70745); (70864, 70873);
   (71248, 71257); (71360, 71369); (71472, 71481); (71904, 71913);
   (72016, 72025); (72784, 72793); (73040, 73049); (73120, 73129);
   (92768, 92777); (92864, 92873); (93008, 93017); (120782, 120831);
   (123200, 123209); (123632, 123641); (125264, 125273); (127232, 127242);
   (130032, 130041)]%N.

Definition is_digit (code_point : N) : bool :=
  existsb (fun r => (fst r <=? code_point)%N && (code_point <=? snd r)%N)
    digit_ranges.

(** The payload of a UTF-8 continuation byte (10xxxxxx). *)
Definition continuation (c : ascii) : option N :=
  let b := N_of_ascii c in
  if (128 <=? b)%N && (b <=? 191)%N then Some (b - 128)%N else None.

(** Every character of [s] is a digit; [s] is decoded as it is read, and
    bytes that encode no character are no digits. *)
Fixpoint all_digits (s : string) : bool :=
  match s with
  | EmptyString => true
  | String c0 s1 =>
      let b0 := N_of_ascii c0 in
      if (b0 <? 128)%N then is_digit b0 && all_digits s1
      else if (b0 <? 194)%N then false
      else if (b0 <? 224)%N then
        match s1 with
        | String c1 s2 =>
            match continuation c1 with
            | Some x1 =>
                is_digit ((b0 - 192) * 64 + x1)%N && all_digits s2
            | None => false
            end
        | EmptyString => false
        end
      else if (b0 <? 240)%N then
        match s1 with
        | String c1 (String c2 s3) =>
            match continuation c1, continuation c2 with
            | Some x1, Some x2 =>
                let code_point := ((b0 - 224) * 4096 + x1 * 64 + x2)%N in
                (2048 <=? code_point)%N && is_digit code_point
                && all_digits s3
            | _, _ => false
            end
        | _ => false
        end
      else
        match s1 with
        | String c1 (String c2 (String c3 s4)) =>
            match continuation c1, continuation c2, continuation c3 with
            | Some x1, Some x2, Some x3 =>
                let code_point :=
                  ((b0 - 240) * 262144 + x1 * 4096 + x2 * 64 + x3)%N in
                (65536 <=? code_point)%N && is_digit code_point
                && all_digits s4
            | _, _, _ => false
            end
        | _ => false
        end
  end.

(** [s.isdigit()]: non-empty and digits only. *)
Definition isdigit (s : string) : bool :=
  match s with
  | EmptyString => false
  | _ => all_digits s
  end.

Definition upper_ascii (c : ascii) : ascii :=
  let n := nat_of_ascii c in
  if (97 <=? n)%nat && (n <=? 122)%nat then ascii_of_nat (n - 32) else c.

(** [s.upper()] on ASCII text. *)
Fixpoint upper (s : string) : string :=
  match s with
  | EmptyString => EmptyString
  | String c s' => String (upper_ascii c) (upper s')
  end.

(** [a or b]. *)
Definition py_or (a b : atom) : atom := if truthy a then a else b.

(** ** Insertion-ordered dictionaries *)

Module Dict.
Section WithKey.
Variable K : Type.
Variable K_eq_dec : forall a b : K, {a = b} + {a <> b}.
Variable V : Type.

Definition t := list (K * V).

Fixpoint get (d : t) (k : K) : option V :=
  match d with
  | [] => None
  | (k', v) :: d' => if K_eq_dec k k' then Some v else get d' k
  end.

(** [d[k] = v]: an existing key keeps its position, a new key goes last. *)
Fixpoint set (d : t) (k : K) (v : V) : t :=
  match d with
  | [] => [(k, v)]
  | (k', v') :: d' =>
      if K_eq_dec k k' then (k', v) :: d' else (k', v') :: set d' k v
  end.

Definition keys (d : t) : list K := map fst d.
Definition values (d : t) : list V := map snd d.
Definition items (d : t) : list (K * V) := d.

End WithKey.
End Dict.

Arguments Dict.get {K} K_eq_dec {V} d k.
Arguments Dict.set {K} K_eq_dec {V} d k v.
Arguments Dict.keys {K V} d.
Arguments Dict.values {K V} d.
Arguments Dict.items {K V} d.

Definition adict (V : Type) := Dict.t atom V.
Definition sdict (V : Type) := Dict.t string V.

Definition aget {V} (d : adict V) (k : atom) : option V :=
  Dict.get atom_eq_dec d k.
Definition aset {V} (d : adict V) (k : atom) (v : V) : adict V :=
  Dict.set atom_eq_dec d k v.
Definition sget {V} (d : sdict V) (k : string) : option V :=
  Dict.get string_dec d k.
Definition sset {V} (d : sdict V) (k : string) (v : V) : sdict V :=
  Dict.set string_dec d k v.

(** Parsed YAML/JSON data and the dictionaries the fetcher builds. *)
Inductive value : Type :=
| VAtom (a : atom)
| VList (l : list value)
| VDict (d : list (atom * value)).

Definition VS (s : string) : value := VAtom (PStr s).

(** ** Side tables *)

(** One entry of a Kubernetes Service's [spec.ports]; a field that is
    absent (or null) reads as [PNone] through [port.get(attr)]. *)
Record port_spec : Type := {
  sp_targetPort : atom;
  sp_name : atom;
  sp_port : atom
}.

Inductive attr : Type := TargetPort | Name | Port.

Definition port_get (port : port_spec) (a : attr) : atom :=
  match a with
  | TargetPort => sp_targetPort port
  | Name => sp_name port
  | Port => sp_port port
  end.

(** [k8s_services[key]]. *)
Record svc_entry : Type := {
  svc_name : atom;
  svc_namespace : atom;
  svc_ports : list port_spec
}.

(** An address as stored by the Endpoints decoder: the dictionary holds a
    key only for a field that was not None, so [PNone] stands for a key
    that is not there. *)
Record address : Type := {
  a_ip : atom;
  a_node : atom;
  a_target_kind : atom;
  a_target_name : atom;
  a_target_namespace : atom
}.

(** [k8s_endpoints[key]]; [ep_ports] is [port_dict]. *)
Record ep_entry : Type := {
  ep_name : atom;
  ep_namespace : atom;
  ep_addresses : list address;
  ep_ports : adict atom
}.

(** ** The finalizer: resolving one service port *)

(** The three locals of the attribute scan. *)
Record scan : Type := {
  found_key : bool;
  fallback : atom;
  k8s_target : atom
}.

Definition scan_init : scan :=
  {| found_key := false; fallback := PNone; k8s_target := PNone |}.

(** [k8s_ep_ports.get(str(port_key), None)]. *)
Definition ports_lookup (k8s_ep_ports : adict atom) (port_key : atom) : atom :=
  match aget k8s_ep_ports (PStr (py_str port_key)) with
  | Some v => v
  | None => PNone
  end.

(** [for attr in ['targetPort', 'name', 'port']: ...], with its [break]. *)
Fixpoint scan_attrs (k8s_ep_ports : adict atom) (port : port_spec)
    (attrs : list attr) (st : scan) : scan :=
  match attrs with
  | [] => st
  | a :: rest =>
      let port_key := port_get port a in
      if truthy port_key then
        let fb :=
          if negb (truthy (fallback st))
             && negb (atom_eqb port_key (PStr "name"))
             && isdigit (py_str port_key)
          then port_key else fallback st in
        let tgt := ports_lookup k8s_ep_ports port_key in
        let st' := {| found_key := true; fallback := fb; k8s_target := tgt |} in
        if truthy tgt then st' else scan_attrs k8s_ep_ports port rest st'
      else scan_attrs k8s_ep_ports port rest st
  end.

(** The two [logger.error] calls of the port loop, and the one after it. *)
Inductive port_error : Type :=
| NoPortNumber (idx : Z)
| EmptyPortSpec (src_port : atom) (idx : Z)
| NoRoutablePorts.

(** What one iteration of the port loop does: [continue] after an error, or
    [target_ports[src_port] = k8s_target]. *)
Inductive port_outcome : Type :=
| Skipped (e : port_error)
| Resolved (src_port k8s_target : atom).

Definition resolve_port (k8s_ep_ports : adict atom) (idx : Z)
    (port : port_spec) : port_outcome :=
  let src_port := port_get port Port in
  if negb (truthy src_port) then Skipped (NoPortNumber idx)
  else if (List.length k8s_ep_ports =? 1)%nat then
    Resolved src_port (hd PNone (Dict.values k8s_ep_ports))
  else
    let st := scan_attrs k8s_ep_ports port [TargetPort; Name; Port] scan_init in
    if negb (found_key st) then Skipped (EmptyPortSpec src_port idx)
    else if negb (truthy (k8s_target st)) then
      Resolved src_port (py_or (fallback st) src_port)
    else Resolved src_port (k8s_target st).

(** The port loop: [idx] starts at -1 and is bumped first thing. *)
Fixpoint resolve_ports (k8s_ep_ports : adict atom) (idx : Z)
    (ports : list port_spec) (target_ports : adict atom)
    (log : list port_error) : adict atom * list port_error :=
  match ports with
  | [] => (target_ports, log)
  | port :: rest =>
      let idx := idx + 1 in
      match resolve_port k8s_ep_ports idx port with
      | Skipped e =>
          resolve_ports k8s_ep_ports idx rest target_ports (log ++ [e])
      | Resolved src_port tgt =>
          resolve_ports k8s_ep_ports idx rest (aset target_ports src_port tgt) log
      end
  end.

(** [for addr in k8s_ep_addrs: ip = addr.get('ip'); if ip: append]. *)
Definition collect_ips (addrs : list address) : list atom :=
  filter truthy (map a_ip addrs).

(** One element of a resolved endpoint list: [{'ip': ..., 'port': ...}]. *)
Record endpoint : Type := { e_ip : atom; e_port : atom }.

(** What the body of the first loop computes for one service.  The name,
    the namespace and [svc_endpoints] go into the emitted dictionary; the
    local [target_addrs] and the errors logged are kept beside them. *)
Record resolved : Type := {
  r_name : atom;
  r_namespace : atom;
  r_target_addrs : list atom;
  r_endpoints : adict (list endpoint);
  r_log : list port_error
}.

(** [for src_port, target_port in target_ports.items(): ...]. *)
Definition build_endpoints (target_ports : adict atom)
    (target_addrs : list atom) : adict (list endpoint) :=
  fold_left
    (fun svc_endpoints '(src_port, target_port) =>
       aset svc_endpoints src_port
         (map (fun target_addr => {| e_ip := target_addr; e_port := target_port |})
              target_addrs))
    (Dict.items target_ports) [].

(** The part of the first loop of [finalize] that reads the endpoint entry:
    returns [target_ports], [target_addrs] and the errors logged. *)
Definition resolve_targets (k8s_ep : option ep_entry) (k8s_svc : svc_entry)
  : adict atom * list atom * list port_error :=
  match k8s_ep with
  | None => ([], [], [])
  | Some ep =>
      match ep_ports ep with
      | [] => ([], [], [])
      | k8s_ep_ports =>
          let '(target_ports, log) :=
            resolve_ports k8s_ep_ports (-1) (svc_ports k8s_svc) [] [] in
          let log :=
            match target_ports with
            | [] => log ++ [NoRoutablePorts]
            | _ => log
            end in
          (target_ports, collect_ips (ep_addresses ep), log)
      end
  end.

(** The body of the first loop of [finalize] for one
    [key, k8s_svc in self.k8s_services.items()]. *)
Definition resolve_service (k8s_endpoints : sdict ep_entry) (key : string)
    (k8s_svc : svc_entry) : resolved :=
  let '(target_ports, target_addrs, log) :=
    resolve_targets (sget k8s_endpoints key) k8s_svc in
  let target_addrs :=
    match target_addrs with
    | [] => [PStr key]
    | _ => target_addrs
    end in
  {| r_name := svc_name k8s_svc;
     r_namespace := svc_namespace k8s_svc;
     r_target_addrs := target_addrs;
     r_endpoints := build_endpoints target_ports target_addrs;
     r_log := log |}.

(** ** Kubernetes objects as the handlers read them

    One record holds every field some handler reads with [.get]; the
    handler is chosen by the text of [kind], as [getattr] does. *)

Record target_ref : Type := {
  tr_kind : atom;
  tr_name : atom;
  tr_namespace : atom
}.

Record raw_address : Type := {
  ra_ip : atom;
  ra_nodeName : atom;
  ra_targetRef : option target_ref
}.

(** [rp_protocol = None] when the key is absent: [port.get('protocol', 'TCP')]. *)
Record raw_port : Type := {
  rp_name : atom;
  rp_port : atom;
  rp_protocol : option string
}.

Record subset : Type := {
  ss_addresses : list raw_address;
  ss_ports : list raw_port
}.

(** [md_namespace = None] when the key is absent; [md_config] is the
    ['getambassador.io/config'] annotation. *)
Record metadata : Type := {
  md_name : atom;
  md_namespace : option atom;
  md_config : option string
}.

Record secret_data : Type := {
  tls_crt : atom;
  tls_key : atom
}.

Record k8s_object : Type := {
  ko_kind : atom;
  ko_apiVersion : atom;
  ko_metadata : option metadata;
  ko_subsets : list subset;
  ko_ports : list port_spec;
  ko_type : atom;
  ko_data : option secret_data;
  ko_spec : list (atom * value)
}.

(** The class attributes of [Config] the fetcher reads. *)
Record config : Type := {
  enable_endpoints : bool;
  single_namespace : bool;
  ambassador_namespace : atom;
  ambassador_id : value
}.

(** [metadata.get('name') if metadata else None]. *)
Definition resource_name_of (md : option metadata) : atom :=
  match md with Some m => md_name m | None => PNone end.

(** [metadata.get('namespace', 'default') if metadata else None]. *)
Definition resource_namespace_of (md : option metadata) : atom :=
  match md with
  | Some m => match md_namespace m with Some ns => ns | None => PStr "default" end
  | None => PNone
  end.

(** [f'{name}.{namespace}']. *)
Definition resource_identifier (name namespace : atom) : string :=
  (py_str name ++ "." ++ py_str namespace)%string.

(** ** The Endpoints decoder *)

(** The [addr] dictionary built for one address, and [len(addr) > 0]. *)
Definition make_addr (raw : raw_address) : address :=
  {| a_ip := ra_ip raw;
     a_node := ra_nodeName raw;
     a_target_kind :=
       match ra_targetRef raw with Some r => tr_kind r | None => PNone end;
     a_target_name :=
       match ra_targetRef raw with Some r => tr_name r | None => PNone end;
     a_target_namespace :=
       match ra_targetRef raw with Some r => tr_namespace r | None => PNone end |}.

Definition is_none (a : atom) : bool :=
  match a with PNone => true | _ => false end.

Definition addr_nonempty (addr : address) : bool :=
  negb (is_none (a_ip addr) && is_none (a_node addr)
        && is_none (a_target_kind addr) && is_none (a_target_name addr)
        && is_none (a_target_namespace addr)).

Fixpoint collect_addresses (l : list raw_address) : list address :=
  match l with
  | [] => []
  | raw :: rest =>
      let addr := make_addr raw in
      if addr_nonempty addr then addr :: collect_addresses rest
      else collect_addresses rest
  end.

(** [for port in ports: ...] filling [port_dict]. *)
Fixpoint build_port_dict (ports : list raw_port) (port_dict : adict atom)
  : adict atom :=
  match ports with
  | [] => port_dict
  | port :: rest =>
      let port_name := rp_name port in
      let port_number := rp_port port in
      let port_proto :=
        upper (match rp_protocol port with Some p => p | None => "TCP" end) in
      if negb (String.eqb port_proto "TCP") then build_port_dict rest port_dict
      else if is_none port_number then build_port_dict rest port_dict
      else
        let port_dict := aset port_dict (PStr (py_str port_number)) port_number in
        let port_dict :=
          if truthy port_name then aset port_dict port_name port_number
          else port_dict in
        build_port_dict rest port_dict
  end.

(** The store a subset makes, if any. *)
Definition subset_entry (name namespace : atom) (s : subset) : option ep_entry :=
  match collect_addresses (ss_addresses s) with
  | [] => None
  | addresses =>
      match build_port_dict (ss_ports s) [] with
      | [] => None
      | port_dict =>
          Some {| ep_name := name; ep_namespace := namespace;
                  ep_addresses := addresses; ep_ports := port_dict |}
      end
  end.

(** [for subset in resource_subsets: ...]. *)
Fixpoint store_subsets (ident : string) (name namespace : atom)
    (subsets : list subset) (k8s_endpoints : sdict ep_entry) : sdict ep_entry :=
  match subsets with
  | [] => k8s_endpoints
  | s :: rest =>
      store_subsets ident name namespace rest
        (match subset_entry name namespace s with
         | Some e => sset k8s_endpoints ident e
         | None => k8s_endpoints
         end)
  end.

(** [handle_k8s_endpoints] as a function of the side table; it always
    returns None. *)
Definition endpoints_table (cfg : config) (k8s_object : k8s_object)
    (k8s_endpoints : sdict ep_entry) : sdict ep_entry :=
  if negb (enable_endpoints cfg) then k8s_endpoints
  else
    let metadata := ko_metadata k8s_object in
    let resource_name := resource_name_of metadata in
    let resource_namespace := resource_namespace_of metadata in
    let resource_subsets := ko_subsets k8s_object in
    let skip :=
      match metadata with None => true | Some _ => false end
      || negb (truthy resource_name)
      || match resource_subsets with [] => true | _ => false end in
    if skip then k8s_endpoints
    else
      store_subsets (resource_identifier resource_name resource_namespace)
        resource_name resource_namespace resource_subsets k8s_endpoints.

(** ** Exceptions *)

Inductive exn : Type :=
| KeyError (key : string)
| TypeError
| AttributeError
| IndexError
| ConstructionError (args : list value).

(** ** The Consul decoder *)

(** A Consul endpoint.  [Address] and [Port] are read with [.get], a
    missing key reads as [PNone].  [ID] is read by subscript ([ep['ID']])
    when an endpoint is skipped: [ce_ID = None] is an endpoint without
    that key. *)
Record consul_endpoint : Type := {
  ce_ID : option atom;
  ce_Address : atom;
  ce_Port : atom
}.

(** [co_Service = None] when the key is absent:
    [consul_object.get('Service', consul_rkey)]. *)
Record consul_object : Type := {
  co_Service : option atom;
  co_Id : atom;
  co_Endpoints : list consul_endpoint
}.

(** [{'ip': ..., 'port': ..., 'target_kind': 'Consul'}]. *)
Record consul_target : Type := {
  ct_ip : atom;
  ct_port : atom;
  ct_target_kind : atom
}.

(** The [svc] dictionary of [handle_consul_service]; apiVersion,
    ambassador_id and kind are added by [consul_value]. *)
Record consul_svc : Type := {
  cs_name : atom;
  cs_datacenter : atom;
  cs_endpoints : adict (list consul_target)
}.

(** [svc['endpoints'].setdefault('*', []).append(x)]. *)
Definition setdefault_append {V} (d : adict (list V)) (k : atom) (x : V)
  : adict (list V) :=
  match aget d k with
  | Some l => aset d k (l ++ [x])
  | None => aset d k [x]
  end.

(** [for ep in endpoints: ...].  The message logged for a skipped
    endpoint is built from [ep['ID']], which raises KeyError when the
    endpoint has no such key. *)
Fixpoint consul_endpoints (endpoints : list consul_endpoint)
    (svc_endpoints : adict (list consul_target))
  : exn + adict (list consul_target) :=
  match endpoints with
  | [] => inr svc_endpoints
  | ep :: rest =>
      let ep_addr := ce_Address ep in
      let ep_port := ce_Port ep in
      if negb (truthy ep_addr) || negb (truthy ep_port)
      then
        match ce_ID ep with
        | None => inl (KeyError "ID")
        | Some _ => consul_endpoints rest svc_endpoints
        end
      else
        consul_endpoints rest
          (setdefault_append svc_endpoints (PStr "*")
             {| ct_ip := ep_addr; ct_port := ep_port;
                ct_target_kind := PStr "Consul" |})
  end.

Definition consul_name (consul_rkey : string) (o : consul_object) : atom :=
  match co_Service o with Some n => n | None => PStr consul_rkey end.

(** The entry [handle_consul_service] stores: None when it bails out,
    an exception when the endpoint loop raises. *)
Definition consul_service (consul_rkey : string) (o : consul_object)
  : exn + option (string * consul_svc) :=
  let endpoints := co_Endpoints o in
  let name := consul_name consul_rkey o in
  if (List.length endpoints <? 1)%nat then inr None
  else
    let datacenter := py_or (co_Id o) (PStr "dc1") in
    match consul_endpoints endpoints [] with
    | inl e => inl e
    | inr svc_endpoints =>
        let svc :=
          {| cs_name := name;
             cs_datacenter := datacenter;
             cs_endpoints := svc_endpoints |} in
        inr (Some (("consul-" ++ py_str name ++ "-"
                    ++ py_str (cs_datacenter svc))%string,
                   svc))
    end.

(** ** Values as Python sees them *)

Definition truthy_value (v : value) : bool :=
  match v with
  | VAtom a => truthy a
  | VList l => match l with [] => false | _ => true end
  | VDict d => match d with [] => false | _ => true end
  end.

(** [v == s] for a string literal [s]. *)
Definition value_is_str (v : value) (s : string) : bool :=
  match v with
  | VAtom (PStr s') => String.eqb s' s
  | _ => false
  end.

(** [obj.get(k)] / [k in obj] on a parsed dictionary. *)
Definition vget (d : list (atom * value)) (k : string) : option value :=
  aget d (PStr k).

Definition lower_ascii (c : ascii) : ascii :=
  let n := nat_of_ascii c in
  if (65 <=? n)%nat && (n <=? 90)%nat then ascii_of_nat (n + 32) else c.

(** [s.lower()] on ASCII text. *)
Fixpoint lower (s : string) : string :=
  match s with
  | EmptyString => EmptyString
  | String c s' => String (lower_ascii c) (lower s')
  end.

(** [s.endswith(suffix)]. *)
Definition endswith (s suffix : string) : bool :=
  let n := String.length s in
  let m := String.length suffix in
  (m <=? n)%nat && String.eqb (substring (n - m) m s) suffix.

(** ** [json.dumps(obj, indent=4, sort_keys=True)]

    Only whether the call returns is modelled, its text is kept as [obj]
    in the diagnostics.  With [sort_keys] the encoder sorts the items of
    every dictionary it meets, on the keys; Python orders integers among
    themselves and strings among themselves and nothing else, so sorting
    two or more keys that are not all integers or all strings raises
    TypeError. *)
Definition is_int (a : atom) : bool :=
  match a with PInt _ => true | _ => false end.

Definition is_str (a : atom) : bool :=
  match a with PStr _ => true | _ => false end.

Definition sortable (keys : list atom) : bool :=
  match keys with
  | [] => true
  | [_] => true
  | _ => forallb is_int keys || forallb is_str keys
  end.

(** [json.dumps(v, indent=4, sort_keys=True)] returns. *)
Fixpoint json_dumps_returns (v : value) : bool :=
  match v with
  | VAtom _ => true
  | VList l =>
      (fix each (l : list value) : bool :=
         match l with
         | [] => true
         | x :: rest => json_dumps_returns x && each rest
         end) l
  | VDict d =>
      sortable (Dict.keys d)
      && (fix each (d : list (atom * value)) : bool :=
            match d with
            | [] => true
            | (_, x) :: rest => json_dumps_returns x && each rest
            end) d
  end.

(** ** The fetcher's state *)

(** What [aconf.post_error] receives, before formatting. *)
Inductive diagnostic : Type :=
| DEmpty (location : string)
| DNotDict (location : string) (obj : value)
| DMissingKind (location : string) (obj : value)
| DException (arg : value)
| DCouldNotParseWatt (location : string)
| DIgnoreCrds
| DIgnoreCrds2.

(** The result of [ACResource.from_dict]: the resource, or the [args] of
    the exception it raised. *)
Inductive construction (R : Type) : Type :=
| Built (r : R)
| Failed (args : list value).
Arguments Failed {R} args.

Section Fetcher.

(** Collaborators outside this module: the resource class, the YAML
    library, Python's rendering of containers, and the configuration. *)
Variable ACResource : Type.
Variable from_dict : atom -> atom -> string -> value -> construction ACResource.
Variable dump_yaml : value -> string.
Variable good_ambassador_id : value -> bool.
Variable parse_yaml_text : string -> option (list value).
Variable py_repr : value -> string.
Variable Config : config.

Record fetcher : Type := {
  elements : list ACResource;
  filename : value;
  ocount : Z;
  saved : list (value * Z);
  k8s_endpoints : sdict ep_entry;
  k8s_services : sdict svc_entry;
  services : adict value;
  errors : list diagnostic
}.

(** [ResourceFetcher.__init__]. *)
Definition init : fetcher :=
  {| elements := []; filename := VAtom PNone; ocount := 1; saved := [];
     k8s_endpoints := []; k8s_services := []; services := []; errors := [] |}.

Definition set_elements (x : list ACResource) (s : fetcher) : fetcher :=
  {| elements := x; filename := filename s; ocount := ocount s;
     saved := saved s; k8s_endpoints := k8s_endpoints s;
     k8s_services := k8s_services s; services := services s;
     errors := errors s |}.

Definition set_location (f : value) (n : Z) (sv : list (value * Z))
    (s : fetcher) : fetcher :=
  {| elements := elements s; filename := f; ocount := n;
     saved := sv; k8s_endpoints := k8s_endpoints s;
     k8s_services := k8s_services s; services := services s;
     errors := errors s |}.

Definition set_k8s_endpoints (x : sdict ep_entry) (s : fetcher) : fetcher :=
  {| elements := elements s; filename := filename s; ocount := ocount s;
     saved := saved s; k8s_endpoints := x;
     k8s_services := k8s_services s; services := services s;
     errors := errors s |}.

Definition set_k8s_services (x : sdict svc_entry) (s : fetcher) : fetcher :=
  {| elements := elements s; filename := filename s; ocount := ocount s;
     saved := saved s; k8s_endpoints := k8s_endpoints s;
     k8s_services := x; services := services s;
     errors := errors s |}.

Definition set_services (x : adict value) (s : fetcher) : fetcher :=
  {| elements := elements s; filename := filename s; ocount := ocount s;
     saved := saved s; k8s_endpoints := k8s_endpoints s;
     k8s_services := k8s_services s; services := x;
     errors := errors s |}.

Definition post_error (d : diagnostic) (s : fetcher) : fetcher :=
  {| elements := elements s; filename := filename s; ocount := ocount s;
     saved := saved s; k8s_endpoints := k8s_endpoints s;
     k8s_services := k8s_services s; services := services s;
     errors := errors s ++ [d] |}.

(** A call either returns with the new state or raises, leaving the state
    as it was when the exception left the method. *)
Inductive result (A : Type) : Type :=
| Ok (a : A) (s : fetcher)
| Raise (e : exn) (s : fetcher).
Arguments Raise {A} e s.

Definition M (A : Type) : Type := fetcher -> result A.

Definition ret {A} (a : A) : M A := fun s => Ok a s.

Definition bind {A B} (m : M A) (k : A -> M B) : M B :=
  fun s =>
    match m s with
    | Ok a s' => k a s'
    | Raise e s' => Raise e s'
    end.

Definition modify (f : fetcher -> fetcher) : M unit := fun s => Ok tt (f s).

(** [for x in l: body(x)]. *)
Fixpoint for_each {A} (body : A -> M unit) (l : list A) : M unit :=
  match l with
  | [] => ret tt
  | x :: rest => bind (body x) (fun _ => for_each body rest)
  end.

(** [str(v)]; containers go through Python's own rendering. *)
Definition str_value (v : value) : string :=
  match v with
  | VAtom a => py_str a
  | _ => py_repr v
  end.

(** The [location] property. *)
Definition location (s : fetcher) : string :=
  (str_value (if truthy_value (filename s) then filename s
              else VS "anonymous YAML")
   ++ "." ++ py_str (PInt (ocount s)))%string.

(** [saved] is a stack; its top is the head of the list. *)
Definition push_location (f : value) (n : Z) : M unit :=
  modify (fun s => set_location f n ((filename s, ocount s) :: saved s) s).

Definition pop_location : M unit :=
  fun s =>
    match saved s with
    | (f, n) :: rest => Ok tt (set_location f n rest s)
    | [] => Raise IndexError s
    end.

(** ** Application resources *)

(** [process_object]; the two diagnostics that print the object call
    [json.dumps] on it with [sort_keys], which can raise. *)
Definition process_object (obj : value) (rkey : atom) : M unit :=
  fun s =>
    match obj with
    | VDict d =>
        if negb (good_ambassador_id obj) then Ok tt s
        else
          match vget d "kind" with
          | None =>
              if json_dumps_returns obj
              then Ok tt (post_error (DMissingKind (location s) obj) s)
              else Raise TypeError s
          | Some kind =>
              if value_is_str kind "Pragma" then
                let new_source :=
                  match vget d "source" with
                  | Some v => v
                  | None => VAtom PNone
                  end in
                let f := if truthy_value new_source then new_source
                         else filename s in
                Ok tt (set_location f (ocount s - 1) (saved s) s)
              else
                let rkey := if truthy rkey then VAtom rkey else filename s in
                let rkey :=
                  (str_value rkey ++ "." ++ py_str (PInt (ocount s)))%string in
                if value_is_str kind "Service" then
                  match vget d "name" with
                  | None => Raise (KeyError "name") s
                  | Some (VAtom name) =>
                      Ok tt (set_services (aset (services s) name obj) s)
                  | Some _ => Raise TypeError s
                  end
                else
                  let serialization := dump_yaml obj in
                  match from_dict (PStr rkey) (PStr rkey) serialization obj with
                  | Built r => Ok tt (set_elements (elements s ++ [r]) s)
                  | Failed (arg :: _) => Ok tt (post_error (DException arg) s)
                  | Failed [] => Raise IndexError s
                  end
          end
    | _ =>
        if negb (truthy_value obj)
        then Ok tt (post_error (DEmpty (location s)) s)
        else if json_dumps_returns obj
        then Ok tt (post_error (DNotDict (location s) obj) s)
        else Raise TypeError s
    end.

(** [parse_object(objects, k8s=False, rkey, filename)]. *)
Definition parse_object (objects : list value) (rkey : atom) (f : value)
  : M unit :=
  bind (push_location f 1) (fun _ =>
  bind (for_each
          (fun obj =>
             bind (process_object obj rkey) (fun _ =>
             modify (fun s => set_location (filename s) (ocount s + 1) (saved s) s)))
          objects) (fun _ =>
  pop_location)).

(** ** Handlers for Kubernetes objects *)

Definition wrong_namespace (resource_namespace : atom) : bool :=
  single_namespace Config
  && negb (atom_eqb resource_namespace (ambassador_namespace Config)).

Definition handle_k8s_endpoints (k8s_object : k8s_object)
  : M (option (string * list value)) :=
  fun s =>
    Ok None (set_k8s_endpoints
               (endpoints_table Config k8s_object (k8s_endpoints s)) s).

Definition handle_k8s_service (k8s_object : k8s_object)
  : M (option (string * list value)) :=
  fun s =>
    let metadata := ko_metadata k8s_object in
    let resource_name := resource_name_of metadata in
    let resource_namespace := resource_namespace_of metadata in
    let annotations :=
      match metadata with Some m => md_config m | None => None end in
    let skip := match metadata with None => true | Some _ => false end in
    let skip := skip || (negb skip && negb (truthy resource_name)) in
    let skip := skip || (negb skip && wrong_namespace resource_namespace) in
    if skip then Ok None s
    else
      let ident := resource_identifier resource_name resource_namespace in
      let s :=
        match ko_ports k8s_object with
        | [] => s
        | ports =>
            set_k8s_services
              (sset (k8s_services s) ident
                 {| svc_name := resource_name;
                    svc_namespace := resource_namespace;
                    svc_ports := ports |}) s
        end in
      match annotations with
      | Some text =>
          if String.eqb text "" then Ok (Some (ident, [])) s
          else
            let objects :=
              match parse_yaml_text text with
              | Some objs => objs
              | None => []
              end in
            match filename s with
            | VAtom PNone => Ok (Some (ident, objects)) s
            | VAtom (PStr f) =>
                if negb (endswith f ":annotation")
                then Ok (Some (ident, objects))
                       (set_location (VS (f ++ ":annotation")) (ocount s)
                          (saved s) s)
                else Ok (Some (ident, objects)) s
            | _ => Raise AttributeError s
            end
      | None => Ok (Some (ident, [])) s
      end.

Definition secret_info (name namespace crt key : atom) : value :=
  VDict
    ([(PStr "apiVersion", VS "ambassador/v1");
      (PStr "ambassador_id", ambassador_id Config);
      (PStr "kind", VS "Secret");
      (PStr "name", VAtom name);
      (PStr "namespace", VAtom namespace)]
     ++ (if truthy crt then [(PStr "tls_crt", VAtom crt)] else [])
     ++ (if truthy key then [(PStr "tls_key", VAtom key)] else [])).

Definition handle_k8s_secret (k8s_object : k8s_object)
  : M (option (string * list value)) :=
  fun s =>
    let secret_type := ko_type k8s_object in
    let metadata := ko_metadata k8s_object in
    let resource_name := resource_name_of metadata in
    let resource_namespace := resource_namespace_of metadata in
    let skip :=
      (negb (atom_eqb secret_type (PStr "kubernetes.io/tls"))
       && negb (atom_eqb secret_type (PStr "Opaque")))
      || match ko_data k8s_object with None => true | Some _ => false end
      || match metadata with None => true | Some _ => false end
      || negb (truthy resource_name) in
    let skip := skip || (negb skip && wrong_namespace resource_namespace) in
    match ko_data k8s_object with
    | Some data =>
        if skip then Ok None s
        else if negb (truthy (tls_crt data)) && negb (truthy (tls_key data))
        then Ok None s
        else
          Ok (Some (resource_identifier resource_name resource_namespace,
                    [secret_info resource_name resource_namespace
                       (tls_crt data) (tls_key data)])) s
    | None => Ok None s
    end.

Definition handle_k8s_crd (obj : k8s_object) : M unit :=
  fun s =>
    let kind := ko_kind obj in
    if negb (truthy kind) then Ok tt s
    else
      let apiVersion := ko_apiVersion obj in
      let name := resource_name_of (ko_metadata obj) in
      let namespace :=
        py_or (match ko_metadata obj with
               | Some m => match md_namespace m with Some n => n | None => PNone end
               | None => PNone
               end) (PStr "default") in
      if negb (truthy name) then Ok tt s
      else if negb (truthy apiVersion) then Ok tt s
      else
        let amb_object := ko_spec obj in
        let amb_object := aset amb_object (PStr "apiVersion") (VAtom apiVersion) in
        let amb_object := aset amb_object (PStr "name") (VAtom name) in
        let amb_object := aset amb_object (PStr "kind") (VAtom kind) in
        parse_object [VDict amb_object]
          (PStr (resource_identifier name namespace)) (filename s) s.

(** [getattr(self, f'handle_k8s_{kind.lower()}', None)]. *)
Definition handle_k8s (obj : k8s_object) : M unit :=
  fun s =>
    match ko_kind obj with
    | PNone => Ok tt s
    | PInt z => if z =? 0 then Ok tt s else Raise AttributeError s
    | PStr kind =>
        if String.eqb kind "" then Ok tt s
        else
          let run (handler : k8s_object -> M (option (string * list value))) :=
            bind (handler obj) (fun result =>
              match result with
              | Some (rkey, parsed_objects) =>
                  fun s' => parse_object parsed_objects (PStr rkey) (filename s') s'
              | None => ret tt
              end) in
          let name := lower kind in
          if String.eqb name "service" then run handle_k8s_service s
          else if String.eqb name "endpoints" then run handle_k8s_endpoints s
          else if String.eqb name "secret" then run handle_k8s_secret s
          else if String.eqb name "crd" then handle_k8s_crd obj s
          else Ok tt s
    end.

(** [parse_object(objects, k8s=True, rkey, filename)]. *)
Definition parse_k8s_objects (objects : list k8s_object) (f : value) : M unit :=
  bind (push_location f 1) (fun _ =>
  bind (for_each handle_k8s objects) (fun _ =>
  pop_location)).

(** ** Consul *)

Definition consul_target_value (t : consul_target) : value :=
  VDict [(PStr "ip", VAtom (ct_ip t)); (PStr "port", VAtom (ct_port t));
         (PStr "target_kind", VAtom (ct_target_kind t))].

Definition consul_value (svc : consul_svc) : value :=
  VDict [(PStr "apiVersion", VS "ambassador/v1");
         (PStr "ambassador_id", ambassador_id Config);
         (PStr "kind", VS "Service");
         (PStr "name", VAtom (cs_name svc));
         (PStr "datacenter", VAtom (cs_datacenter svc));
         (PStr "endpoints",
          VDict (map (fun '(k, l) => (k, VList (map consul_target_value l)))
                     (Dict.items (cs_endpoints svc))))].

Definition handle_consul_service (consul_rkey : string)
    (consul_object : consul_object) : M (option (string * list value)) :=
  fun s =>
    match consul_service consul_rkey consul_object with
    | inl e => Raise e s
    | inr None => Ok None s
    | inr (Some (key, svc)) =>
        Ok None (set_services (aset (services s) (PStr key) (consul_value svc)) s)
    end.

(** ** The finalizer on the fetcher's state *)

Definition endpoint_value (e : endpoint) : value :=
  VDict [(PStr "ip", VAtom (e_ip e)); (PStr "port", VAtom (e_port e))].

(** The dictionary stored under [k8s-<name>-<namespace>]. *)
Definition service_value (r : resolved) : value :=
  VDict [(PStr "apiVersion", VS "ambassador/v1");
         (PStr "ambassador_id", ambassador_id Config);
         (PStr "kind", VS "Service");
         (PStr "name", VAtom (r_name r));
         (PStr "namespace", VAtom (r_namespace r));
         (PStr "endpoints",
          VDict (map (fun '(k, l) => (k, VList (map endpoint_value l)))
                     (Dict.items (r_endpoints r))))].

Definition service_key (k8s_svc : svc_entry) : atom :=
  PStr ("k8s-" ++ py_str (svc_name k8s_svc) ++ "-"
        ++ py_str (svc_namespace k8s_svc))%string.

(** [for key, k8s_svc in self.k8s_services.items(): ...]. *)
Fixpoint resolve_services (eps : sdict ep_entry)
    (items : list (string * svc_entry)) (svcs : adict value) : adict value :=
  match items with
  | [] => svcs
  | (key, k8s_svc) :: rest =>
      resolve_services eps rest
        (aset svcs (service_key k8s_svc)
           (service_value (resolve_service eps key k8s_svc)))
  end.

(** One turn of [for key, svc in self.services.items(): ...]; an exception
    of [ACResource.from_dict] is not caught here. *)
Definition emit_service (item : atom * value) : M unit :=
  fun s =>
    let '(key, svc) := item in
    let serialization := dump_yaml svc in
    match from_dict key key serialization svc with
    | Built r => Ok tt (set_elements (elements s ++ [r]) s)
    | Failed args => Raise (ConstructionError args) s
    end.

(** [finalize]; the two [od] dictionaries it builds for a commented-out
    debug line are dropped. *)
Definition finalize : M unit :=
  fun s =>
    let svcs :=
      resolve_services (k8s_endpoints s) (Dict.items (k8s_services s))
        (services s) in
    for_each emit_service (Dict.items svcs) (set_services svcs s).

(** ** A watt snapshot *)

(** The decoded snapshot: [Kubernetes] maps a kind to its objects,
    [Consul.Endpoints] a catalog key to its entry. *)
Record watt : Type := {
  w_Kubernetes : sdict (list k8s_object);
  w_Consul_Endpoints : list (string * consul_object)
}.

Definition watt_k8s_kinds : list string := ["service"; "endpoints"; "secret"].

Definition watt_crd_kinds : list string :=
  ["AuthService"; "ConsulResolver"; "KubernetesEndpointResolver";
   "KubernetesServiceResolver"; "Mapping"; "Module"; "RateLimitService";
   "TCPMapping"; "TLSContext"; "TracingService"; "ClusterIngress"].

(** [watt_k8s.get(key) or []]. *)
Definition watt_objects (w : watt) (key : string) : list k8s_object :=
  match sget (w_Kubernetes w) key with
  | Some l => l
  | None => []
  end.

(** The body of the [try] in [parse_watt], once the JSON is decoded. *)
Definition decode_watt (w : watt) : M unit :=
  bind (for_each (fun key => for_each handle_k8s (watt_objects w key))
          watt_k8s_kinds) (fun _ =>
  bind (for_each (fun key => for_each handle_k8s_crd (watt_objects w key))
          watt_crd_kinds) (fun _ =>
  for_each
    (fun '(consul_rkey, consul_object) =>
       bind (handle_consul_service consul_rkey consul_object) (fun result =>
         match result with
         | Some (rkey, parsed_objects) =>
             fun s => parse_object parsed_objects (PStr rkey) (filename s) s
         | None => ret tt
         end))
    (w_Consul_Endpoints w))).

(** [parse_watt(serialization, finalize)]: [ignore_crds] and
    [ignore_crds_2] say whether the two marker files exist, [w] is the
    decoded JSON, None when [json.loads] fails. *)
Definition parse_watt (ignore_crds ignore_crds_2 : bool) (w : option watt)
    (do_finalize : bool) : M unit :=
  bind (modify (fun s => if ignore_crds then post_error DIgnoreCrds s else s))
    (fun _ =>
  bind (modify (fun s => if ignore_crds_2 then post_error DIgnoreCrds2 s else s))
    (fun _ =>
  bind (match w with
        | Some w => decode_watt w
        | None => modify (fun s => post_error (DCouldNotParseWatt (location s)) s)
        end) (fun _ =>
  if do_finalize then finalize else ret tt))).

(** ** Vocabulary of the properties about the state *)

(** The elements of [s'] are those of [s] followed by [l]. *)
Definition grows_by (s s' : fetcher) (l : list ACResource) : Prop :=
  elements s' = elements s ++ l.

(** [elements] has only grown at its end. *)
Definition grows (s s' : fetcher) : Prop :=
  exists l, grows_by s s' l.

(** A computation that, returning or raising, has only added elements at
    the end. *)
Definition appends_only {A} (m : M A) : Prop :=
  forall s,
    match m s with
    | Ok _ s' => grows s s'
    | Raise _ s' => grows s s'
    end.

(** The resources [ACResource.from_dict] builds for the entries of a table,
    in the table's order; the arguments of the first failure otherwise. *)
Fixpoint construct_all (items : list (atom * value))
  : construction (list ACResource) :=
  match items with
  | [] => Built []
  | (key, svc) :: rest =>
      match from_dict key key (dump_yaml svc) svc with
      | Built r =>
          match construct_all rest with
          | Built rs => Built (r :: rs)
          | Failed args => Failed args
          end
      | Failed args => Failed args
      end
  end.

(** The writes the first loop makes to [services], in order. *)
Definition service_writes (eps : sdict ep_entry)
    (items : list (string * svc_entry)) : list (atom * value) :=
  map (fun '(key, k8s_svc) =>
         (service_key k8s_svc,
          service_value (resolve_service eps key k8s_svc)))
      items.

(** The state when the two marker-file diagnostics have been posted. *)
Definition after_markers (ignore_crds ignore_crds_2 : bool)
    (s : fetcher) : fetcher :=
  let s := if ignore_crds then post_error DIgnoreCrds s else s in
  if ignore_crds_2 then post_error DIgnoreCrds2 s else s.

End Fetcher.

Arguments Ok {ACResource A} a s.
Arguments Raise {ACResource A} e s.

(** * The port rule in the specification's words

    "Try each of targetPort, name, port, in that priority order, as a
    lookup key into the endpoint port map; the first hit wins.  While
    scanning, remember the first attribute whose value is itself
    digit-only.  If all three lookups miss, fall back to the remembered
    numeric candidate, or, failing that, to the service's own
    source-facing port number."  An attribute is tried when it is set to
    something (not null, zero or empty); a value is digit-only when
    [str.isdigit] holds of it written out as a string. *)

Definition attr_present (port : port_spec) (a : attr) : bool :=
  truthy (port_get port a).

Fixpoint first_hit (ep_ports : adict atom) (port : port_spec)
    (attrs : list attr) : option atom :=
  match attrs with
  | [] => None
  | a :: rest =>
      match (if attr_present port a
             then aget ep_ports (PStr (py_str (port_get port a)))
             else None) with
      | Some target => Some target
      | None => first_hit ep_ports port rest
      end
  end.

Fixpoint first_digit_only (port : port_spec) (attrs : list attr) : option atom :=
  match attrs with
  | [] => None
  | a :: rest =>
      if attr_present port a && isdigit (py_str (port_get port a))
      then Some (port_get port a)
      else first_digit_only port rest
  end.

Definition priority : list attr := [TargetPort; Name; Port].

Definition numeric_fallback (port : port_spec) : atom :=
  match first_digit_only port priority with
  | Some candidate => candidate
  | None => sp_port port
  end.

Definition priority_target (ep_ports : adict atom) (port : port_spec) : atom :=
  match first_hit ep_ports port priority with
  | Some target => target
  | None => numeric_fallback port
  end.

(** * Vocabulary of the properties *)

(** The first attribute, in scan order, whose lookup stops the scan. *)
Fixpoint first_truthy_lookup (k8s_ep_ports : adict atom) (port : port_spec)
    (attrs : list attr) : option atom :=
  match attrs with
  | [] => None
  | a :: rest =>
      if truthy (port_get port a)
         && truthy (ports_lookup k8s_ep_ports (port_get port a))
      then Some (ports_lookup k8s_ep_ports (port_get port a))
      else first_truthy_lookup k8s_ep_ports port rest
  end.

(** The endpoint list of one source port: every target address at the
    target port. *)
Definition endpoints_for (target_addrs : list atom) (target_port : atom)
  : list endpoint :=
  map (fun target_addr => {| e_ip := target_addr; e_port := target_port |})
      target_addrs.

(** An address has something to store: an IP, a node name, or a field of
    its target reference. *)
Definition carries_something (raw : raw_address) : Prop :=
  ra_ip raw <> PNone
  \/ ra_nodeName raw <> PNone
  \/ exists r, ra_targetRef raw = Some r
               /\ (tr_kind r <> PNone \/ tr_name r <> PNone
                   \/ tr_namespace r <> PNone).

(** [port_proto == 'TCP'] for a port of a subset. *)
Definition is_tcp (port : raw_port) : bool :=
  String.eqb
    (upper (match rp_protocol port with Some p => p | None => "TCP" end)) "TCP".

(** A port spec matches neither key of a named endpoint port. *)
Definition matches_neither (port : port_spec) (p : raw_port) : Prop :=
  forall a, attr_present port a = true ->
            PStr (py_str (port_get port a)) <> rp_name p
            /\ py_str (port_get port a) <> py_str (rp_port p).

(** The record the Consul decoder appends for an endpoint it keeps. *)
Definition consul_target_of (ep : consul_endpoint) : consul_target :=
  {| ct_ip := ce_Address ep; ct_port := ce_Port ep;
     ct_target_kind := PStr "Consul" |}.

(** An endpoint has both an address and a port. *)
Definition has_address_and_port (ep : consul_endpoint) : bool :=
  truthy (ce_Address ep) && truthy (ce_Port ep).

(** The endpoints the Consul decoder keeps, as it stores them. *)
Definition consul_survivors (endpoints : list consul_endpoint)
  : list consul_target :=
  map consul_target_of (filter has_address_and_port endpoints).

(** An endpoint that lacks an address or a port and has no [ID] key. *)
Definition skipped_without_id (ep : consul_endpoint) : bool :=
  negb (has_address_and_port ep)
  && match ce_ID ep with None => true | Some _ => false end.

(** [d[k] = v] for each [(k, v)] of [ws], in order. *)
Fixpoint apply_writes (ws : list (atom * value)) (d : adict value) : adict value :=
  match ws with
  | [] => d
  | (k, v) :: rest => apply_writes rest (aset d k v)
  end.

(** * Sample inputs *)

Definition mk_port (targetPort name port : atom) : port_spec :=
  {| sp_targetPort := targetPort; sp_name := name; sp_port := port |}.

Definition mk_address (ip : atom) : address :=
  {| a_ip := ip; a_node := PNone; a_target_kind := PNone;
     a_target_name := PNone; a_target_namespace := PNone |}.

Definition mk_ep (addresses : list address) (ports : adict atom) : ep_entry :=
  {| ep_name := PStr "web"; ep_namespace := PStr "default";
     ep_addresses := addresses; ep_ports := ports |}.

Definition mk_svc (ports : list port_spec) : svc_entry :=
  {| svc_name := PStr "web"; svc_namespace := PStr "default";
     svc_ports := ports |}.

(** An endpoint entry with one port and two addresses. *)
Definition one_port_endpoints : sdict ep_entry :=
  [("web.default",
    mk_ep [mk_address (PStr "10.0.0.1"); mk_address (PStr "10.0.0.2")]
          [(PStr "8080", PInt 8080)])].

(** An endpoint entry with a named port, as the decoder stores it. *)
Definition named_port_endpoints : sdict ep_entry :=
  [("web.default",
    mk_ep [mk_address (PStr "10.0.0.1")]
          [(PStr "8080", PInt 8080); (PStr "http", PInt 8080)])].

Definition sample_config : config :=
  {| enable_endpoints := true; single_namespace := false;
     ambassador_namespace := PStr "default";
     ambassador_id := VS "default" |}.

Definition mk_metadata (name : string) : metadata :=
  {| md_name := PStr name; md_namespace := None; md_config := None |}.

(** A Kubernetes Endpoints object with the given subsets. *)
Definition endpoints_object (name : string) (subsets : list subset) : k8s_object :=
  {| ko_kind := PStr "Endpoints"; ko_apiVersion := PStr "v1";
     ko_metadata := Some (mk_metadata name); ko_subsets := subsets;
     ko_ports := []; ko_type := PNone; ko_data := None; ko_spec := [] |}.

(** A Kubernetes Service object with the given ports. *)
Definition service_object (name : string) (ports : list port_spec) : k8s_object :=
  {| ko_kind := PStr "Service"; ko_apiVersion := PStr "v1";
     ko_metadata := Some (mk_metadata name); ko_subsets := [];
     ko_ports := ports; ko_type := PNone; ko_data := None; ko_spec := [] |}.

Definition raw_ip (ip : string) : raw_address :=
  {| ra_ip := PStr ip; ra_nodeName := PNone; ra_targetRef := None |}.

(** An address that names its node and has no IP. *)
Definition node_only_address : raw_address :=
  {| ra_ip := PNone; ra_nodeName := PStr "node-1"; ra_targetRef := None |}.

Definition tcp_port (name : atom) (number : Z) : raw_port :=
  {| rp_name := name; rp_port := PInt number; rp_protocol := None |}.

(** Collaborators for worked examples: a resource is its key and its
    dictionary, construction always succeeds, every object is ours. *)
Definition sample_resource : Type := atom * value.

Definition sample_from_dict (rkey location : atom) (serialization : string)
    (attrs : value) : construction sample_resource :=
  Built (rkey, attrs).

Definition sample_dump_yaml (v : value) : string := "".
Definition sample_good_id (v : value) : bool := true.
Definition sample_parse_yaml (text : string) : option (list value) := Some [].
Definition sample_repr (v : value) : string := "".

Definition sample_init : fetcher sample_resource := init sample_resource.

(** Scenario D: two endpoints at port 9000 in datacenter dc2. *)
Definition scenario_d : consul_object :=
  {| co_Service := Some (PStr "db");
     co_Id := PStr "dc2";
     co_Endpoints :=
       [ {| ce_ID := Some (PStr "a"); ce_Address := PStr "10.1.0.1"; ce_Port := PInt 9000 |};
         {| ce_ID := Some (PStr "b"); ce_Address := PStr "10.1.0.2"; ce_Port := PInt 9000 |} ] |}.

(** The first endpoint of scenario D, and one with a port only: no
    address and no ID. *)
Definition entry_with_bare_endpoint : consul_object :=
  {| co_Service := Some (PStr "db");
     co_Id := PStr "dc2";
     co_Endpoints :=
       [ {| ce_ID := Some (PStr "a"); ce_Address := PStr "10.1.0.1";
            ce_Port := PInt 9000 |};
         {| ce_ID := None; ce_Address := PNone; ce_Port := PInt 9000 |} ] |}.

(** A snapshot with one Kubernetes Service and one Consul entry. *)
Definition service_then_consul : watt :=
  {| w_Kubernetes :=
       [("service", [service_object "web" [mk_port PNone PNone (PInt 80)]])];
     w_Consul_Endpoints := [("db", scenario_d)] |}.

(** A [kind: Service] resource without a name, and a Mapping. *)
Definition nameless_service : value :=
  VDict [(PStr "apiVersion", VS "ambassador/v1"); (PStr "kind", VS "Service")].

Definition some_mapping : value :=
  VDict [(PStr "apiVersion", VS "ambassador/v1"); (PStr "kind", VS "Mapping");
         (PStr "name", VS "web_mapping"); (PStr "prefix", VS "/web/");
         (PStr "service", VS "web")].

(** A fetcher that has staged one Kubernetes Service and its Endpoints,
    and the state [finalize] leaves it in. *)
Definition staged_state : fetcher sample_resource :=
  set_k8s_services
    [("web.default",
      mk_svc [mk_port (PStr "http") PNone (PInt 80);
              mk_port PNone PNone (PInt 443)])]
    (set_k8s_endpoints named_port_endpoints sample_init).

Definition finalized_state : fetcher sample_resource :=
  match finalize sample_from_dict sample_dump_yaml sample_config staged_state with
  | Ok _ s => s
  | Raise _ s => s
  end.

(** * Further vocabulary and sample inputs *)

(** An endpoint entry whose only address names a node and has no IP. *)
Definition node_only_endpoints : sdict ep_entry :=
  [("web.default",
    mk_ep [make_addr node_only_address] [(PStr "8080", PInt 8080)])].

(** The application resource [handle_k8s_crd] makes of a CRD: a copy of
    [spec] with [apiVersion], [name] and [kind] stored over it, in that
    order. *)
Definition crd_resource (obj : k8s_object) : list (atom * value) :=
  aset
    (aset
       (aset (ko_spec obj) (PStr "apiVersion") (VAtom (ko_apiVersion obj)))
       (PStr "name") (VAtom (resource_name_of (ko_metadata obj))))
    (PStr "kind") (VAtom (ko_kind obj)).

(** [metadata.get('namespace') or 'default'] of a CRD. *)
Definition crd_namespace (obj : k8s_object) : atom :=
  py_or (match ko_metadata obj with
         | Some m => match md_namespace m with Some n => n | None => PNone end
         | None => PNone
         end) (PStr "default").

(** The same object under another [kind]. *)
Definition with_kind (kind : atom) (obj : k8s_object) : k8s_object :=
  {| ko_kind := kind; ko_apiVersion := ko_apiVersion obj;
     ko_metadata := ko_metadata obj; ko_subsets := ko_subsets obj;
     ko_ports := ko_ports obj; ko_type := ko_type obj;
     ko_data := ko_data obj; ko_spec := ko_spec obj |}.

(** The kinds [handle_k8s] finds a handler for. *)
Definition handled_kinds : list string :=
  ["service"; "endpoints"; "secret"; "crd"].

(** A Kubernetes Secret object. *)
Definition secret_object (name : string) (type : atom) (data : secret_data)
  : k8s_object :=
  {| ko_kind := PStr "Secret"; ko_apiVersion := PStr "v1";
     ko_metadata := Some (mk_metadata name); ko_subsets := [];
     ko_ports := []; ko_type := type; ko_data := Some data; ko_spec := [] |}.

(** A Mapping CRD whose spec tries to name its own kind. *)
Definition mapping_crd : k8s_object :=
  {| ko_kind := PStr "Mapping"; ko_apiVersion := PStr "getambassador.io/v1";
     ko_metadata := Some (mk_metadata "web-mapping"); ko_subsets := [];
     ko_ports := []; ko_type := PNone; ko_data := None;
     ko_spec := [(PStr "prefix", VS "/web/"); (PStr "kind", VS "Module");
                 (PStr "service", VS "web")] |}.

(** A Service with an annotation. *)
Definition annotated_service : k8s_object :=
  {| ko_kind := PStr "Service"; ko_apiVersion := PStr "v1";
     ko_metadata :=
       Some {| md_name := PStr "web"; md_namespace := None;
               md_config := Some "---" |};
     ko_subsets := []; ko_ports := []; ko_type := PNone; ko_data := None;
     ko_spec := [] |}.

(** The loop of [parse_object] over application resources. *)
Definition process_objects {R : Type}
    (from_dict : atom -> atom -> string -> value -> construction R)
    (dump_yaml : value -> string) (good_ambassador_id : value -> bool)
    (py_repr : value -> string) (rkey : atom) (objects : list value)
  : M R unit :=
  for_each
    (fun obj =>
       bind (process_object from_dict dump_yaml good_ambassador_id py_repr
               obj rkey) (fun _ =>
       modify (fun s => set_location (filename s) (ocount s + 1) (saved s) s)))
    objects.

(** ["%s.%d" % (rkey, self.ocount)]. *)
Definition resource_key (source : string) (ordinal : Z) : string :=
  (source ++ "." ++ py_str (PInt ordinal))%string.

(** The keys a batch gives its objects: every object takes the next
    ordinal, an object with another ambassador_id keeps none. *)
Fixpoint numbered (good_ambassador_id : value -> bool) (source : string)
    (ordinal : Z) (objects : list value) : list (atom * value) :=
  match objects with
  | [] => []
  | obj :: rest =>
      if good_ambassador_id obj
      then (PStr (resource_key source ordinal), obj)
           :: numbered good_ambassador_id source (ordinal + 1) rest
      else numbered good_ambassador_id source (ordinal + 1) rest
  end.

(** A dictionary that, if it is ours, has a kind other than Pragma and
    Service. *)
Definition plain_resource (good_ambassador_id : value -> bool) (obj : value)
  : Prop :=
  exists d,
    obj = VDict d
    /\ (good_ambassador_id obj = true ->
        exists kind, vget d "kind" = Some kind
                     /\ value_is_str kind "Pragma" = false
                     /\ value_is_str kind "Service" = false).

(** A Pragma object of ours. *)
Definition is_pragma (good_ambassador_id : value -> bool) (obj : value)
  : Prop :=
  exists d kind,
    obj = VDict d /\ good_ambassador_id obj = true
    /\ vget d "kind" = Some kind /\ value_is_str kind "Pragma" = true.

(** The source label after a Pragma: its [source] when that is set. *)
Definition pragma_source (obj current : value) : value :=
  match obj with
  | VDict d =>
      match vget d "source" with
      | Some v => if truthy_value v then v else current
      | None => current
      end
  | _ => current
  end.

Definition some_pragma : value :=
  VDict [(PStr "kind", VS "Pragma"); (PStr "source", VS "service web")].

Definition other_mapping : value :=
  VDict [(PStr "apiVersion", VS "ambassador/v1"); (PStr "kind", VS "Mapping");
         (PStr "name", VS "api_mapping"); (PStr "prefix", VS "/api/");
         (PStr "service", VS "api")].

(** The location of [s'] is that of [s], but for the annotation marker:
    same ordinal, same saved locations, and the same source label or that
    label with [:annotation] added to it. *)
Definition settled {R : Type} (s s' : fetcher R) : Prop :=
  ocount s' = ocount s
  /\ saved s' = saved s
  /\ (filename s' = filename s
      \/ exists f, filename s = VS f
                   /\ endswith f ":annotation" = false
                   /\ filename s' = VS (f ++ ":annotation")).

(** A computation that, when it returns, leaves the location settled. *)
Definition returns_settled {R A : Type} (m : M R A) : Prop :=
  forall s a s', m s = Ok a s' -> settled s s'.

(** A snapshot with a Service that carries an annotation, a CRD and a
    Consul entry. *)
Definition mixed_snapshot : watt :=
  {| w_Kubernetes :=
       [("service", [annotated_service]); ("Mapping", [mapping_crd]);
        ("Pod", [service_object "ignored" [mk_port PNone PNone (PInt 1)]])];
     w_Consul_Endpoints := [("db", scenario_d)] |}.

(** The same snapshot without the kind the fetcher does not read. *)
Definition mixed_snapshot_known : watt :=
  {| w_Kubernetes :=
       [("service", [annotated_service]); ("Mapping", [mapping_crd])];
     w_Consul_Endpoints := [("db", scenario_d)] |}.

(** A fetcher reading [demo.yaml]. *)
Definition reading_state : fetcher sample_resource :=
  set_location (VS "demo.yaml") 1 [] sample_init.

(** A resource class that refuses dictionaries with a [datacenter]. *)
Definition picky_from_dict (rkey location : atom) (serialization : string)
    (attrs : value) : construction sample_resource :=
  match attrs with
  | VDict d =>
      match vget d "datacenter" with
      | Some _ => Failed [VS "no datacenter, please"]
      | None => Built (rkey, attrs)
      end
  | _ => Built (rkey, attrs)
  end.

(** Two staged Kubernetes services whose names and namespaces run
    together to the same [services] key. *)
Definition colliding_services : list (string * svc_entry) :=
  [("a-b.c", {| svc_name := PStr "a-b"; svc_namespace := PStr "c";
                svc_ports := [mk_port PNone PNone (PInt 80)] |});
   ("a.b-c", {| svc_name := PStr "a"; svc_namespace := PStr "b-c";
                svc_ports := [mk_port PNone PNone (PInt 443)] |})].

(** A YAML library that reads every annotation as a Pragma followed by a
    Mapping. *)
Definition pragma_parse_yaml (text : string) : option (list value) :=
  Some [some_pragma; some_mapping].

(** The fetcher after the mixed snapshot, read without [finalize]. *)
Definition decoded_state : fetcher sample_resource :=
  match parse_watt sample_from_dict sample_dump_yaml sample_good_id
          pragma_parse_yaml sample_repr sample_config false false
          (Some mixed_snapshot) false reading_state with
  | Ok _ s => s
  | Raise _ s => s
  end.

(** A directly declared Service, and a fetcher that holds it and the
    Consul service of scenario D. *)
Definition declared_service : value :=
  VDict [(PStr "apiVersion", VS "ambassador/v1"); (PStr "kind", VS "Service");
         (PStr "name", VS "plain")].

Definition consul_d_value : value :=
  consul_value sample_config
    {| cs_name := PStr "db"; cs_datacenter := PStr "dc2";
       cs_endpoints :=
         [(PStr "*",
           [ {| ct_ip := PStr "10.1.0.1"; ct_port := PInt 9000;
                ct_target_kind := PStr "Consul" |};
             {| ct_ip := PStr "10.1.0.2"; ct_port := PInt 9000;
                ct_target_kind := PStr "Consul" |} ])] |}.

Definition two_services_state : fetcher sample_resource :=
  set_services
    [(PStr "plain", declared_service); (PStr "consul-db-dc2", consul_d_value)]
    sample_init.

(** The situations in which [process_object] raises [e] on [obj]: a
    diagnostic that prints the object meets keys it cannot sort, a Service
    has no usable [name], or [ACResource.from_dict] raised an exception
    without arguments. *)
Definition raising_situation {R : Type}
    (from_dict : atom -> atom -> string -> value -> construction R)
    (dump_yaml : value -> string) (good_ambassador_id : value -> bool)
    (py_repr : value -> string)
    (obj : value) (rkey : atom) (s : fetcher R) (e : exn) : Prop :=
  ((forall d, obj <> VDict d)
   /\ truthy_value obj = true
   /\ json_dumps_returns obj = false
   /\ e = TypeError)
  \/ exists d,
       obj = VDict d
       /\ good_ambassador_id obj = true
       /\ ((vget d "kind" = None
            /\ json_dumps_returns obj = false
            /\ e = TypeError)
           \/ exists kind,
                vget d "kind" = Some kind
                /\ value_is_str kind "Pragma" = false
                /\ ((value_is_str kind "Service" = true
                     /\ vget d "name" = None
                     /\ e = KeyError "name")
                    \/ (value_is_str kind "Service" = true
                        /\ (exists v, vget d "name" = Some v
                                      /\ forall a, v <> VAtom a)
                        /\ e = TypeError)
                    \/ (value_is_str kind "Service" = false
                        /\ (let key :=
                              PStr (resource_key
                                      (str_value py_repr
                                         (if truthy rkey then VAtom rkey
                                          else filename s))
                                      (ocount s)) in
                            from_dict key key (dump_yaml obj) obj = Failed [])
                        /\ e = IndexError))).

(** A dictionary without a kind whose keys are a string and a number. *)
Definition mixed_keys : value :=
  VDict [(PStr "name", VS "web"); (PInt 1, VS "one")].

(** The one-character string ['²'] (U+00B2, superscript two), as the two
    bytes of its UTF-8 encoding; [str.isdigit] accepts it. *)
Definition superscript_two : string :=
  String "194"%char (String "178"%char EmptyString).

(** ** Vocabulary of the output order *)

(** A source object of a snapshot, with the loop of [parse_watt] that
    reads it. *)
Inductive source : Type :=
| KubernetesObject (obj : k8s_object)
| CrdObject (obj : k8s_object)
| ConsulEntry (consul_rkey : string) (consul_object : consul_object).

(** The source objects of a snapshot in the order [parse_watt] meets them:
    Services, Endpoints and Secrets, then the CRDs kind by kind, then the
    Consul entries. *)
Definition watt_sources (w : watt) : list source :=
  map KubernetesObject (flat_map (watt_objects w) watt_k8s_kinds)
  ++ map CrdObject (flat_map (watt_objects w) watt_crd_kinds)
  ++ map (fun '(consul_rkey, consul_object) =>
            ConsulEntry consul_rkey consul_object)
         (w_Consul_Endpoints w).

(** What [parse_watt] does with one source object. *)
Definition handle_source {R : Type}
    (from_dict : atom -> atom -> string -> value -> construction R)
    (dump_yaml : value -> string) (good_ambassador_id : value -> bool)
    (parse_yaml_text : string -> option (list value))
    (py_repr : value -> string) (Config : config) (src : source)
  : M R unit :=
  match src with
  | KubernetesObject obj =>
      handle_k8s from_dict dump_yaml good_ambassador_id parse_yaml_text
        py_repr Config obj
  | CrdObject obj =>
      handle_k8s_crd from_dict dump_yaml good_ambassador_id py_repr obj
  | ConsulEntry consul_rkey consul_object =>
      bind (handle_consul_service Config consul_rkey consul_object)
        (fun result =>
           match result with
           | Some (rkey, parsed_objects) =>
               fun s =>
                 parse_object from_dict dump_yaml good_ambassador_id py_repr
                   parsed_objects (PStr rkey) (filename s) s
           | None => ret tt
           end)
  end.

(** The application resources a handler hands back for processing. *)
Definition returned_fragments (result : option (string * list value))
  : list value :=
  match result with
  | Some (_, parsed_objects) => parsed_objects
  | None => []
  end.

(** The application resources that handling [src] in state [s] gives rise
    to, in the order they are processed: the fragments the handler of a
    Kubernetes object returns (the documents of a Service's annotation,
    the dictionary of a Secret), the one resource of a CRD, or none. *)
Definition source_objects {R : Type}
    (parse_yaml_text : string -> option (list value)) (Config : config)
    (src : source) (s : fetcher R) (objects : list value) : Prop :=
  match src with
  | KubernetesObject obj =>
      (exists result s0,
          (handle_k8s_service parse_yaml_text Config obj s = Ok result s0
           \/ handle_k8s_endpoints Config obj s = Ok result s0
           \/ handle_k8s_secret Config obj s = Ok result s0)
          /\ objects = returned_fragments result)
      \/ objects = [VDict (crd_resource obj)]
      \/ objects = []
  | CrdObject obj => objects = [VDict (crd_resource obj)] \/ objects = []
  | ConsulEntry _ _ => objects = []
  end.

(** [handle] is run on the objects of [sources] one after the other, from
    [s] to [s']; each run returns, and the run on the i-th object has added
    the resources [built_i], and nothing else, at the end of [elements]. *)
Fixpoint in_source_order {R A : Type} (handle : A -> M R unit)
    (sources : list A) (s : fetcher R) (built : list (list R))
    (s' : fetcher R) : Prop :=
  match sources, built with
  | [], [] => s' = s
  | src :: sources, c :: built =>
      exists s1,
        handle src s = Ok tt s1
        /\ elements s1 = elements s ++ c
        /\ in_source_order handle sources s1 built s'
  | _, _ => False
  end.

(** What an application resource contributes to [elements]: nothing, or
    the one resource [ACResource.from_dict] built from it. *)
Definition built_from {R : Type}
    (from_dict : atom -> atom -> string -> value -> construction R)
    (dump_yaml : value -> string) (obj : value) (c : list R) : Prop :=
  c = []
  \/ exists key r,
       c = [r] /\ from_dict (PStr key) (PStr key) (dump_yaml obj) obj = Built r.

(** The keys of [ks] that are not in [seen], each where it first occurs. *)
Fixpoint new_keys (seen ks : list atom) : list atom :=
  match ks with
  | [] => []
  | k :: rest =>
      if in_dec atom_eq_dec k seen then new_keys seen rest
      else k :: new_keys (seen ++ [k]) rest
  end.

(** The [services] keys of the staged Kubernetes services, in the order of
    [k8s_services]. *)
Definition staged_keys (items : list (string * svc_entry)) : list atom :=
  map (fun item => service_key (snd item)) items.

(** A YAML library that reads every annotation as two Mappings. *)
Definition two_mappings_yaml (text : string) : option (list value) :=
  Some [some_mapping; other_mapping].

(** A snapshot with three Services, the first of them annotated and
    without ports, a Mapping CRD and the Consul entry of scenario D. *)
Definition ordered_snapshot : watt :=
  {| w_Kubernetes :=
       [("Mapping", [mapping_crd]);
        ("service",
         [annotated_service;
          service_object "api" [mk_port PNone PNone (PInt 80)];
          service_object "web" [mk_port PNone PNone (PInt 443)]])];
     w_Consul_Endpoints := [("db", scenario_d)] |}.

(** The fetcher after that snapshot, read from [demo.yaml] and
    finalized. *)
Definition ordered_state : fetcher sample_resource :=
  match parse_watt sample_from_dict sample_dump_yaml sample_good_id
          two_mappings_yaml sample_repr sample_config false false
          (Some ordered_snapshot) true reading_state with
  | Ok _ s => s
  | Raise _ s => s
  end.

(** * Properties *)

(** ** Dictionaries *)

Section DictFacts.
Variable K : Type.
Variable K_eq_dec : forall a b : K, {a = b} + {a <> b}.
Variable V : Type.
Implicit Types (d : Dict.t K V) (k : K) (v : V).

Lemma keys_set_in d k v : In k (Dict.keys d) -> Dict.keys (Dict.set K_eq_dec d k v) = Dict.keys d.
Proof.
  induction d as [|[k' v'] d IH]; simpl; [tauto|].
  intros H. destruct (K_eq_dec k k') as [->|Hne]; simpl; [reflexivity|].
  f_equal. apply IH. destruct H as [H|H]; [congruence|assumption].
Qed.

Lemma keys_set_notin d k v :
  ~ In k (Dict.keys d) -> Dict.keys (Dict.set K_eq_dec d k v) = Dict.keys d ++ [k].
Proof.
  induction d as [|[k' v'] d IH]; simpl; [reflexivity|].
  intros H. destruct (K_eq_dec k k') as [->|Hne]; simpl; [tauto|].
  f_equal. apply IH. tauto.
Qed.

Lemma in_keys_set d k v k0 : In k0 (Dict.keys d) -> In k0 (Dict.keys (Dict.set K_eq_dec d k v)).
Proof.
  induction d as [|[k' v'] d IH]; simpl; [tauto|].
  destruct (K_eq_dec k k'); simpl; intuition.
Qed.

Lemma get_set_same d k v : Dict.get K_eq_dec (Dict.set K_eq_dec d k v) k = Some v.
Proof.
  induction d as [|[k' v'] d IH]; simpl.
  - destruct (K_eq_dec k k); congruence.
  - destruct (K_eq_dec k k') as [->|Hne]; simpl.
    + destruct (K_eq_dec k' k'); congruence.
    + destruct (K_eq_dec k k'); congruence.
Qed.

Lemma get_set_other d k v k0 : k0 <> k -> Dict.get K_eq_dec (Dict.set K_eq_dec d k v) k0 = Dict.get K_eq_dec d k0.
Proof.
  intros Hne. induction d as [|[k' v'] d IH]; simpl.
  - destruct (K_eq_dec k0 k); congruence.
  - destruct (K_eq_dec k k') as [->|Hne']; simpl.
    + destruct (K_eq_dec k0 k'); congruence.
    + destruct (K_eq_dec k0 k'); congruence.
Qed.

Lemma get_in_keys d k v : Dict.get K_eq_dec d k = Some v -> In k (Dict.keys d).
Proof.
  induction d as [|[k' v'] d IH]; simpl; [discriminate|].
  destruct (K_eq_dec k k'); auto.
Qed.

Lemma in_keys_get d k : In k (Dict.keys d) -> exists v, Dict.get K_eq_dec d k = Some v.
Proof.
  induction d as [|[k' v'] d IH]; simpl; [tauto|].
  intros H. destruct (K_eq_dec k k'); [eauto|].
  apply IH. destruct H; congruence.
Qed.

Lemma get_none_notin d k : Dict.get K_eq_dec d k = None -> ~ In k (Dict.keys d).
Proof.
  intros H Hin. destruct (in_keys_get _ _ Hin) as [v Hv]. congruence.
Qed.

Lemma nodup_set d k v : NoDup (Dict.keys d) -> NoDup (Dict.keys (Dict.set K_eq_dec d k v)).
Proof.
  intros H. destruct (in_dec K_eq_dec k (Dict.keys d)) as [Hin|Hnin].
  - rewrite keys_set_in; assumption.
  - rewrite keys_set_notin by assumption.
    apply NoDup_app; [assumption | repeat constructor; simpl; tauto |].
    intros x Hx [<-|[]]. exact (Hnin Hx).
Qed.

(** Storing the value a key already has changes nothing. *)
Lemma set_same d k v : Dict.get K_eq_dec d k = Some v -> Dict.set K_eq_dec d k v = d.
Proof.
  induction d as [|[k' v'] d IH]; simpl; [discriminate|].
  destruct (K_eq_dec k k') as [->|Hne]; intros H.
  - congruence.
  - f_equal. auto.
Qed.

End DictFacts.

(** ** One service port *)

Lemma resolve_port_no_number k8s_ep_ports idx port :
  truthy (sp_port port) = false ->
  resolve_port k8s_ep_ports idx port = Skipped (NoPortNumber idx).
Proof. intros H. unfold resolve_port. simpl. rewrite H. reflexivity. Qed.

(** The scan sets [found_key] as soon as one attribute is set. *)
Lemma scan_found_key k8s_ep_ports port attrs :
  forall st,
    found_key st = true
    \/ (exists a, In a attrs /\ truthy (port_get port a) = true) ->
    found_key (scan_attrs k8s_ep_ports port attrs st) = true.
Proof.
  induction attrs as [|a attrs IH]; intros st H; simpl.
  - destruct H as [H|[a [[] _]]]. exact H.
  - destruct (truthy (port_get port a)) eqn:Ht.
    + destruct (truthy (ports_lookup k8s_ep_ports (port_get port a)));
        [reflexivity|]. apply IH. left. reflexivity.
    + apply IH. destruct H as [H|[b [[<-|Hin] Hb]]]; [auto|congruence|eauto].
Qed.

Lemma resolve_port_with_number k8s_ep_ports idx port :
  truthy (sp_port port) = true ->
  exists target, resolve_port k8s_ep_ports idx port = Resolved (sp_port port) target.
Proof.
  intros H. unfold resolve_port. cbv zeta.
  change (port_get port Port) with (sp_port port). rewrite H.
  set (st := scan_attrs _ _ _ _).
  assert (Hf : found_key st = true).
  { apply scan_found_key. right. exists Port. simpl. auto. }
  clearbody st. rewrite Hf. simpl.
  destruct (List.length k8s_ep_ports =? 1)%nat; [eauto|].
  destruct (negb (truthy (k8s_target st))); eauto.
Qed.

(** C6, as the code has it: whether a port spec is skipped is decided by its
    [port] attribute alone.  A spec whose [port] is absent, null or zero is
    skipped with the "no port number" error and leaves [target_ports] as it
    was, whatever its [targetPort] and [name]; a spec with a port number is
    never skipped, so the "empty port spec" error cannot occur. *)
Theorem port_skipped_iff_no_port_number :
  forall (k8s_ep_ports : adict atom) (idx : Z) (port : port_spec),
    ((exists e, resolve_port k8s_ep_ports idx port = Skipped e)
     <-> truthy (sp_port port) = false)
    /\ (forall e, resolve_port k8s_ep_ports idx port = Skipped e ->
                  e = NoPortNumber idx)
    /\ (forall rest target_ports log,
          truthy (sp_port port) = false ->
          resolve_ports k8s_ep_ports idx (port :: rest) target_ports log
          = resolve_ports k8s_ep_ports (idx + 1) rest target_ports
              (log ++ [NoPortNumber (idx + 1)])).
Proof.
  intros ep idx port. split; [split|split].
  - intros [e He]. destruct (truthy (sp_port port)) eqn:Ht; [|reflexivity].
    destruct (resolve_port_with_number ep idx port Ht) as [t Hr]. congruence.
  - intros Ht. eexists. apply resolve_port_no_number. exact Ht.
  - intros e He. destruct (truthy (sp_port port)) eqn:Ht.
    + destruct (resolve_port_with_number ep idx port Ht) as [t Hr]. congruence.
    + rewrite (resolve_port_no_number ep idx port Ht) in He. congruence.
  - intros rest tp log Ht. simpl.
    rewrite (resolve_port_no_number ep (idx + 1) port Ht). reflexivity.
Qed.

(** C6 as stated fails: the first port spec carries [targetPort] and [name]
    and is skipped all the same, because it has no [port]; the second
    carries all three attributes, with port 0, and is skipped too. *)
Lemma port_with_target_and_name_skipped :
  let port := mk_port (PInt 8080) (PStr "http") PNone in
  let port0 := mk_port (PInt 8080) (PStr "http") (PInt 0) in
  let k8s_ep_ports := [(PStr "8080", PInt 8080); (PStr "http", PInt 8080)] in
  attr_present port TargetPort = true
  /\ attr_present port Name = true
  /\ resolve_port k8s_ep_ports 0 port = Skipped (NoPortNumber 0)
  /\ resolve_port k8s_ep_ports 1 port0 = Skipped (NoPortNumber 1)
  /\ resolve_ports k8s_ep_ports (-1) [port; port0] [] []
     = ([], [NoPortNumber 0; NoPortNumber 1]).
Proof. cbv zeta. repeat split. Qed.

(** ** The port loop *)

Lemma aset_notin_app {V} (d : adict V) k v :
  ~ In k (Dict.keys d) -> aset d k v = d ++ [(k, v)].
Proof.
  induction d as [|[k' v'] d IH]; simpl; [reflexivity|].
  intros H. destruct (atom_eq_dec k k') as [->|Hne]; [tauto|].
  f_equal. apply IH. tauto.
Qed.

Lemma resolve_ports_nodup k8s_ep_ports ports :
  forall idx target_ports log,
    NoDup (Dict.keys target_ports) ->
    NoDup (Dict.keys (fst (resolve_ports k8s_ep_ports idx ports target_ports log))).
Proof.
  induction ports as [|port ports IH]; intros idx tp log H; simpl; [exact H|].
  destruct (resolve_port k8s_ep_ports (idx + 1) port); apply IH;
    [exact H | apply nodup_set; exact H].
Qed.

Lemma resolve_ports_keeps_keys k8s_ep_ports ports :
  forall idx target_ports log k,
    In k (Dict.keys target_ports) ->
    In k (Dict.keys (fst (resolve_ports k8s_ep_ports idx ports target_ports log))).
Proof.
  induction ports as [|port ports IH]; intros idx tp log k H; simpl; [exact H|].
  destruct (resolve_port k8s_ep_ports (idx + 1) port); apply IH;
    [exact H | apply in_keys_set; exact H].
Qed.

(** Every port spec with a port number ends up as a key of [target_ports]. *)
Lemma resolve_ports_has_key k8s_ep_ports ports :
  forall idx target_ports log port,
    In port ports -> truthy (sp_port port) = true ->
    In (sp_port port)
       (Dict.keys (fst (resolve_ports k8s_ep_ports idx ports target_ports log))).
Proof.
  induction ports as [|p ports IH]; intros idx tp log port Hin Ht; simpl;
    [destruct Hin|].
  destruct Hin as [->|Hin].
  - destruct (resolve_port_with_number k8s_ep_ports (idx + 1) port Ht) as [t ->].
    apply resolve_ports_keeps_keys.
    apply get_in_keys with (K_eq_dec := atom_eq_dec) (v := t).
    apply get_set_same.
  - destruct (resolve_port k8s_ep_ports (idx + 1) p); apply IH; assumption.
Qed.

(** Every binding of [target_ports] was there before or is what
    [resolve_port] gave for some port spec of the list. *)
Lemma resolve_ports_binding k8s_ep_ports ports :
  forall idx target_ports log k t,
    aget (fst (resolve_ports k8s_ep_ports idx ports target_ports log)) k = Some t ->
    aget target_ports k = Some t
    \/ exists port i, In port ports
                      /\ resolve_port k8s_ep_ports i port = Resolved k t.
Proof.
  induction ports as [|p ports IH]; intros idx tp log k t H; simpl in *;
    [left; exact H|].
  destruct (resolve_port k8s_ep_ports (idx + 1) p) as [e|src tgt] eqn:Hr.
  - destruct (IH _ _ _ _ _ H) as [H'|(port & i & Hin & Hp)]; [left; exact H'|].
    right. exists port, i. auto.
  - destruct (IH _ _ _ _ _ H) as [H'|(port & i & Hin & Hp)].
    + unfold aget, aset in H'.
      destruct (atom_eq_dec k src) as [->|Hne].
      * rewrite get_set_same in H'. injection H' as <-.
        right. exists p, (idx + 1). auto.
      * rewrite get_set_other in H' by exact Hne. left. exact H'.
    + right. exists port, i. auto.
Qed.

(** ** From [target_ports] to the endpoints map *)

Lemma build_endpoints_fold target_addrs items :
  forall acc : adict (list endpoint),
    NoDup (Dict.keys acc ++ map fst items) ->
    fold_left
      (fun svc_endpoints '(src_port, target_port) =>
         aset svc_endpoints src_port
           (map (fun target_addr =>
                   {| e_ip := target_addr; e_port := target_port |})
                target_addrs))
      items acc
    = acc ++ map (fun '(k, t) => (k, endpoints_for target_addrs t)) items.
Proof.
  induction items as [|[k t] items IH]; intros acc H; simpl.
  - rewrite app_nil_r. reflexivity.
  - simpl in H. rewrite aset_notin_app.
    + rewrite IH.
      * rewrite <- app_assoc. reflexivity.
      * unfold Dict.keys. rewrite map_app. simpl. rewrite <- app_assoc.
        exact H.
    + intros Hin. apply NoDup_remove_2 in H. apply H.
      apply in_or_app. left. exact Hin.
Qed.

Lemma build_endpoints_map target_ports target_addrs :
  NoDup (Dict.keys target_ports) ->
  build_endpoints target_ports target_addrs
  = map (fun '(k, t) => (k, endpoints_for target_addrs t)) target_ports.
Proof.
  intros H. unfold build_endpoints, Dict.items.
  rewrite build_endpoints_fold; [reflexivity | exact H].
Qed.

Lemma aget_map_endpoints target_addrs (target_ports : adict atom) k :
  aget (map (fun '(k, t) => (k, endpoints_for target_addrs t)) target_ports) k
  = option_map (endpoints_for target_addrs) (aget target_ports k).
Proof.
  induction target_ports as [|[k' t] d IH]; simpl; [reflexivity|].
  destruct (atom_eq_dec k k'); [reflexivity | exact IH].
Qed.

(** What [resolve_service] returns when the endpoint entry has ports. *)
Lemma resolve_service_with_ports k8s_endpoints key k8s_svc ep :
  sget k8s_endpoints key = Some ep ->
  ep_ports ep <> [] ->
  let target_ports :=
    fst (resolve_ports (ep_ports ep) (-1) (svc_ports k8s_svc) [] []) in
  let r := resolve_service k8s_endpoints key k8s_svc in
  r_endpoints r
  = map (fun '(k, t) => (k, endpoints_for (r_target_addrs r) t)) target_ports
  /\ r_target_addrs r
     = match collect_ips (ep_addresses ep) with
       | [] => [PStr key]
       | ips => ips
       end.
Proof.
  intros Hep Hne. cbv zeta. unfold resolve_service, resolve_targets.
  rewrite Hep. destruct (ep_ports ep) as [|kv eps] eqn:Hp; [congruence|].
  pose proof (resolve_ports_nodup (kv :: eps) (svc_ports k8s_svc) (-1) []
                (@nil port_error) (NoDup_nil _)) as Hnd.
  destruct (resolve_ports (kv :: eps) (-1) (svc_ports k8s_svc) [] [])
    as [tp log]. simpl in Hnd. simpl fst.
  destruct tp; simpl; (split; [apply build_endpoints_map; exact Hnd|]);
    destruct (collect_ips (ep_addresses ep)); reflexivity.
Qed.

(** ** A single endpoint port *)

Lemma resolve_port_single k v idx port src t :
  resolve_port [(k, v)] idx port = Resolved src t -> t = v.
Proof.
  unfold resolve_port. cbv zeta.
  destruct (negb (truthy (port_get port Port))); [discriminate|].
  simpl. intros H. injection H as _ <-. reflexivity.
Qed.

(** C1, as the code has it: when the endpoint entry of a service has a port
    map with exactly one entry, every port spec of the service that carries
    a port number (not absent, null or zero) resolves to that entry's target
    port, whatever its name, number and targetPort: the port loop says so,
    and the emitted endpoints map binds the port number to the target
    addresses at that target port. *)
Theorem single_endpoint_port_wins :
  forall (k8s_endpoints : sdict ep_entry) (key : string) (k8s_svc : svc_entry)
         (ep : ep_entry) (k target : atom) (port : port_spec),
    sget k8s_endpoints key = Some ep ->
    ep_ports ep = [(k, target)] ->
    In port (svc_ports k8s_svc) ->
    truthy (sp_port port) = true ->
    (forall idx, resolve_port (ep_ports ep) idx port
                 = Resolved (sp_port port) target)
    /\ aget (r_endpoints (resolve_service k8s_endpoints key k8s_svc)) (sp_port port)
       = Some (endpoints_for
                 (r_target_addrs (resolve_service k8s_endpoints key k8s_svc))
                 target).
Proof.
  intros eps key svc ep k target port Hep Hports Hin Ht. split.
  - intros idx. rewrite Hports.
    destruct (resolve_port_with_number [(k, target)] idx port Ht) as [t Hr].
    rewrite Hr. f_equal. exact (resolve_port_single _ _ _ _ Hr).
  - destruct (resolve_service_with_ports eps key svc Hep) as [Hr _].
    { rewrite Hports. discriminate. }
    rewrite Hr, aget_map_endpoints.
    pose proof (resolve_ports_has_key (ep_ports ep) (svc_ports svc) (-1) []
                  [] port Hin Ht) as Hkey.
    apply in_keys_get with (K_eq_dec := atom_eq_dec) in Hkey.
    destruct Hkey as [t Hget]. fold (aget (V := atom)) in Hget.
    unfold aget in *. rewrite Hget. simpl. do 2 f_equal.
    apply resolve_ports_binding in Hget.
    destruct Hget as [Hnil|(p & i & _ & Hp)]; [discriminate|].
    rewrite Hports in Hp. exact (resolve_port_single _ _ _ _ Hp).
Qed.

Lemma single_endpoint_port_wins_example :
  let port := mk_port (PStr "http") (PStr "web") (PInt 80) in
  let r := resolve_service one_port_endpoints "web.default" (mk_svc [port]) in
  aget (r_endpoints r) (PInt 80)
  = Some [ {| e_ip := PStr "10.0.0.1"; e_port := PInt 8080 |};
           {| e_ip := PStr "10.0.0.2"; e_port := PInt 8080 |} ].
Proof.
  cbv zeta.
  refine (proj2 (single_endpoint_port_wins one_port_endpoints "web.default"
                   (mk_svc [mk_port (PStr "http") (PStr "web") (PInt 80)])
                   (k := PStr "8080") (target := PInt 8080)
                   (mk_port (PStr "http") (PStr "web") (PInt 80))
                   eq_refl eq_refl (or_introl eq_refl) eq_refl)).
Defined.

(** C1 as stated fails: with a one-entry port map, a port spec that has a
    name and a targetPort but no port number, or the port number 0, is
    skipped, and the emitted endpoints map stays empty. *)
Lemma single_endpoint_port_spec_without_number :
  let port := mk_port (PInt 9000) (PStr "metrics") PNone in
  let port0 := mk_port (PInt 9000) (PStr "metrics") (PInt 0) in
  let r := resolve_service one_port_endpoints "web.default"
             (mk_svc [port; port0]) in
  (forall src, resolve_port [(PStr "8080", PInt 8080)] 0 port
               <> Resolved src (PInt 8080))
  /\ (forall src, resolve_port [(PStr "8080", PInt 8080)] 1 port0
                  <> Resolved src (PInt 8080))
  /\ r_log r = [NoPortNumber 0; NoPortNumber 1; NoRoutablePorts]
  /\ r_endpoints r = [].
Proof.
  cbv zeta. split; [intros src; discriminate|].
  split; [intros src; discriminate|]. split; reflexivity.
Qed.

(** ** The attribute scan *)

Lemma first_truthy_lookup_truthy k8s_ep_ports port attrs t :
  first_truthy_lookup k8s_ep_ports port attrs = Some t -> truthy t = true.
Proof.
  induction attrs as [|a attrs IH]; simpl; [discriminate|].
  destruct (truthy (port_get port a)); simpl; [|exact IH].
  destruct (truthy (ports_lookup k8s_ep_ports (port_get port a))) eqn:E;
    [|exact IH].
  intros H. injection H as <-. exact E.
Qed.

Lemma scan_target k8s_ep_ports port attrs :
  forall st,
    truthy (k8s_target st) = false ->
    match first_truthy_lookup k8s_ep_ports port attrs with
    | Some t => k8s_target (scan_attrs k8s_ep_ports port attrs st) = t
    | None => truthy (k8s_target (scan_attrs k8s_ep_ports port attrs st)) = false
    end.
Proof.
  induction attrs as [|a attrs IH]; intros st Hst; simpl; [exact Hst|].
  destruct (truthy (port_get port a)); simpl; [|apply IH; exact Hst].
  destruct (truthy (ports_lookup k8s_ep_ports (port_get port a))) eqn:E;
    [reflexivity|].
  apply IH. exact E.
Qed.

Lemma digit_only_is_not_name a :
  isdigit (py_str a) = true -> atom_eqb a (PStr "name") = false.
Proof.
  intros H. unfold atom_eqb.
  destruct (atom_eq_dec a (PStr "name")) as [->|]; [discriminate|reflexivity].
Qed.

Lemma first_digit_only_truthy port attrs f :
  first_digit_only port attrs = Some f -> truthy f = true.
Proof.
  induction attrs as [|a attrs IH]; simpl; [discriminate|].
  unfold attr_present. destruct (truthy (port_get port a)) eqn:E; simpl;
    [|exact IH].
  destruct (isdigit (py_str (port_get port a))); [|exact IH].
  intros H. injection H as <-. exact E.
Qed.

(** When no lookup stops the scan, [fallback] ends up as the first
    digit-only attribute value (unless it was set before). *)
Lemma scan_fallback k8s_ep_ports port attrs :
  forall st,
    first_truthy_lookup k8s_ep_ports port attrs = None ->
    fallback (scan_attrs k8s_ep_ports port attrs st)
    = if truthy (fallback st) then fallback st
      else match first_digit_only port attrs with
           | Some f => f
           | None => fallback st
           end.
Proof.
  induction attrs as [|a attrs IH]; intros st Hmiss; simpl in *.
  - destruct (truthy (fallback st)); reflexivity.
  - unfold attr_present.
    destruct (truthy (port_get port a)) eqn:Ea; simpl in *;
      [|apply IH; exact Hmiss].
    destruct (truthy (ports_lookup k8s_ep_ports (port_get port a))) eqn:El;
      [discriminate|].
    rewrite (IH _ Hmiss). simpl.
    destruct (truthy (fallback st)) eqn:Ef; simpl.
    + rewrite Ef. reflexivity.
    + destruct (isdigit (py_str (port_get port a))) eqn:Ed.
      * rewrite (digit_only_is_not_name _ Ed). simpl. rewrite Ea. reflexivity.
      * rewrite andb_false_r, Ef. reflexivity.
Qed.

(** What the code does with a port spec that has a port number when the
    port map does not have exactly one entry. *)
Lemma resolve_port_scan k8s_ep_ports idx port :
  truthy (sp_port port) = true ->
  (List.length k8s_ep_ports =? 1)%nat = false ->
  resolve_port k8s_ep_ports idx port
  = Resolved (sp_port port)
      match first_truthy_lookup k8s_ep_ports port priority with
      | Some t => t
      | None => numeric_fallback port
      end.
Proof.
  intros Ht Hlen. unfold resolve_port. cbv zeta.
  change (port_get port Port) with (sp_port port). rewrite Ht, Hlen.
  fold priority.
  pose proof (scan_target k8s_ep_ports port priority scan_init eq_refl) as Htgt.
  pose proof (scan_fallback k8s_ep_ports port priority scan_init) as Hfb.
  set (st := scan_attrs _ _ _ _) in *.
  assert (Hf : found_key st = true).
  { apply scan_found_key. right. exists Port. simpl. auto. }
  rewrite Hf. simpl negb. cbv iota.
  destruct (first_truthy_lookup k8s_ep_ports port priority) as [t|] eqn:Eh.
  - rewrite Htgt, (first_truthy_lookup_truthy _ _ _ Eh). reflexivity.
  - rewrite Htgt. simpl negb. cbv iota. rewrite (Hfb eq_refl).
    unfold numeric_fallback. simpl (truthy (fallback scan_init)). cbv iota.
    destruct (first_digit_only port priority) as [f|] eqn:Ef.
    + unfold py_or. rewrite (first_digit_only_truthy _ _ Ef). reflexivity.
    + reflexivity.
Qed.

Lemma first_truthy_lookup_is_first_hit k8s_ep_ports port attrs :
  Forall (fun kv => truthy (snd kv) = true) k8s_ep_ports ->
  first_truthy_lookup k8s_ep_ports port attrs = first_hit k8s_ep_ports port attrs.
Proof.
  intros Hall.
  assert (Hget : forall k v, aget k8s_ep_ports k = Some v -> truthy v = true).
  { intros k. induction Hall as [|[k' v'] d Hv Hd IH]; simpl; [discriminate|].
    destruct (atom_eq_dec k k'); [|exact IH].
    intros v H. injection H as <-. exact Hv. }
  induction attrs as [|a attrs IH]; simpl; [reflexivity|].
  unfold attr_present, ports_lookup.
  destruct (truthy (port_get port a)); simpl; [|exact IH].
  destruct (aget k8s_ep_ports (PStr (py_str (port_get port a)))) as [v|] eqn:E.
  - rewrite (Hget _ _ E). reflexivity.
  - simpl. exact IH.
Qed.

(** C2, as the code has it: when the endpoint port map has more than one
    entry (each with a non-zero target), a port spec that carries a port
    number resolves to the first hit among targetPort, name and port, taken
    in that order as string keys of the port map; when all lookups miss, to
    the first digit-only attribute value, and failing that to its own port
    number. *)
Theorem port_resolved_by_priority :
  forall (k8s_ep_ports : adict atom) (idx : Z) (port : port_spec),
    (2 <= List.length k8s_ep_ports)%nat ->
    Forall (fun kv => truthy (snd kv) = true) k8s_ep_ports ->
    truthy (sp_port port) = true ->
    resolve_port k8s_ep_ports idx port
    = Resolved (sp_port port) (priority_target k8s_ep_ports port).
Proof.
  intros ep idx port Hlen Hall Ht.
  rewrite resolve_port_scan.
  - rewrite first_truthy_lookup_is_first_hit by exact Hall. reflexivity.
  - exact Ht.
  - apply Nat.eqb_neq. lia.
Qed.

Lemma port_resolved_by_priority_example :
  resolve_port [(PStr "8080", PInt 8080); (PStr "http", PInt 8080)] 0
    (mk_port (PStr "http") PNone (PInt 80))
  = Resolved (PInt 80) (PInt 8080)
  /\ resolve_port [(PStr "8080", PInt 8080); (PStr "http", PInt 8080)] 1
       (mk_port (PStr "admin") (PStr "9901") (PInt 81))
     = Resolved (PInt 81) (PStr "9901")
  /\ resolve_port [(PStr "8080", PInt 8080); (PStr "http", PInt 8080)] 2
       (mk_port (PStr superscript_two) PNone (PInt 82))
     = Resolved (PInt 82) (PStr superscript_two).
Proof.
  split; [|split].
  - refine (@port_resolved_by_priority
              [(PStr "8080", PInt 8080); (PStr "http", PInt 8080)] 0
              (mk_port (PStr "http") PNone (PInt 80)) _ _ eq_refl).
    + simpl. lia.
    + repeat constructor.
  - refine (@port_resolved_by_priority
              [(PStr "8080", PInt 8080); (PStr "http", PInt 8080)] 1
              (mk_port (PStr "admin") (PStr "9901") (PInt 81)) _ _ eq_refl).
    + simpl. lia.
    + repeat constructor.
  - refine (@port_resolved_by_priority
              [(PStr "8080", PInt 8080); (PStr "http", PInt 8080)] 2
              (mk_port (PStr superscript_two) PNone (PInt 82)) _ _ eq_refl).
    + simpl. lia.
    + repeat constructor.
Defined.

(** Digit-only is [str.isdigit]: a non-ASCII digit is remembered like an
    ASCII one, a fraction or a sign is not. *)
Example digit_only_strings :
  isdigit superscript_two = true
  /\ isdigit "9901" = true
  /\ isdigit "" = false
  /\ isdigit "-1" = false
  /\ isdigit "80a" = false
  /\ isdigit (String "194"%char (String "189"%char EmptyString)) = false
  /\ numeric_fallback (mk_port (PStr superscript_two) PNone (PInt 80))
     = PStr superscript_two.
Proof. repeat split. Qed.

(** C2 as stated fails.  The rule gives the first port spec the target 8080
    by its targetPort, but it has no port number, so the code skips it
    before the lookups.  And a key bound to 0 is found by the rule and
    passed over by the code, which takes the remembered candidate. *)
Lemma port_without_number_not_resolved :
  let port := mk_port (PStr "http") PNone PNone in
  let k8s_ep_ports := [(PStr "8080", PInt 8080); (PStr "http", PInt 8080)] in
  let port' := mk_port (PStr "0") PNone (PInt 80) in
  let k8s_ep_ports' := [(PStr "0", PInt 0); (PStr "http", PInt 8080)] in
  (priority_target k8s_ep_ports port = PInt 8080
   /\ resolve_port k8s_ep_ports 0 port = Skipped (NoPortNumber 0)
   /\ resolve_ports k8s_ep_ports (-1) [port] [] [] = ([], [NoPortNumber 0]))
  /\ (priority_target k8s_ep_ports' port' = PInt 0
      /\ resolve_port k8s_ep_ports' 0 port' = Resolved (PInt 80) (PStr "0")).
Proof. cbv zeta. repeat split. Qed.

(** ** No endpoints: service routing *)

(** C3, as the code has it: for a service with no endpoint entry under its
    key (or one whose port map is empty) the finalizer logs no error, sets
    its target address list to the one-element list holding the
    [name.namespace] key and maps no port, so the dictionary it emits has an
    empty [endpoints] map. *)
Theorem no_endpoints_service_routing :
  forall (cfg : config) (k8s_endpoints : sdict ep_entry) (key : string)
         (k8s_svc : svc_entry),
    sget k8s_endpoints key = None
    \/ (exists ep, sget k8s_endpoints key = Some ep /\ ep_ports ep = []) ->
    let r := resolve_service k8s_endpoints key k8s_svc in
    r_target_addrs r = [PStr key]
    /\ r_endpoints r = []
    /\ r_log r = []
    /\ service_value cfg r
       = VDict [(PStr "apiVersion", VS "ambassador/v1");
                (PStr "ambassador_id", ambassador_id cfg);
                (PStr "kind", VS "Service");
                (PStr "name", VAtom (svc_name k8s_svc));
                (PStr "namespace", VAtom (svc_namespace k8s_svc));
                (PStr "endpoints", VDict [])].
Proof.
  intros cfg eps key svc H r.
  assert (Ht : resolve_targets (sget eps key) svc = ([], [], [])).
  { destruct H as [->|(ep & -> & Hp)]; simpl; [reflexivity|].
    rewrite Hp. reflexivity. }
  assert (Hr : r = {| r_name := svc_name svc; r_namespace := svc_namespace svc;
                      r_target_addrs := [PStr key]; r_endpoints := [];
                      r_log := [] |}).
  { subst r. unfold resolve_service. rewrite Ht. reflexivity. }
  rewrite Hr. repeat split.
Qed.

Lemma no_endpoints_service_routing_example :
  let r := resolve_service [] "web.default"
             (mk_svc [mk_port PNone PNone (PInt 80)]) in
  r_target_addrs r = [PStr "web.default"]
  /\ r_endpoints r = []
  /\ r_log r = []
  /\ service_value sample_config r
     = VDict [(PStr "apiVersion", VS "ambassador/v1");
              (PStr "ambassador_id", VS "default");
              (PStr "kind", VS "Service");
              (PStr "name", VAtom (PStr "web"));
              (PStr "namespace", VAtom (PStr "default"));
              (PStr "endpoints", VDict [])].
Proof.
  exact (no_endpoints_service_routing sample_config [] "web.default"
           (mk_svc [mk_port PNone PNone (PInt 80)]) (or_introl eq_refl)).
Defined.

(** C3 as stated fails: the emitted resource of a service without endpoints
    holds no address list at all, so none that is [[name.namespace]]. *)
Lemma no_endpoints_no_address_list :
  let r := resolve_service [] "web.default"
             (mk_svc [mk_port PNone PNone (PInt 80)]) in
  r_endpoints r = []
  /\ ~ (exists src_port l,
          aget (r_endpoints r) src_port = Some l
          /\ map e_ip l = [PStr "web.default"]).
Proof.
  cbv zeta. split; [reflexivity|].
  intros (src_port & l & H & _). discriminate H.
Qed.

(** ** The Endpoints decoder: addresses *)

Lemma is_none_false a : is_none a = false <-> a <> PNone.
Proof. destruct a; simpl; split; congruence. Qed.

Lemma addr_nonempty_iff raw :
  addr_nonempty (make_addr raw) = true <-> carries_something raw.
Proof.
  unfold addr_nonempty, carries_something, make_addr. simpl.
  rewrite negb_true_iff. repeat rewrite andb_false_iff.
  repeat rewrite is_none_false.
  destruct (ra_targetRef raw) as [r|]; split.
  - intros [[[[H|H]|H]|H]|H]; eauto 10.
  - intros [H|[H|(r' & E & H)]]; [tauto|tauto|].
    injection E as <-. tauto.
  - intros [[[[H|H]|H]|H]|H]; tauto.
  - intros [H|[H|(r' & E & H)]]; [tauto|tauto|discriminate].
Qed.

Lemma collect_addresses_filter l :
  collect_addresses l
  = map make_addr (filter (fun raw => addr_nonempty (make_addr raw)) l).
Proof.
  induction l as [|raw l IH]; simpl; [reflexivity|].
  destruct (addr_nonempty (make_addr raw)); simpl; congruence.
Qed.

Lemma store_subsets_no_addresses ident name namespace subsets :
  forall tbl,
    (forall s, In s subsets -> collect_addresses (ss_addresses s) = []) ->
    store_subsets ident name namespace subsets tbl = tbl.
Proof.
  induction subsets as [|s subsets IH]; intros tbl H; simpl; [reflexivity|].
  unfold subset_entry. rewrite (H s (or_introl eq_refl)).
  apply IH. intros s' Hs'. apply H. right. exact Hs'.
Qed.

(** C4, as the code has it: the decoder collects the addresses that carry
    at least one of an IP, a node name or a target-reference field (an IP is
    not required); a subset none of whose addresses is collected is skipped
    and writes no entry, ports or not. *)
Theorem endpoints_addresses_collected :
  (forall raw, addr_nonempty (make_addr raw) = true <-> carries_something raw)
  /\ (forall l addr,
        In addr (collect_addresses l)
        <-> exists raw, In raw l /\ carries_something raw /\ addr = make_addr raw)
  /\ (forall ident name namespace s rest tbl,
        collect_addresses (ss_addresses s) = [] ->
        subset_entry name namespace s = None
        /\ store_subsets ident name namespace (s :: rest) tbl
           = store_subsets ident name namespace rest tbl)
  /\ (forall cfg k8s_object tbl,
        (forall s, In s (ko_subsets k8s_object) ->
                   collect_addresses (ss_addresses s) = []) ->
        endpoints_table cfg k8s_object tbl = tbl).
Proof.
  split; [exact addr_nonempty_iff|]. split; [|split].
  - intros l addr. rewrite collect_addresses_filter, in_map_iff. split.
    + intros (raw & <- & Hin). apply filter_In in Hin. destruct Hin as [Hin Hne].
      exists raw. rewrite <- addr_nonempty_iff. auto.
    + intros (raw & Hin & Hc & ->). exists raw. split; [reflexivity|].
      apply filter_In. rewrite addr_nonempty_iff. auto.
  - intros ident name namespace s rest tbl H.
    assert (E : subset_entry name namespace s = None).
    { unfold subset_entry. rewrite H. reflexivity. }
    split; [exact E|]. simpl. rewrite E. reflexivity.
  - intros cfg obj tbl H. unfold endpoints_table.
    destruct (negb (enable_endpoints cfg)); [reflexivity|].
    destruct (_ || _ || _); [reflexivity|].
    apply store_subsets_no_addresses. exact H.
Qed.

(** C4 as stated fails: an address with a node name and no IP is collected,
    and its subset writes an entry none of whose addresses has an IP. *)
Lemma address_without_ip_collected :
  let s := {| ss_addresses := [node_only_address];
              ss_ports := [tcp_port PNone 8080] |} in
  a_ip (make_addr node_only_address) = PNone
  /\ collect_addresses (ss_addresses s) = [make_addr node_only_address]
  /\ endpoints_table sample_config (endpoints_object "web" [s]) []
     = [("web.default",
         {| ep_name := PStr "web"; ep_namespace := PStr "default";
            ep_addresses := [make_addr node_only_address];
            ep_ports := [(PStr "8080", PInt 8080)] |})].
Proof. cbv zeta. repeat split. Qed.

(** ** The Endpoints decoder: the port map *)

Lemma build_port_dict_tcp ports :
  forall port_dict,
    build_port_dict ports port_dict
    = build_port_dict (filter is_tcp ports) port_dict.
Proof.
  induction ports as [|p ports IH]; intros d; simpl; [reflexivity|].
  unfold is_tcp at 1.
  destruct (String.eqb _ "TCP") eqn:E; simpl.
  - rewrite E. simpl. destruct (is_none (rp_port p)); apply IH.
  - apply IH.
Qed.

(** A subset whose only TCP port has a name that is not its number written
    out gets a two-entry port map. *)
Lemma named_port_dict ports p :
  filter is_tcp ports = [p] ->
  rp_port p <> PNone ->
  truthy (rp_name p) = true ->
  rp_name p <> PStr (py_str (rp_port p)) ->
  build_port_dict ports []
  = [(PStr (py_str (rp_port p)), rp_port p); (rp_name p, rp_port p)].
Proof.
  intros Hf Hn Ht Hne. rewrite build_port_dict_tcp, Hf. simpl.
  assert (E : is_tcp p = true).
  { assert (Hin : In p (filter is_tcp ports)) by (rewrite Hf; left; reflexivity).
    apply filter_In in Hin. tauto. }
  unfold is_tcp in E. rewrite E. simpl.
  apply is_none_false in Hn. rewrite Hn, Ht. simpl.
  destruct (atom_eq_dec (rp_name p) (PStr (py_str (rp_port p))));
    [contradiction | reflexivity].
Qed.

Lemma first_digit_only_is_attr port attrs f :
  first_digit_only port attrs = Some f ->
  exists a, In a attrs /\ attr_present port a = true /\ f = port_get port a.
Proof.
  induction attrs as [|a attrs IH]; simpl; [discriminate|].
  destruct (attr_present port a) eqn:E; simpl.
  - destruct (isdigit (py_str (port_get port a))).
    + intros H. injection H as <-. eauto.
    + intros H. destruct (IH H) as (b & Hb & Hp & ->). eauto.
  - intros H. destruct (IH H) as (b & Hb & Hp & ->). eauto.
Qed.

(** The fallback is the value of an attribute that is set. *)
Lemma numeric_fallback_is_attr port :
  truthy (sp_port port) = true ->
  exists a, attr_present port a = true /\ numeric_fallback port = port_get port a.
Proof.
  intros Ht. unfold numeric_fallback.
  destruct (first_digit_only port priority) as [f|] eqn:E.
  - destruct (first_digit_only_is_attr _ _ E) as (a & _ & Hp & ->). eauto.
  - exists Port. auto.
Qed.

Lemma first_truthy_lookup_miss k8s_ep_ports port attrs :
  (forall a, attr_present port a = true ->
             aget k8s_ep_ports (PStr (py_str (port_get port a))) = None) ->
  first_truthy_lookup k8s_ep_ports port attrs = None.
Proof.
  intros H. induction attrs as [|a attrs IH]; simpl; [reflexivity|].
  destruct (truthy (port_get port a)) eqn:E; simpl; [|exact IH].
  unfold ports_lookup. rewrite (H a E). simpl. exact IH.
Qed.

(** C10, as the code has it: a subset with a surviving address whose only
    TCP port has a number and a name other than that number written out is
    stored with a two-entry port map, the number as a string and the name,
    both bound to the number, and that is the entry the decoder leaves in
    [k8s_endpoints] for an Endpoints object with this one subset; the
    single-entry shortcut then does not apply, and a port spec that carries
    a port number and matches neither key on any attribute it sets resolves
    to its first digit-only attribute value ([str.isdigit]), or failing
    that to its own port number, which is not the endpoint's target
    port. *)
Theorem named_endpoint_port_two_entries :
  forall (name namespace : atom) (s : subset) (p : raw_port)
         (idx : Z) (port : port_spec),
    collect_addresses (ss_addresses s) <> [] ->
    filter is_tcp (ss_ports s) = [p] ->
    rp_port p <> PNone ->
    truthy (rp_name p) = true ->
    rp_name p <> PStr (py_str (rp_port p)) ->
    truthy (sp_port port) = true ->
    matches_neither port p ->
    let port_dict :=
      [(PStr (py_str (rp_port p)), rp_port p); (rp_name p, rp_port p)] in
    let entry :=
      {| ep_name := name; ep_namespace := namespace;
         ep_addresses := collect_addresses (ss_addresses s);
         ep_ports := port_dict |} in
    subset_entry name namespace s = Some entry
    /\ resolve_port port_dict idx port
       = Resolved (sp_port port) (numeric_fallback port)
    /\ numeric_fallback port <> rp_port p
    /\ (forall (cfg : config) (k8s_object : k8s_object)
               (tbl : sdict ep_entry),
          enable_endpoints cfg = true ->
          ko_metadata k8s_object <> None ->
          resource_name_of (ko_metadata k8s_object) = name ->
          resource_namespace_of (ko_metadata k8s_object) = namespace ->
          truthy name = true ->
          ko_subsets k8s_object = [s] ->
          sget (endpoints_table cfg k8s_object tbl)
            (resource_identifier name namespace)
          = Some entry).
Proof.
  intros name namespace s p idx port Haddr Hf Hn Ht Hne Hsrc Hmiss port_dict
    entry.
  assert (Hentry : subset_entry name namespace s = Some entry).
  { unfold subset_entry. subst entry port_dict.
    destruct (collect_addresses (ss_addresses s)) as [|a l]; [congruence|].
    rewrite (named_port_dict _ Hf Hn Ht Hne). reflexivity. }
  split; [exact Hentry|]. split; [|split].
  - rewrite resolve_port_scan; [|exact Hsrc|reflexivity].
    rewrite first_truthy_lookup_miss; [reflexivity|].
    intros a Ha. destruct (Hmiss a Ha) as [H1 H2]. subst port_dict.
    unfold aget. cbn [Dict.get].
    destruct (atom_eq_dec (PStr (py_str (port_get port a)))
                (PStr (py_str (rp_port p)))) as [E|_];
      [injection E as E; contradiction|].
    destruct (atom_eq_dec (PStr (py_str (port_get port a))) (rp_name p))
      as [E|_]; [contradiction|reflexivity].
  - destruct (numeric_fallback_is_attr port Hsrc) as (a & Ha & ->).
    intros E. destruct (Hmiss a Ha) as [_ H2]. apply H2. rewrite E. reflexivity.
  - intros cfg obj tbl Hen Hmd Hname Hns Htn Hsub.
    unfold endpoints_table. rewrite Hen. cbn [negb]. cbv zeta.
    rewrite Hname, Hns, Hsub, Htn.
    destruct (ko_metadata obj); [|congruence]. cbn [negb orb].
    cbn [store_subsets]. rewrite Hentry.
    unfold sget, sset. apply get_set_same.
Qed.

Lemma named_endpoint_port_two_entries_example :
  let s := {| ss_addresses := [raw_ip "10.0.0.1"];
              ss_ports := [tcp_port (PStr "http") 8080] |} in
  let port := mk_port (PInt 9090) (PStr "web") (PInt 80) in
  let entry :=
    mk_ep [make_addr (raw_ip "10.0.0.1")]
          [(PStr "8080", PInt 8080); (PStr "http", PInt 8080)] in
  subset_entry (PStr "web") (PStr "default") s = Some entry
  /\ resolve_port [(PStr "8080", PInt 8080); (PStr "http", PInt 8080)] 0 port
     = Resolved (PInt 80) (PInt 9090)
  /\ PInt 9090 <> PInt 8080
  /\ sget (endpoints_table sample_config (endpoints_object "web" [s]) [])
       "web.default"
     = Some entry.
Proof.
  cbv zeta.
  destruct (@named_endpoint_port_two_entries (PStr "web") (PStr "default")
              {| ss_addresses := [raw_ip "10.0.0.1"];
                 ss_ports := [tcp_port (PStr "http") 8080] |}
              (tcp_port (PStr "http") 8080) 0
              (mk_port (PInt 9090) (PStr "web") (PInt 80)))
    as (H1 & H2 & H3 & H4).
  - discriminate.
  - reflexivity.
  - discriminate.
  - reflexivity.
  - discriminate.
  - reflexivity.
  - intros [ | | ] _; split; discriminate.
  - split; [exact H1|]. split; [exact H2|]. split; [exact H3|].
    apply (H4 sample_config
              (endpoints_object "web"
                 [ {| ss_addresses := [raw_ip "10.0.0.1"];
                      ss_ports := [tcp_port (PStr "http") 8080] |} ])
              []); first [reflexivity | discriminate].
Defined.

(** C10 as stated fails twice.  A port named by its own number gives a
    one-entry port map, and a port spec that matches nothing then goes to
    the endpoint's target port by the shortcut; and with a two-entry map, a
    port spec that matches nothing and has no port number is skipped. *)
Lemma named_endpoint_port_exceptions :
  let s := {| ss_addresses := [raw_ip "10.0.0.1"];
              ss_ports := [tcp_port (PStr "8080") 8080] |} in
  (truthy (rp_name (tcp_port (PStr "8080") 8080)) = true
   /\ subset_entry (PStr "web") (PStr "default") s
      = Some (mk_ep [make_addr (raw_ip "10.0.0.1")] [(PStr "8080", PInt 8080)])
   /\ resolve_port [(PStr "8080", PInt 8080)] 0
        (mk_port (PInt 9090) (PStr "web") (PInt 80))
      = Resolved (PInt 80) (PInt 8080))
  /\ resolve_port [(PStr "8080", PInt 8080); (PStr "http", PInt 8080)] 0
       (mk_port (PInt 9090) (PStr "web") PNone)
     = Skipped (NoPortNumber 0).
Proof. cbv zeta. repeat split. Qed.

(** ** The Consul decoder *)

Lemma consul_endpoints_bucket endpoints :
  forall l,
    consul_endpoints endpoints [(PStr "*", l)]
    = if existsb skipped_without_id endpoints
      then inl (KeyError "ID")
      else inr [(PStr "*", l ++ consul_survivors endpoints)].
Proof.
  induction endpoints as [|ep eps IH]; intros l; simpl.
  - rewrite app_nil_r. reflexivity.
  - unfold consul_survivors, skipped_without_id, has_address_and_port.
    simpl.
    destruct (truthy (ce_Address ep)); simpl.
    + destruct (truthy (ce_Port ep)); simpl.
      * unfold setdefault_append. simpl. rewrite IH.
        rewrite <- app_assoc. reflexivity.
      * destruct (ce_ID ep); [apply IH | reflexivity].
    + destruct (ce_ID ep); [apply IH | reflexivity].
Qed.

Lemma consul_endpoints_from_empty endpoints :
  consul_endpoints endpoints []
  = if existsb skipped_without_id endpoints
    then inl (KeyError "ID")
    else inr match consul_survivors endpoints with
             | [] => []
             | l => [(PStr "*", l)]
             end.
Proof.
  induction endpoints as [|ep eps IH]; simpl; [reflexivity|].
  unfold consul_survivors, skipped_without_id, has_address_and_port in *.
  simpl.
  destruct (truthy (ce_Address ep)); simpl;
    [|destruct (ce_ID ep); [exact IH | reflexivity]].
  destruct (truthy (ce_Port ep)); simpl;
    [|destruct (ce_ID ep); [exact IH | reflexivity]].
  unfold setdefault_append. simpl.
  rewrite consul_endpoints_bucket. reflexivity.
Qed.

Lemma skipped_without_id_none endpoints :
  (forall ep, In ep endpoints ->
     has_address_and_port ep = false -> ce_ID ep <> None) ->
  existsb skipped_without_id endpoints = false.
Proof.
  intros H. destruct (existsb skipped_without_id endpoints) eqn:E;
    [|reflexivity].
  apply existsb_exists in E. destruct E as [ep [Hin Hs]].
  unfold skipped_without_id in Hs. apply andb_true_iff in Hs.
  destruct Hs as [Hb Hid]. apply negb_true_iff in Hb.
  specialize (H ep Hin Hb). destruct (ce_ID ep); [discriminate | congruence].
Qed.

Lemma skipped_without_id_some endpoints ep :
  In ep endpoints -> has_address_and_port ep = false -> ce_ID ep = None ->
  existsb skipped_without_id endpoints = true.
Proof.
  intros Hin Hb Hid. apply existsb_exists. exists ep. split; [exact Hin|].
  unfold skipped_without_id. rewrite Hb, Hid. reflexivity.
Qed.

(** ** Replaying a sequence of writes *)

Lemma written_keys_present ws :
  forall d k,
    In k (Dict.keys d) \/ In k (map fst ws) ->
    In k (Dict.keys (apply_writes ws d)).
Proof.
  induction ws as [|[k' v] ws IH]; intros d k H; simpl in *.
  - destruct H as [H|[]]. exact H.
  - apply IH. destruct H as [H|[<-|H]].
    + left. apply in_keys_set. exact H.
    + left. eapply get_in_keys. apply get_set_same.
    + right. exact H.
Qed.

Lemma aset_aset_same (d : adict value) k v v' :
  aset (aset d k v) k v' = aset d k v'.
Proof.
  unfold aset. induction d as [|[k0 v0] d IH]; simpl.
  - destruct (atom_eq_dec k k); [reflexivity | congruence].
  - destruct (atom_eq_dec k k0) as [->|Hne]; simpl.
    + destruct (atom_eq_dec k0 k0); [reflexivity | congruence].
    + destruct (atom_eq_dec k k0); [congruence|]. rewrite IH. reflexivity.
Qed.

(** Writes to two different keys commute when the second key is there. *)
Lemma aset_aset_other (d : adict value) k v k1 v1 :
  k <> k1 -> In k1 (Dict.keys d) ->
  aset (aset d k v) k1 v1 = aset (aset d k1 v1) k v.
Proof.
  unfold aset. intros Hne. induction d as [|[k0 v0] d IH]; simpl; [tauto|].
  intros Hin.
  destruct (atom_eq_dec k k0) as [->|Hk]; destruct (atom_eq_dec k1 k0) as [->|Hk1];
    simpl.
  - congruence.
  - destruct (atom_eq_dec k1 k0); [congruence|].
    destruct (atom_eq_dec k0 k0); [reflexivity | congruence].
  - destruct (atom_eq_dec k0 k0); [|congruence].
    destruct (atom_eq_dec k k0); [congruence | reflexivity].
  - destruct (atom_eq_dec k1 k0); [congruence|].
    destruct (atom_eq_dec k k0); [congruence|].
    rewrite IH; [reflexivity|]. destruct Hin as [E|Hin]; [congruence | exact Hin].
Qed.

(** A write is forgotten once the same key is written again, if the writes
    in between create no key. *)
Lemma apply_writes_overwritten ws :
  forall d k v v',
    (forall k', In k' (map fst ws) -> In k' (Dict.keys d)) ->
    aset (apply_writes ws (aset d k v)) k v'
    = aset (apply_writes ws d) k v'.
Proof.
  induction ws as [|[k1 v1] ws IH]; intros d k v v' H; simpl in *.
  - apply aset_aset_same.
  - destruct (atom_eq_dec k k1) as [->|Hne].
    + rewrite aset_aset_same. reflexivity.
    + rewrite aset_aset_other by auto.
      apply IH. intros k' Hk'. apply in_keys_set. auto.
Qed.

(** Replaying the writes on their own result changes nothing. *)
Lemma apply_writes_twice ws :
  forall d, apply_writes ws (apply_writes ws d) = apply_writes ws d.
Proof.
  induction ws as [|[k v] ws IH] using rev_ind; intros d; [reflexivity|].
  assert (Hsnoc : forall ws' k' v' e,
             apply_writes (ws' ++ [(k', v')]) e = aset (apply_writes ws' e) k' v').
  { clear. induction ws' as [|[k0 v0] ws' IH]; intros; simpl; [reflexivity|].
    apply IH. }
  rewrite !Hsnoc. rewrite apply_writes_overwritten.
  - rewrite IH. reflexivity.
  - intros k' Hk'. apply written_keys_present. right. exact Hk'.
Qed.

Section FetcherFacts.

Variable ACResource : Type.
Variable from_dict : atom -> atom -> string -> value -> construction ACResource.
Variable dump_yaml : value -> string.
Variable good_ambassador_id : value -> bool.
Variable parse_yaml_text : string -> option (list value).
Variable py_repr : value -> string.
Variable Config : config.

(** C9 does not hold of the code.  The decoder means to leave out an
    endpoint without an address or a port and go on, but the message it
    logs for it is built from [ep['ID']]: when such an endpoint has no [ID]
    key the handler raises KeyError, and nothing is stored for the entry,
    whatever its other endpoints; the state is as it was before the
    call. *)
Theorem consul_endpoint_without_id_aborts_entry :
  forall (consul_rkey : string) (o : consul_object) (s : fetcher ACResource)
         (ep : consul_endpoint),
    In ep (co_Endpoints o) ->
    has_address_and_port ep = false ->
    ce_ID ep = None ->
    handle_consul_service Config consul_rkey o s = Raise (KeyError "ID") s.
Proof.
  intros rkey o s ep Hin Hskip Hid.
  assert (Hlen : (List.length (co_Endpoints o) <? 1)%nat = false).
  { destruct (co_Endpoints o); [destruct Hin | reflexivity]. }
  unfold handle_consul_service, consul_service. rewrite Hlen.
  rewrite consul_endpoints_from_empty.
  rewrite (skipped_without_id_some _ _ Hin Hskip Hid). reflexivity.
Qed.

(** ** A batch of application resources *)

(** C5 does not hold of the code: a [kind: Service] object without a
    [name] makes [process_object] raise KeyError, which nothing in
    [parse_object] catches, so whatever follows it in the batch is never
    processed: the call ends with the tables and the error list as they
    were before this object. *)
Theorem nameless_service_aborts_batch :
  forall (rest : list value) (rkey : atom) (f : value) (s : fetcher ACResource),
    good_ambassador_id nameless_service = true ->
    exists s1,
      parse_object from_dict dump_yaml good_ambassador_id py_repr
        (nameless_service :: rest) rkey f s
      = Raise (KeyError "name") s1
      /\ elements s1 = elements s
      /\ services s1 = services s
      /\ errors s1 = errors s.
Proof.
  intros rest rkey f s Hgood.
  unfold parse_object, push_location, modify. cbn [for_each].
  unfold bind, process_object. fold nameless_service.
  rewrite Hgood. simpl.
  eexists. split; [reflexivity|]. simpl. auto.
Qed.

(** ** Decoding only appends to [elements] *)

Lemma grows_refl (s : fetcher ACResource) : grows s s.
Proof. exists []. unfold grows_by. rewrite app_nil_r. reflexivity. Qed.

Lemma grows_trans (s1 s2 s3 : fetcher ACResource) :
  grows s1 s2 -> grows s2 s3 -> grows s1 s3.
Proof.
  intros [l1 H1] [l2 H2]. exists (l1 ++ l2). unfold grows_by in *.
  rewrite H2, H1, app_assoc. reflexivity.
Qed.

Lemma grows_same (s s' : fetcher ACResource) :
  elements s' = elements s -> grows s s'.
Proof. intros H. exists []. unfold grows_by. rewrite app_nil_r. exact H. Qed.

Lemma appends_only_ret {A} (a : A) :
  appends_only (ret (ACResource := ACResource) a).
Proof. intros s. apply grows_refl. Qed.

Lemma appends_only_bind {A B} (m : M ACResource A) (k : A -> M ACResource B) :
  appends_only m -> (forall a, appends_only (k a)) -> appends_only (bind m k).
Proof.
  intros Hm Hk s. unfold bind. specialize (Hm s).
  destruct (m s) as [a s'|e s']; [|exact Hm].
  specialize (Hk a s'). destruct (k a s'); eapply grows_trans; eassumption.
Qed.

Lemma appends_only_modify (f : fetcher ACResource -> fetcher ACResource) :
  (forall s, elements (f s) = elements s) -> appends_only (modify f).
Proof. intros H s. apply grows_same. apply H. Qed.

Lemma appends_only_for_each {A} (body : A -> M ACResource unit) l :
  (forall x, appends_only (body x)) -> appends_only (for_each body l).
Proof.
  intros H. induction l as [|x l IH]; simpl.
  - apply appends_only_ret.
  - apply appends_only_bind; [apply H | intros _; exact IH].
Qed.

Lemma appends_only_ext {A} (m m' : M ACResource A) :
  (forall s, m s = m' s) -> appends_only m -> appends_only m'.
Proof. intros E H s. rewrite <- E. apply H. Qed.

Lemma appends_only_push f n : appends_only (push_location (ACResource := ACResource) f n).
Proof. apply appends_only_modify. reflexivity. Qed.

Lemma appends_only_pop : appends_only (pop_location (ACResource := ACResource)).
Proof.
  intros s. unfold pop_location. destruct (saved s) as [|[f n] rest].
  - apply grows_refl.
  - apply grows_same. reflexivity.
Qed.

(** One application resource adds at most one element, at the end. *)
Lemma process_object_appends obj rkey s :
  match process_object from_dict dump_yaml good_ambassador_id py_repr obj rkey s with
  | Ok _ s' | Raise _ s' =>
      exists l, grows_by s s' l /\ (List.length l <= 1)%nat
  end.
Proof.
  assert (Hsame : forall s', elements s' = elements s ->
                             exists l, grows_by s s' l /\ (List.length l <= 1)%nat).
  { intros s' H. exists []. unfold grows_by. rewrite app_nil_r. auto. }
  unfold process_object.
  destruct obj as [a|l|d].
  - destruct (negb (truthy_value (VAtom a))); [apply Hsame; reflexivity|].
    destruct (json_dumps_returns (VAtom a)); apply Hsame; reflexivity.
  - destruct (negb (truthy_value (VList l))); [apply Hsame; reflexivity|].
    destruct (json_dumps_returns (VList l)); apply Hsame; reflexivity.
  - destruct (negb (good_ambassador_id (VDict d))); [apply Hsame; reflexivity|].
    destruct (vget d "kind") as [kind|];
      [|destruct (json_dumps_returns (VDict d)); apply Hsame; reflexivity].
    destruct (value_is_str kind "Pragma"); [apply Hsame; reflexivity|].
    destruct (value_is_str kind "Service").
    + destruct (vget d "name") as [[name|?|?]|]; apply Hsame; reflexivity.
    + destruct (from_dict _ _ _ _) as [r|[|arg args]].
      * exists [r]. split; [reflexivity | simpl; lia].
      * apply Hsame; reflexivity.
      * apply Hsame; reflexivity.
Qed.

Lemma appends_only_process_object obj rkey :
  appends_only
    (process_object from_dict dump_yaml good_ambassador_id py_repr obj rkey).
Proof.
  intros s. pose proof (process_object_appends obj rkey s) as H.
  destruct (process_object _ _ _ _ _ _ s); destruct H as (l & H & _);
    exists l; exact H.
Qed.

Lemma appends_only_parse_object objects rkey f :
  appends_only
    (parse_object from_dict dump_yaml good_ambassador_id py_repr objects rkey f).
Proof.
  unfold parse_object.
  apply appends_only_bind; [apply appends_only_push|]. intros _.
  apply appends_only_bind; [|intros _; apply appends_only_pop].
  apply appends_only_for_each. intros obj.
  apply appends_only_bind; [apply appends_only_process_object|]. intros _.
  apply appends_only_modify. reflexivity.
Qed.

Lemma appends_only_handle_k8s_crd obj :
  appends_only
    (handle_k8s_crd from_dict dump_yaml good_ambassador_id py_repr obj).
Proof.
  intros s. unfold handle_k8s_crd.
  destruct (negb (truthy (ko_kind obj))); [apply grows_refl|].
  destruct (negb (truthy (resource_name_of (ko_metadata obj))));
    [apply grows_refl|].
  destruct (negb (truthy (ko_apiVersion obj))); [apply grows_refl|].
  apply appends_only_parse_object.
Qed.

Lemma appends_only_handle_k8s_service obj :
  appends_only
    (handle_k8s_service (ACResource := ACResource) parse_yaml_text Config obj).
Proof.
  intros s. unfold handle_k8s_service. cbv zeta.
  destruct (_ || _); [apply grows_refl|].
  set (s1 := match ko_ports obj with [] => s | _ => _ end).
  assert (H1 : elements s1 = elements s).
  { subst s1. destruct (ko_ports obj); reflexivity. }
  assert (Hfn : grows s s1) by (apply grows_same; exact H1).
  clearbody s1.
  destruct (match ko_metadata obj with Some m => md_config m | None => None end)
    as [text|]; [|exact Hfn].
  destruct (String.eqb text ""); [exact Hfn|].
  destruct (filename s1) as [[|z|fn]|l|d]; try exact Hfn.
  destruct (negb (endswith fn ":annotation")); [|exact Hfn].
  apply grows_same. exact H1.
Qed.

Lemma appends_only_handle_k8s_secret obj :
  appends_only (handle_k8s_secret (ACResource := ACResource) Config obj).
Proof.
  intros s. unfold handle_k8s_secret. cbv zeta.
  destruct (ko_data obj) as [data|]; [|apply grows_refl].
  destruct (_ || _); [apply grows_refl|].
  destruct (_ && _); apply grows_refl.
Qed.

Lemma appends_only_handle_k8s_endpoints obj :
  appends_only (handle_k8s_endpoints (ACResource := ACResource) Config obj).
Proof. intros s. apply grows_same. reflexivity. Qed.

Lemma appends_only_handle_consul_service rkey o :
  appends_only (handle_consul_service (ACResource := ACResource) Config rkey o).
Proof.
  intros s. unfold handle_consul_service.
  destruct (consul_service rkey o) as [e|[[key svc]|]];
    [apply grows_refl | apply grows_same; reflexivity | apply grows_refl].
Qed.

(** Fragments a handler returns are processed as application resources. *)
Lemma appends_only_fragments (result : option (string * list value)) :
  appends_only
    (match result with
     | Some (rkey, parsed_objects) =>
         fun s' : fetcher ACResource =>
           parse_object from_dict dump_yaml good_ambassador_id py_repr
             parsed_objects (PStr rkey) (filename s') s'
     | None => ret tt
     end).
Proof.
  destruct result as [[rkey objs]|]; [|apply appends_only_ret].
  intros s. apply appends_only_parse_object.
Qed.

Lemma appends_only_handle_k8s obj :
  appends_only
    (handle_k8s from_dict dump_yaml good_ambassador_id parse_yaml_text py_repr
       Config obj).
Proof.
  intros s. unfold handle_k8s.
  destruct (ko_kind obj) as [|z|kind]; [apply grows_refl| |].
  - destruct (z =? 0); apply grows_refl.
  - destruct (String.eqb kind ""); [apply grows_refl|]. cbv zeta.
    destruct (String.eqb (lower kind) "service").
    { apply appends_only_bind;
        [apply appends_only_handle_k8s_service|apply appends_only_fragments]. }
    destruct (String.eqb (lower kind) "endpoints").
    { apply appends_only_bind;
        [apply appends_only_handle_k8s_endpoints|apply appends_only_fragments]. }
    destruct (String.eqb (lower kind) "secret").
    { apply appends_only_bind;
        [apply appends_only_handle_k8s_secret|apply appends_only_fragments]. }
    destruct (String.eqb (lower kind) "crd");
      [apply appends_only_handle_k8s_crd | apply grows_refl].
Qed.

Lemma appends_only_decode_watt w :
  appends_only
    (decode_watt from_dict dump_yaml good_ambassador_id parse_yaml_text py_repr
       Config w).
Proof.
  unfold decode_watt.
  apply appends_only_bind.
  { apply appends_only_for_each. intros key. apply appends_only_for_each.
    apply appends_only_handle_k8s. }
  intros _. apply appends_only_bind.
  { apply appends_only_for_each. intros key. apply appends_only_for_each.
    apply appends_only_handle_k8s_crd. }
  intros _. apply appends_only_for_each. intros [rkey o].
  apply appends_only_bind;
    [apply appends_only_handle_consul_service | apply appends_only_fragments].
Qed.

(** ** The finalizer's two loops *)

Lemma emit_services_ok items :
  forall s rs,
    construct_all from_dict dump_yaml items = Built rs ->
    for_each (emit_service from_dict dump_yaml) items s
    = Ok tt (set_elements (elements s ++ rs) s).
Proof.
  induction items as [|[key svc] items IH]; intros s rs H; simpl in *.
  - injection H as <-. unfold ret, set_elements. rewrite app_nil_r.
    destruct s; reflexivity.
  - unfold bind, emit_service.
    destruct (from_dict key key (dump_yaml svc) svc) as [r|args];
      [|discriminate].
    destruct (construct_all from_dict dump_yaml items) as [rs'|args]; [|discriminate].
    injection H as <-. rewrite (IH _ rs' eq_refl). simpl.
    rewrite <- app_assoc. reflexivity.
Qed.

Lemma emit_services_inv items :
  forall s s',
    for_each (emit_service from_dict dump_yaml) items s = Ok tt s' ->
    exists rs, construct_all from_dict dump_yaml items = Built rs.
Proof.
  induction items as [|[key svc] items IH]; intros s s' H; simpl in *.
  - eauto.
  - unfold bind, emit_service in H.
    destruct (from_dict key key (dump_yaml svc) svc) as [r|args];
      [|discriminate].
    destruct (IH _ _ H) as [rs ->]. eauto.
Qed.

Lemma resolve_services_writes eps items :
  forall svcs,
    resolve_services Config eps items svcs
    = apply_writes (service_writes Config eps items) svcs.
Proof.
  induction items as [|[key svc] items IH]; intros svcs; simpl;
    [reflexivity | apply IH].
Qed.

Lemma finalize_ok s s' :
  finalize from_dict dump_yaml Config s = Ok tt s' ->
  exists emitted,
    let svcs :=
      resolve_services Config (k8s_endpoints s) (Dict.items (k8s_services s))
        (services s) in
    construct_all from_dict dump_yaml (Dict.items svcs) = Built emitted
    /\ s' = set_elements (elements s ++ emitted) (set_services svcs s).
Proof.
  unfold finalize. cbv zeta. intros H.
  destruct (emit_services_inv _ _ H) as [rs Hrs].
  exists rs. split; [exact Hrs|].
  rewrite (emit_services_ok _ _ Hrs) in H. injection H as <-. reflexivity.
Qed.

(** ** Running the finalizer again *)

(** C8: when [finalize] has run, a second run on the state it left makes
    the same writes to [services], which leave the table as it is, reads
    the same side tables and builds the same resources from the same
    entries in the same order (it appends them to [elements] once more). *)
Theorem finalize_again_same_services :
  forall (s s1 : fetcher ACResource),
    finalize from_dict dump_yaml Config s = Ok tt s1 ->
    exists emitted s2,
      elements s1 = elements s ++ emitted
      /\ construct_all from_dict dump_yaml (Dict.items (services s1)) = Built emitted
      /\ finalize from_dict dump_yaml Config s1 = Ok tt s2
      /\ services s2 = services s1
      /\ k8s_services s2 = k8s_services s
      /\ k8s_endpoints s2 = k8s_endpoints s
      /\ construct_all from_dict dump_yaml (Dict.items (services s2)) = Built emitted
      /\ elements s2 = elements s1 ++ emitted.
Proof.
  intros s s1 H.
  destruct (finalize_ok _ H) as [emitted [Hc ->]].
  set (svcs := resolve_services Config (k8s_endpoints s)
                 (Dict.items (k8s_services s)) (services s)) in *.
  assert (Hidem : resolve_services Config (k8s_endpoints s)
                    (Dict.items (k8s_services s)) svcs = svcs).
  { subst svcs. rewrite !resolve_services_writes.
    apply apply_writes_twice. }
  exists emitted.
  eexists. split; [reflexivity|]. split; [exact Hc|].
  split.
  - unfold finalize. simpl. rewrite Hidem.
    apply emit_services_ok. exact Hc.
  - simpl. repeat split. exact Hc.
Qed.

End FetcherFacts.

(** ** Worked examples on a concrete fetcher *)

(** An entry with a usable endpoint and one that has neither address nor
    ID: the call raises and the services table stays empty. *)
Lemma consul_endpoint_without_id_example :
  handle_consul_service sample_config "db" entry_with_bare_endpoint
    sample_init
  = Raise (KeyError "ID") sample_init.
Proof.
  apply (@consul_endpoint_without_id_aborts_entry sample_resource
           sample_config "db" entry_with_bare_endpoint sample_init
           {| ce_ID := None; ce_Address := PNone; ce_Port := PInt 9000 |}).
  - right. left. reflexivity.
  - reflexivity.
  - reflexivity.
Defined.

(** A nameless Service first in a batch: the Mapping after it is lost. *)
Lemma nameless_service_aborts_batch_example :
  exists s1,
    parse_object sample_from_dict sample_dump_yaml sample_good_id sample_repr
      [nameless_service; some_mapping] PNone (VS "demo.yaml") sample_init
    = Raise (KeyError "name") s1
    /\ elements s1 = []
    /\ services s1 = []
    /\ errors s1 = [].
Proof.
  exact (nameless_service_aborts_batch sample_from_dict sample_dump_yaml
           sample_good_id sample_repr [some_mapping] PNone (VS "demo.yaml")
           sample_init eq_refl).
Defined.

(** The same Mapping on its own becomes a resource. *)
Lemma mapping_alone_is_stored :
  exists s1,
    parse_object sample_from_dict sample_dump_yaml sample_good_id sample_repr
      [some_mapping] PNone (VS "demo.yaml") sample_init
    = Ok tt s1
    /\ elements s1 = [(PStr "demo.yaml.1", some_mapping)].
Proof. eexists. split; reflexivity. Qed.

(** C7 as stated fails.  In a snapshot the Kubernetes objects are decoded
    before the Consul entries: after them the Service [web] is staged and
    [services] is still empty.  Yet the resource of the Consul entry comes
    out before the resource of that Service. *)
Lemma consul_resource_precedes_earlier_service :
  exists s1 s',
    for_each
      (fun key =>
         for_each
           (handle_k8s sample_from_dict sample_dump_yaml sample_good_id
              sample_parse_yaml sample_repr sample_config)
           (watt_objects service_then_consul key))
      watt_k8s_kinds sample_init
    = Ok tt s1
    /\ Dict.keys (k8s_services s1) = ["web.default"]
    /\ services s1 = []
    /\ parse_watt sample_from_dict sample_dump_yaml sample_good_id
         sample_parse_yaml sample_repr sample_config false false
         (Some service_then_consul) true sample_init
       = Ok tt s'
    /\ map fst (elements s') = [PStr "consul-db-dc2"; PStr "k8s-web-default"].
Proof.
  eexists. eexists.
  split; [reflexivity|]. split; [reflexivity|]. split; [reflexivity|].
  split; reflexivity.
Qed.

Lemma finalize_again_example :
  exists emitted s2,
    elements finalized_state = elements staged_state ++ emitted
    /\ construct_all sample_from_dict sample_dump_yaml
         (Dict.items (services finalized_state)) = Built emitted
    /\ finalize sample_from_dict sample_dump_yaml sample_config finalized_state
       = Ok tt s2
    /\ services s2 = services finalized_state
    /\ k8s_services s2 = k8s_services staged_state
    /\ k8s_endpoints s2 = k8s_endpoints staged_state
    /\ construct_all sample_from_dict sample_dump_yaml (Dict.items (services s2))
       = Built emitted
    /\ elements s2 = elements finalized_state ++ emitted.
Proof.
  exact (@finalize_again_same_services _ sample_from_dict sample_dump_yaml
           sample_config staged_state finalized_state eq_refl).
Defined.

(** The resolved service of the example: port 80 goes to 8080 by its
    targetPort, port 443 matches nothing and keeps its own number. *)
Lemma finalized_state_services :
  Dict.keys (services finalized_state) = [PStr "k8s-web-default"]
  /\ r_endpoints
       (resolve_service named_port_endpoints "web.default"
          (mk_svc [mk_port (PStr "http") PNone (PInt 80);
                   mk_port PNone PNone (PInt 443)]))
     = [(PInt 80, [ {| e_ip := PStr "10.0.0.1"; e_port := PInt 8080 |} ]);
        (PInt 443, [ {| e_ip := PStr "10.0.0.1"; e_port := PInt 443 |} ])].
Proof. split; reflexivity. Qed.

(** * Further properties *)

(** ** The resolved endpoints map *)

Lemma resolve_port_resolved_source k8s_ep_ports idx port src t :
  resolve_port k8s_ep_ports idx port = Resolved src t ->
  src = sp_port port /\ truthy src = true.
Proof.
  intros H. destruct (truthy (sp_port port)) eqn:Ht.
  - destruct (resolve_port_with_number k8s_ep_ports idx port Ht) as [t' Hr].
    rewrite Hr in H. injection H as <- _. auto.
  - rewrite (resolve_port_no_number k8s_ep_ports idx port Ht) in H.
    discriminate.
Qed.

Lemma target_addrs_not_empty k8s_endpoints key k8s_svc :
  r_target_addrs (resolve_service k8s_endpoints key k8s_svc) <> [].
Proof.
  unfold resolve_service.
  destruct (resolve_targets (sget k8s_endpoints key) k8s_svc) as [[tp addrs] log].
  destruct addrs; simpl; discriminate.
Qed.

Lemma resolve_service_no_ports k8s_endpoints key k8s_svc :
  sget k8s_endpoints key = None
  \/ (exists ep, sget k8s_endpoints key = Some ep /\ ep_ports ep = []) ->
  r_endpoints (resolve_service k8s_endpoints key k8s_svc) = [].
Proof.
  intros H. unfold resolve_service.
  assert (Ht : resolve_targets (sget k8s_endpoints key) k8s_svc = ([], [], [])).
  { destruct H as [->|(ep & -> & Hp)]; simpl; [reflexivity|].
    rewrite Hp. reflexivity. }
  rewrite Ht. reflexivity.
Qed.

(** X1: every key of the endpoints map the finalizer emits for a service is
    the non-zero port number of one of the service's port specs, and it is
    bound to a non-empty list: one endpoint per target address, all at the
    same target port. *)
Theorem resolved_endpoints_well_formed :
  forall (k8s_endpoints : sdict ep_entry) (key : string) (k8s_svc : svc_entry)
         (src_port : atom) (l : list endpoint),
    aget (r_endpoints (resolve_service k8s_endpoints key k8s_svc)) src_port
    = Some l ->
    truthy src_port = true
    /\ (exists port, In port (svc_ports k8s_svc) /\ sp_port port = src_port)
    /\ l <> []
    /\ exists target,
         l = endpoints_for
               (r_target_addrs (resolve_service k8s_endpoints key k8s_svc))
               target.
Proof.
  intros eps key svc src l H.
  destruct (sget eps key) as [ep|] eqn:Hep.
  - destruct (ep_ports ep) as [|kv rest] eqn:Hp.
    + rewrite resolve_service_no_ports in H; [discriminate|].
      right. exists ep. auto.
    + destruct (resolve_service_with_ports eps key svc Hep) as [Hr _].
      { rewrite Hp. discriminate. }
      rewrite Hr, aget_map_endpoints in H.
      destruct (aget (fst (resolve_ports (ep_ports ep) (-1) (svc_ports svc) [] []))
                     src) as [t|] eqn:Hget; [|discriminate].
      injection H as <-.
      apply resolve_ports_binding in Hget.
      destruct Hget as [Hnil|(port & i & Hin & Hp')]; [discriminate|].
      destruct (resolve_port_resolved_source _ _ _ Hp') as [-> Ht].
      split; [exact Ht|]. split; [eauto|]. split; [|eauto].
      pose proof (target_addrs_not_empty eps key svc) as Hne.
      destruct (r_target_addrs (resolve_service eps key svc));
        [congruence | discriminate].
  - rewrite resolve_service_no_ports in H; [discriminate|].
    left. exact Hep.
Qed.

Lemma resolved_endpoints_well_formed_example :
  truthy (PInt 80) = true
  /\ (exists port,
        In port [mk_port (PStr "http") PNone (PInt 80);
                 mk_port PNone PNone (PInt 443)]
        /\ sp_port port = PInt 80)
  /\ [ {| e_ip := PStr "10.0.0.1"; e_port := PInt 8080 |} ] <> []
  /\ exists target,
       [ {| e_ip := PStr "10.0.0.1"; e_port := PInt 8080 |} ]
       = endpoints_for [PStr "10.0.0.1"] target.
Proof.
  exact (@resolved_endpoints_well_formed named_port_endpoints "web.default"
           (mk_svc [mk_port (PStr "http") PNone (PInt 80);
                    mk_port PNone PNone (PInt 443)])
           (PInt 80) [ {| e_ip := PStr "10.0.0.1"; e_port := PInt 8080 |} ]
           eq_refl).
Defined.

(** ** Endpoints without a usable address *)

(** X2: when the endpoint entry of a service has ports but none of its
    addresses has an IP, every port the finalizer maps gets the single
    pseudo-endpoint whose address is the service's [name.namespace] key. *)
Theorem addresses_without_ip_route_by_name :
  forall (k8s_endpoints : sdict ep_entry) (key : string) (k8s_svc : svc_entry)
         (ep : ep_entry) (src_port : atom) (l : list endpoint),
    sget k8s_endpoints key = Some ep ->
    collect_ips (ep_addresses ep) = [] ->
    aget (r_endpoints (resolve_service k8s_endpoints key k8s_svc)) src_port
    = Some l ->
    exists target, l = [ {| e_ip := PStr key; e_port := target |} ].
Proof.
  intros eps key svc ep src l Hep Hips H.
  destruct (ep_ports ep) as [|kv rest] eqn:Hp.
  - rewrite resolve_service_no_ports in H; [discriminate|].
    right. exists ep. auto.
  - destruct (resolve_service_with_ports eps key svc Hep) as [Hr Ha].
    { rewrite Hp. discriminate. }
    rewrite Hips in Ha. rewrite Hr, aget_map_endpoints, Ha in H.
    destruct (aget _ src) as [t|]; [|discriminate].
    injection H as <-. exists t. reflexivity.
Qed.

Lemma addresses_without_ip_route_by_name_example :
  exists target,
    [ {| e_ip := PStr "web.default"; e_port := PInt 8080 |} ]
    = [ {| e_ip := PStr "web.default"; e_port := target |} ].
Proof.
  exact (@addresses_without_ip_route_by_name node_only_endpoints "web.default"
           (mk_svc [mk_port PNone PNone (PInt 80)])
           (mk_ep [make_addr node_only_address] [(PStr "8080", PInt 8080)])
           (PInt 80) [ {| e_ip := PStr "web.default"; e_port := PInt 8080 |} ]
           eq_refl eq_refl eq_refl).
Defined.

(** ** Targets chosen by the attribute scan *)

(** X3: when the endpoint port map does not have exactly one entry, the
    target a port spec resolves to is never None, zero or empty: it is a
    usable lookup result, a digit-only attribute value, or the port number
    itself. *)
Theorem scanned_target_is_set :
  forall (k8s_ep_ports : adict atom) (idx : Z) (port : port_spec)
         (src_port target : atom),
    List.length k8s_ep_ports <> 1%nat ->
    resolve_port k8s_ep_ports idx port = Resolved src_port target ->
    truthy target = true.
Proof.
  intros ep idx port src t Hlen H.
  destruct (resolve_port_resolved_source _ _ _ H) as [-> Ht].
  rewrite resolve_port_scan in H; [|exact Ht|apply Nat.eqb_neq; exact Hlen].
  destruct (first_truthy_lookup ep port priority) as [t'|] eqn:E.
  - assert (t = t') as -> by congruence.
    exact (first_truthy_lookup_truthy _ _ _ E).
  - destruct (numeric_fallback_is_attr port Ht) as (a & Ha & Hf).
    assert (t = port_get port a) as -> by congruence. exact Ha.
Qed.

Lemma scanned_target_is_set_example : truthy (PStr "9901") = true.
Proof.
  exact (@scanned_target_is_set
           [(PStr "8080", PInt 8080); (PStr "http", PInt 8080)] 1
           (mk_port (PStr "admin") (PStr "9901") (PInt 81))
           (PInt 81) (PStr "9901") ltac:(discriminate) eq_refl).
Defined.

(** With a one-entry port map the shortcut hands on whatever the entry
    holds, zero included. *)
Lemma single_entry_target_can_be_zero :
  resolve_port [(PStr "0", PInt 0)] 0 (mk_port PNone PNone (PInt 80))
  = Resolved (PInt 80) (PInt 0).
Proof. reflexivity. Qed.

(** ** From a decoded subset to a resolved port *)

Lemma first_truthy_lookup_head k8s_ep_ports port a rest t :
  truthy (port_get port a) = true ->
  aget k8s_ep_ports (PStr (py_str (port_get port a))) = Some t ->
  truthy t = true ->
  first_truthy_lookup k8s_ep_ports port (a :: rest) = Some t.
Proof.
  intros Ha Hget Ht. simpl. unfold ports_lookup. rewrite Ha, Hget, Ht.
  reflexivity.
Qed.

(** X4: a subset whose only TCP port has a non-zero number and a name other
    than that number written out serves a port spec that points at it: if
    the spec carries a port number and its targetPort is the port's name,
    or is the port's number, the spec resolves to the endpoint's port
    number, whatever the spec's own port number is. *)
Theorem named_endpoint_port_reached :
  forall (s : subset) (p : raw_port) (idx : Z) (port : port_spec),
    filter is_tcp (ss_ports s) = [p] ->
    truthy (rp_port p) = true ->
    truthy (rp_name p) = true ->
    rp_name p <> PStr (py_str (rp_port p)) ->
    truthy (sp_port port) = true ->
    truthy (sp_targetPort port) = true ->
    PStr (py_str (sp_targetPort port)) = rp_name p
    \/ py_str (sp_targetPort port) = py_str (rp_port p) ->
    resolve_port (build_port_dict (ss_ports s) []) idx port
    = Resolved (sp_port port) (rp_port p).
Proof.
  intros s p idx port Hf Hn Ht Hne Hsrc Htp Hmatch.
  assert (Hnone : rp_port p <> PNone).
  { intros E. rewrite E in Hn. discriminate. }
  rewrite (named_port_dict _ Hf Hnone Ht Hne).
  rewrite resolve_port_scan; [|exact Hsrc|reflexivity].
  unfold priority.
  rewrite (@first_truthy_lookup_head _ port TargetPort [Name; Port] (rp_port p));
    [reflexivity | exact Htp | | exact Hn].
  unfold aget. cbn [Dict.get port_get].
  destruct (atom_eq_dec (PStr (py_str (sp_targetPort port)))
              (PStr (py_str (rp_port p)))) as [_|Hk]; [reflexivity|].
  destruct (atom_eq_dec (PStr (py_str (sp_targetPort port))) (rp_name p))
    as [_|Hk']; [reflexivity|].
  destruct Hmatch as [E|E]; [contradiction | congruence].
Qed.

Lemma named_endpoint_port_reached_example :
  resolve_port
    (build_port_dict [tcp_port (PStr "http") 8080] []) 0
    (mk_port (PStr "http") PNone (PInt 80))
  = Resolved (PInt 80) (PInt 8080).
Proof.
  refine (@named_endpoint_port_reached
            {| ss_addresses := [raw_ip "10.0.0.1"];
               ss_ports := [tcp_port (PStr "http") 8080] |}
            (tcp_port (PStr "http") 8080) 0
            (mk_port (PStr "http") PNone (PInt 80))
            eq_refl eq_refl eq_refl _ eq_refl eq_refl (or_introl eq_refl)).
  discriminate.
Defined.

(** ** The Endpoints decoder: what reaches the side table *)

Lemma build_port_dict_keeps_keys ports :
  forall port_dict k,
    In k (Dict.keys port_dict) ->
    In k (Dict.keys (build_port_dict ports port_dict)).
Proof.
  induction ports as [|p ports IH]; intros d k H; simpl; [exact H|].
  destruct (negb (String.eqb _ "TCP")); [apply IH; exact H|].
  destruct (is_none (rp_port p)); [apply IH; exact H|].
  apply IH. destruct (truthy (rp_name p)).
  - apply in_keys_set. apply in_keys_set. exact H.
  - apply in_keys_set. exact H.
Qed.

Lemma build_port_dict_binding ports :
  forall port_dict k v,
    aget (build_port_dict ports port_dict) k = Some v ->
    aget port_dict k = Some v
    \/ exists p, In p ports /\ is_tcp p = true /\ rp_port p = v /\ v <> PNone
                 /\ (k = PStr (py_str v) \/ (k = rp_name p /\ truthy k = true)).
Proof.
  induction ports as [|p ports IH]; intros d k v H; simpl in H; [left; exact H|].
  assert (Hrest : forall d', aget (build_port_dict ports d') k = Some v ->
            aget d' k = Some v
            \/ exists p0, In p0 (p :: ports) /\ is_tcp p0 = true /\ rp_port p0 = v
                          /\ v <> PNone
                          /\ (k = PStr (py_str v)
                              \/ (k = rp_name p0 /\ truthy k = true))).
  { intros d' H'. destruct (IH _ _ _ H') as [Hd|(p0 & Hin & Hp0)];
      [left; exact Hd|]. right. exists p0. split; [right; exact Hin | exact Hp0]. }
  destruct (String.eqb (upper match rp_protocol p with
                              | Some proto => proto
                              | None => "TCP"
                              end) "TCP") eqn:Etcp; simpl in H;
    [|apply Hrest; exact H].
  destruct (is_none (rp_port p)) eqn:Enone; [apply Hrest; exact H|].
  apply is_none_false in Enone.
  assert (Hhere : forall key, k = key ->
            key = PStr (py_str (rp_port p))
            \/ (key = rp_name p /\ truthy (rp_name p) = true) ->
            forall v', v' = rp_port p -> v = v' ->
            exists p0, In p0 (p :: ports) /\ is_tcp p0 = true /\ rp_port p0 = v
                       /\ v <> PNone
                       /\ (k = PStr (py_str v)
                           \/ (k = rp_name p0 /\ truthy k = true))).
  { intros key -> Hkey v' -> ->. exists p. split; [left; reflexivity|].
    split; [exact Etcp|]. split; [reflexivity|]. split; [exact Enone|].
    destruct Hkey as [->|[-> Ht]]; auto. }
  destruct (Hrest _ H) as [Hd|Hex]; [|right; exact Hex].
  unfold aget, aset in Hd.
  destruct (truthy (rp_name p)) eqn:Ename.
  - destruct (atom_eq_dec k (rp_name p)) as [->|Hk1].
    + rewrite get_set_same in Hd. injection Hd as <-.
      right. eapply Hhere; eauto.
    + rewrite get_set_other in Hd by exact Hk1.
      destruct (atom_eq_dec k (PStr (py_str (rp_port p)))) as [->|Hk2].
      * rewrite get_set_same in Hd. injection Hd as <-.
        right. eapply Hhere; eauto.
      * rewrite get_set_other in Hd by exact Hk2. left. exact Hd.
  - destruct (atom_eq_dec k (PStr (py_str (rp_port p)))) as [->|Hk2].
    + rewrite get_set_same in Hd. injection Hd as <-.
      right. eapply Hhere; eauto.
    + rewrite get_set_other in Hd by exact Hk2. left. exact Hd.
Qed.

Lemma build_port_dict_has_keys ports :
  forall port_dict p,
    In p ports -> is_tcp p = true -> rp_port p <> PNone ->
    In (PStr (py_str (rp_port p))) (Dict.keys (build_port_dict ports port_dict))
    /\ (truthy (rp_name p) = true ->
        In (rp_name p) (Dict.keys (build_port_dict ports port_dict))).
Proof.
  induction ports as [|p0 ports IH]; intros d p Hin Htcp Hn; [destruct Hin|].
  destruct Hin as [->|Hin].
  - simpl. unfold is_tcp in Htcp. rewrite Htcp. simpl.
    apply is_none_false in Hn. rewrite Hn.
    split.
    + apply build_port_dict_keeps_keys.
      destruct (truthy (rp_name p)).
      * apply in_keys_set. eapply get_in_keys. apply get_set_same.
      * eapply get_in_keys. apply get_set_same.
    + intros Ht. rewrite Ht. apply build_port_dict_keeps_keys.
      eapply get_in_keys. apply get_set_same.
  - simpl. destruct (negb (String.eqb _ "TCP")); [apply IH; assumption|].
    destruct (is_none (rp_port p0)); apply IH; assumption.
Qed.

(** X5: the port map the decoder builds for a subset binds nothing but
    TCP ports that have a number: each key is such a port's number written
    out, or its non-empty name, and is bound to that port's number.  No
    such port is left out: its number is a key and, when it has a name, so
    is the name.  Ports of another protocol or without a number leave no
    trace. *)
Theorem port_dict_holds_the_tcp_ports :
  forall ports : list raw_port,
    (forall k v,
        aget (build_port_dict ports []) k = Some v ->
        exists p, In p ports /\ is_tcp p = true /\ rp_port p = v /\ v <> PNone
                  /\ (k = PStr (py_str v) \/ (k = rp_name p /\ truthy k = true)))
    /\ (forall p,
          In p ports -> is_tcp p = true -> rp_port p <> PNone ->
          In (PStr (py_str (rp_port p))) (Dict.keys (build_port_dict ports []))
          /\ (truthy (rp_name p) = true ->
              In (rp_name p) (Dict.keys (build_port_dict ports [])))).
Proof.
  intros ports. split.
  - intros k v H.
    destruct (build_port_dict_binding _ _ _ H) as [Hnil|Hex];
      [discriminate | exact Hex].
  - intros p. apply build_port_dict_has_keys.
Qed.

Lemma subset_entry_some name namespace s e :
  subset_entry name namespace s = Some e ->
  ep_name e = name /\ ep_namespace e = namespace
  /\ ep_addresses e = collect_addresses (ss_addresses s)
  /\ ep_addresses e <> []
  /\ ep_ports e = build_port_dict (ss_ports s) []
  /\ ep_ports e <> [].
Proof.
  unfold subset_entry.
  destruct (collect_addresses (ss_addresses s)) as [|a l]; [discriminate|].
  destruct (build_port_dict (ss_ports s) []) as [|kv d]; [discriminate|].
  intros H. injection H as <-. simpl. repeat split; discriminate.
Qed.

Lemma store_subsets_lookup ident name namespace subsets :
  forall tbl k e,
    sget (store_subsets ident name namespace subsets tbl) k = Some e ->
    sget tbl k = Some e
    \/ (k = ident
        /\ exists s, In s subsets /\ subset_entry name namespace s = Some e).
Proof.
  induction subsets as [|s subsets IH]; intros tbl k e H; simpl in H;
    [left; exact H|].
  destruct (IH _ _ _ H) as [Ht|(-> & s' & Hin & Hs')].
  - destruct (subset_entry name namespace s) as [e'|] eqn:Es; [|left; exact Ht].
    unfold sget, sset in Ht. destruct (string_dec k ident) as [->|Hne].
    + rewrite get_set_same in Ht. injection Ht as <-.
      right. split; [reflexivity|]. exists s. split; [left; reflexivity|exact Es].
    + rewrite get_set_other in Ht by exact Hne. left. exact Ht.
  - right. split; [reflexivity|]. exists s'. split; [right; exact Hin|exact Hs'].
Qed.

Lemma store_subsets_other ident name namespace subsets :
  forall tbl k,
    k <> ident ->
    sget (store_subsets ident name namespace subsets tbl) k = sget tbl k.
Proof.
  induction subsets as [|s subsets IH]; intros tbl k Hk; simpl;
    [reflexivity|].
  rewrite IH by exact Hk.
  destruct (subset_entry name namespace s) as [e|]; [|reflexivity].
  unfold sget, sset. apply get_set_other. exact Hk.
Qed.

Lemma store_subsets_keys ident name namespace subsets :
  forall tbl,
    Dict.keys (store_subsets ident name namespace subsets tbl) = Dict.keys tbl
    \/ (~ In ident (Dict.keys tbl)
        /\ Dict.keys (store_subsets ident name namespace subsets tbl)
           = Dict.keys tbl ++ [ident]).
Proof.
  induction subsets as [|s subsets IH]; intros tbl; simpl; [left; reflexivity|].
  destruct (subset_entry name namespace s) as [e|]; [|apply IH].
  destruct (in_dec string_dec ident (Dict.keys tbl)) as [Hin|Hnotin].
  - destruct (IH (sset tbl ident e)) as [H|[Hn H]].
    + left. rewrite H. unfold sset. apply keys_set_in. exact Hin.
    + exfalso. apply Hn. unfold sset. apply in_keys_set. exact Hin.
  - right. split; [exact Hnotin|].
    destruct (IH (sset tbl ident e)) as [H|[Hn H]].
    + rewrite H. unfold sset. apply keys_set_notin. exact Hnotin.
    + exfalso. apply Hn. unfold sset.
      rewrite keys_set_notin by exact Hnotin. apply in_or_app. right.
      left. reflexivity.
Qed.

Lemma store_subsets_none ident name namespace subsets :
  forall tbl,
    (forall s, In s subsets -> subset_entry name namespace s = None) ->
    store_subsets ident name namespace subsets tbl = tbl.
Proof.
  induction subsets as [|s subsets IH]; intros tbl H; simpl; [reflexivity|].
  rewrite (H s (or_introl eq_refl)). apply IH.
  intros s' Hs'. apply H. right. exact Hs'.
Qed.

Lemma store_subsets_app ident name namespace l1 l2 :
  forall tbl,
    store_subsets ident name namespace (l1 ++ l2) tbl
    = store_subsets ident name namespace l2
        (store_subsets ident name namespace l1 tbl).
Proof.
  induction l1 as [|s l1 IH]; intros tbl; simpl; [reflexivity | apply IH].
Qed.

(** X7: an Endpoints object with several subsets keeps one of them only:
    the entry under its key is that of the last subset that has an address
    and a TCP port; the addresses and ports of the subsets before it are
    overwritten, whatever they were. *)
Theorem last_storable_subset_wins :
  forall (ident : string) (name namespace : atom)
         (before after : list subset) (s : subset) (e : ep_entry)
         (tbl : sdict ep_entry),
    subset_entry name namespace s = Some e ->
    (forall s', In s' after -> subset_entry name namespace s' = None) ->
    sget (store_subsets ident name namespace (before ++ s :: after) tbl) ident
    = Some e.
Proof.
  intros ident name namespace before after s e tbl Hs Hafter.
  rewrite store_subsets_app. simpl. rewrite Hs.
  rewrite store_subsets_none by exact Hafter.
  apply get_set_same.
Qed.

Lemma last_storable_subset_wins_example :
  sget
    (store_subsets "web.default" (PStr "web") (PStr "default")
       ([ {| ss_addresses := [raw_ip "10.0.0.1"];
             ss_ports := [tcp_port (PStr "http") 8080] |} ]
        ++ {| ss_addresses := [raw_ip "10.0.0.2"];
              ss_ports := [tcp_port PNone 9090] |}
        :: [ {| ss_addresses := []; ss_ports := [tcp_port PNone 7070] |} ])
       [])
    "web.default"
  = Some (mk_ep [make_addr (raw_ip "10.0.0.2")] [(PStr "9090", PInt 9090)]).
Proof.
  refine (@last_storable_subset_wins "web.default" (PStr "web") (PStr "default")
            [ {| ss_addresses := [raw_ip "10.0.0.1"];
                 ss_ports := [tcp_port (PStr "http") 8080] |} ]
            [ {| ss_addresses := []; ss_ports := [tcp_port PNone 7070] |} ]
            {| ss_addresses := [raw_ip "10.0.0.2"];
               ss_ports := [tcp_port PNone 9090] |}
            (mk_ep [make_addr (raw_ip "10.0.0.2")] [(PStr "9090", PInt 9090)])
            [] eq_refl _).
  intros s' [<-|[]]. reflexivity.
Defined.

(** X6: whatever Endpoints object it is given, the decoder leaves every
    entry of [k8s_endpoints] as it was except the one under the object's
    own [name.namespace] key: a lookup of any other key gives what it gave
    before, and the keys are those of before, in their order, with at most
    the object's own key added last.  An entry it writes under its own key
    carries that name and namespace, at least one address and at least one
    port, so the finalizer never meets an entry of the decoder with an
    empty port map; and it does write one when routing to endpoints is
    enabled and the object has a name and a subset with an address and a
    TCP port: the entry of the last such subset. *)
Theorem endpoints_decoder_writes_own_entry :
  forall (cfg : config) (k8s_object : k8s_object) (tbl : sdict ep_entry),
    let name := resource_name_of (ko_metadata k8s_object) in
    let namespace := resource_namespace_of (ko_metadata k8s_object) in
    let ident := resource_identifier name namespace in
    let tbl' := endpoints_table cfg k8s_object tbl in
    (forall k, k <> ident -> sget tbl' k = sget tbl k)
    /\ (Dict.keys tbl' = Dict.keys tbl
        \/ (~ In ident (Dict.keys tbl)
            /\ Dict.keys tbl' = Dict.keys tbl ++ [ident]))
    /\ (forall e,
          sget tbl' ident = Some e ->
          sget tbl ident = Some e
          \/ (enable_endpoints cfg = true
              /\ truthy name = true
              /\ ep_name e = name
              /\ ep_namespace e = namespace
              /\ ep_addresses e <> []
              /\ ep_ports e <> []))
    /\ (forall before s after e,
          enable_endpoints cfg = true ->
          ko_metadata k8s_object <> None ->
          truthy name = true ->
          ko_subsets k8s_object = before ++ s :: after ->
          subset_entry name namespace s = Some e ->
          (forall s', In s' after -> subset_entry name namespace s' = None) ->
          sget tbl' ident = Some e).
Proof.
  intros cfg obj tbl name namespace ident tbl'.
  subst tbl'. unfold endpoints_table.
  destruct (enable_endpoints cfg) eqn:Een; cbn [negb];
    [|split; [reflexivity|]; split; [left; reflexivity|];
      split; [left; assumption | intros; discriminate]].
  cbv zeta. fold name namespace ident.
  destruct (_ || _) eqn:Eskip.
  { split; [reflexivity|]. split; [left; reflexivity|].
    split; [left; assumption|].
    intros before s after e _ Hmd Hname Hsub _ _. exfalso.
    rewrite Hname, Hsub in Eskip.
    destruct (ko_metadata obj); [|congruence].
    destruct before; discriminate. }
  split; [|split; [|split]].
  - intros k Hk. apply store_subsets_other. exact Hk.
  - apply store_subsets_keys.
  - intros e H.
    destruct (store_subsets_lookup _ _ _ _ _ _ H) as [Ht|(_ & s & _ & Hs)];
      [left; exact Ht|].
    destruct (subset_entry_some _ _ _ Hs) as (Hn & Hns & _ & Ha & _ & Hp).
    right. apply orb_false_iff in Eskip. destruct Eskip as [Eskip _].
    apply orb_false_iff in Eskip. destruct Eskip as [_ Ename].
    apply negb_false_iff in Ename. repeat split; assumption.
  - intros before s after e _ _ _ Hsub Hs Hafter. rewrite Hsub.
    rewrite store_subsets_app. simpl. rewrite Hs.
    rewrite store_subsets_none by exact Hafter.
    unfold sget, sset. apply get_set_same.
Qed.

(** An Endpoints object decoded into a table that holds another service:
    that entry stays, the new key comes after it. *)
Lemma endpoints_decoder_writes_own_entry_example :
  let tbl := [("api.default", mk_ep [make_addr (raw_ip "10.0.0.9")]
                                     [(PStr "9090", PInt 9090)])] in
  let tbl' :=
    endpoints_table sample_config
      (endpoints_object "web"
         [ {| ss_addresses := [raw_ip "10.0.0.1"];
              ss_ports := [tcp_port (PStr "http") 8080] |} ])
      tbl in
  sget tbl' "api.default" = sget tbl "api.default"
  /\ Dict.keys tbl' = ["api.default"; "web.default"]
  /\ sget tbl' "web.default"
     = Some (mk_ep [make_addr (raw_ip "10.0.0.1")]
                   [(PStr "8080", PInt 8080); (PStr "http", PInt 8080)]).
Proof.
  cbv zeta. split; [|split; reflexivity].
  apply (proj1 (@endpoints_decoder_writes_own_entry sample_config
                  (endpoints_object "web"
                     [ {| ss_addresses := [raw_ip "10.0.0.1"];
                          ss_ports := [tcp_port (PStr "http") 8080] |} ])
                  [("api.default", mk_ep [make_addr (raw_ip "10.0.0.9")]
                                         [(PStr "9090", PInt 9090)])])).
  discriminate.
Defined.

(** ** The Consul decoder: what a bucket holds *)

(** X8: the endpoints map of a Consul service has no key but ['*'], and the
    list under it is never empty: each of its targets stands for an
    endpoint of the entry with a non-empty address and a non-zero port and
    is marked as a Consul target.  When no endpoint has both, the map is
    empty.  The loop builds no map only when it raises KeyError for an
    endpoint that lacks an address or a port and has no [ID] key. *)
Theorem consul_bucket_holds_usable_targets :
  forall endpoints : list consul_endpoint,
    match consul_endpoints endpoints [] with
    | inr svc_endpoints =>
        (forall k l,
            aget svc_endpoints k = Some l ->
            k = PStr "*" /\ l <> []
            /\ forall t, In t l ->
                 truthy (ct_ip t) = true /\ truthy (ct_port t) = true
                 /\ ct_target_kind t = PStr "Consul"
                 /\ exists ep, In ep endpoints
                               /\ ct_ip t = ce_Address ep
                               /\ ct_port t = ce_Port ep)
        /\ ((forall ep, In ep endpoints -> has_address_and_port ep = false) ->
            svc_endpoints = [])
        /\ (forall ep, In ep endpoints -> has_address_and_port ep = false ->
                       ce_ID ep <> None)
    | inl e =>
        e = KeyError "ID"
        /\ exists ep, In ep endpoints /\ has_address_and_port ep = false
                      /\ ce_ID ep = None
    end.
Proof.
  intros endpoints. rewrite consul_endpoints_from_empty.
  destruct (existsb skipped_without_id endpoints) eqn:Eskip.
  { split; [reflexivity|]. apply existsb_exists in Eskip.
    destruct Eskip as [ep [Hin Hs]]. exists ep.
    unfold skipped_without_id in Hs. apply andb_true_iff in Hs.
    destruct Hs as [Hb Hid]. apply negb_true_iff in Hb.
    destruct (ce_ID ep); [discriminate | auto]. }
  split; [|split].
  - intros k l H.
    destruct (consul_survivors endpoints) as [|t0 ts] eqn:E; [discriminate|].
    unfold aget in H. cbn [Dict.get] in H.
    destruct (atom_eq_dec k (PStr "*")) as [->|]; [|discriminate].
    injection H as <-. split; [reflexivity|]. split; [discriminate|].
    intros t Hin. rewrite <- E in Hin. unfold consul_survivors in Hin.
    apply in_map_iff in Hin. destruct Hin as (ep & <- & Hep).
    apply filter_In in Hep. destruct Hep as [Hep Hboth].
    unfold has_address_and_port in Hboth. apply andb_true_iff in Hboth.
    simpl. repeat split; try tauto. exists ep. auto.
  - intros Hnone. unfold consul_survivors.
    replace (filter has_address_and_port endpoints) with (@nil consul_endpoint);
      [reflexivity|].
    clear Eskip.
    induction endpoints as [|ep eps IH]; simpl; [reflexivity|].
    rewrite (Hnone ep (or_introl eq_refl)). apply IH.
    intros ep' H'. apply Hnone. right. exact H'.
  - intros ep Hin Hb Hid.
    rewrite (skipped_without_id_some _ _ Hin Hb Hid) in Eskip. discriminate.
Qed.

(** ** Dispatch by kind *)

Lemma lower_empty s : lower s = "" -> s = "".
Proof. destruct s; simpl; [reflexivity | discriminate]. Qed.

Section FetcherMore.

Variable ACResource : Type.
Variable from_dict : atom -> atom -> string -> value -> construction ACResource.
Variable dump_yaml : value -> string.
Variable good_ambassador_id : value -> bool.
Variable parse_yaml_text : string -> option (list value).
Variable py_repr : value -> string.
Variable Config : config.

(** X9: [handle_k8s] picks the handler by the kind in lower case, so two
    Service, Endpoints or Secret objects that differ only in the case of
    their kind are handled alike; an object whose kind names none of the
    four handlers is dropped: nothing is stored, posted or raised. *)
Theorem dispatch_by_lowercase_kind :
  (forall (obj : k8s_object) (kind1 kind2 : string) (s : fetcher ACResource),
      lower kind1 = lower kind2 ->
      lower kind1 <> "crd" ->
      handle_k8s from_dict dump_yaml good_ambassador_id parse_yaml_text py_repr
        Config (with_kind (PStr kind1) obj) s
      = handle_k8s from_dict dump_yaml good_ambassador_id parse_yaml_text
          py_repr Config (with_kind (PStr kind2) obj) s)
  /\ (forall (obj : k8s_object) (kind : string) (s : fetcher ACResource),
        ko_kind obj = PStr kind ->
        ~ In (lower kind) handled_kinds ->
        handle_k8s from_dict dump_yaml good_ambassador_id parse_yaml_text
          py_repr Config obj s
        = Ok tt s).
Proof.
  split.
  - intros obj k1 k2 s Hlow Hcrd. unfold handle_k8s. cbn [ko_kind with_kind].
    destruct (String.eqb k1 "") eqn:E1.
    + apply String.eqb_eq in E1. subst k1. simpl in Hlow.
      symmetry in Hlow. apply lower_empty in Hlow. subst k2. reflexivity.
    + destruct (String.eqb k2 "") eqn:E2.
      * apply String.eqb_eq in E2. subst k2. simpl in Hlow.
        apply lower_empty in Hlow. subst k1. discriminate.
      * cbv zeta. rewrite <- Hlow.
        destruct (String.eqb (lower k1) "service"); [reflexivity|].
        destruct (String.eqb (lower k1) "endpoints"); [reflexivity|].
        destruct (String.eqb (lower k1) "secret"); [reflexivity|].
        destruct (String.eqb (lower k1) "crd") eqn:E; [|reflexivity].
        apply String.eqb_eq in E. contradiction.
  - intros obj kind s Hk Hnot. unfold handle_k8s. rewrite Hk.
    destruct (String.eqb kind ""); [reflexivity|]. cbv zeta.
    destruct (String.eqb (lower kind) "service") eqn:E1;
      [apply String.eqb_eq in E1; exfalso; apply Hnot; rewrite E1; simpl; tauto|].
    destruct (String.eqb (lower kind) "endpoints") eqn:E2;
      [apply String.eqb_eq in E2; exfalso; apply Hnot; rewrite E2; simpl; tauto|].
    destruct (String.eqb (lower kind) "secret") eqn:E3;
      [apply String.eqb_eq in E3; exfalso; apply Hnot; rewrite E3; simpl; tauto|].
    destruct (String.eqb (lower kind) "crd") eqn:E4;
      [apply String.eqb_eq in E4; exfalso; apply Hnot; rewrite E4; simpl; tauto|].
    reflexivity.
Qed.

(** ** The Secret decoder *)

Lemma atom_eqb_eq a b : atom_eqb a b = true -> a = b.
Proof. unfold atom_eqb. destruct (atom_eq_dec a b); [auto | discriminate]. Qed.

(** X10: the Secret decoder never changes the fetcher and never raises.
    When it returns fragments, the secret's type is [kubernetes.io/tls] or
    [Opaque] and it has a name; there is exactly one fragment, a Secret
    resource of that name which holds [tls_crt] exactly when the
    certificate is set and [tls_key] exactly when the key is set, and at
    least one of the two. *)
Theorem secret_decoder_returns_one_secret :
  forall (obj : k8s_object) (s : fetcher ACResource),
    exists r,
      handle_k8s_secret Config obj s = Ok r s
      /\ forall ident fragments,
           r = Some (ident, fragments) ->
           exists data d,
             ko_data obj = Some data
             /\ (ko_type obj = PStr "kubernetes.io/tls"
                 \/ ko_type obj = PStr "Opaque")
             /\ truthy (resource_name_of (ko_metadata obj)) = true
             /\ ident = resource_identifier (resource_name_of (ko_metadata obj))
                          (resource_namespace_of (ko_metadata obj))
             /\ fragments = [VDict d]
             /\ vget d "kind" = Some (VS "Secret")
             /\ vget d "name" = Some (VAtom (resource_name_of (ko_metadata obj)))
             /\ vget d "tls_crt"
                = (if truthy (tls_crt data) then Some (VAtom (tls_crt data))
                   else None)
             /\ vget d "tls_key"
                = (if truthy (tls_key data) then Some (VAtom (tls_key data))
                   else None)
             /\ truthy (tls_crt data) || truthy (tls_key data) = true.
Proof.
  intros obj s. unfold handle_k8s_secret. cbv zeta.
  destruct (ko_data obj) as [data|] eqn:Edata.
  2:{ eexists. split; [reflexivity|]. discriminate. }
  destruct (negb (atom_eqb (ko_type obj) (PStr "kubernetes.io/tls"))
            && negb (atom_eqb (ko_type obj) (PStr "Opaque"))) eqn:Etype.
  { eexists. split; [reflexivity|]. discriminate. }
  destruct (ko_metadata obj) as [md|] eqn:Emd.
  2:{ eexists. split; [reflexivity|]. discriminate. }
  simpl. destruct (truthy (md_name md)) eqn:Ename; simpl.
  2:{ eexists. split; [reflexivity|]. discriminate. }
  destruct (wrong_namespace Config _).
  { eexists. split; [reflexivity|]. discriminate. }
  assert (Htype : ko_type obj = PStr "kubernetes.io/tls"
                  \/ ko_type obj = PStr "Opaque").
  { apply andb_false_iff in Etype. rewrite !negb_false_iff in Etype.
    destruct Etype as [E|E]; apply atom_eqb_eq in E; auto. }
  destruct (truthy (tls_crt data)) eqn:Ecrt;
    destruct (truthy (tls_key data)) eqn:Ekey;
    simpl; (eexists; split; [reflexivity|]); try discriminate;
    intros ident fragments H; injection H as <- <-;
    exists data; eexists;
    (split; [reflexivity|]); (split; [exact Htype|]);
    (split; [reflexivity|]); (split; [reflexivity|]);
    (split; [unfold secret_info; rewrite Ecrt, Ekey; reflexivity|]);
    repeat split; rewrite ?Ecrt, ?Ekey; reflexivity.
Qed.

(** ** The CRD handler *)

(** X11: a CRD with a kind, a name and an apiVersion is processed as one
    application resource under the key [name.namespace] (namespace
    [default] when it has none).  The resource is the CRD's spec with the
    object's own apiVersion, name and kind stored over it: a spec field
    called [kind], [name] or [apiVersion] cannot take their place, and
    every other spec field is passed on unchanged. *)
Theorem crd_resource_keeps_identity :
  forall (obj : k8s_object) (s : fetcher ACResource),
    truthy (ko_kind obj) = true ->
    truthy (resource_name_of (ko_metadata obj)) = true ->
    truthy (ko_apiVersion obj) = true ->
    handle_k8s_crd from_dict dump_yaml good_ambassador_id py_repr obj s
    = parse_object from_dict dump_yaml good_ambassador_id py_repr
        [VDict (crd_resource obj)]
        (PStr (resource_identifier (resource_name_of (ko_metadata obj))
                 (crd_namespace obj)))
        (filename s) s
    /\ vget (crd_resource obj) "kind" = Some (VAtom (ko_kind obj))
    /\ vget (crd_resource obj) "name"
       = Some (VAtom (resource_name_of (ko_metadata obj)))
    /\ vget (crd_resource obj) "apiVersion" = Some (VAtom (ko_apiVersion obj))
    /\ forall k,
         k <> PStr "kind" -> k <> PStr "name" -> k <> PStr "apiVersion" ->
         aget (crd_resource obj) k = aget (ko_spec obj) k.
Proof.
  intros obj s Hk Hn Ha. split; [|split; [|split; [|split]]].
  - unfold handle_k8s_crd. rewrite Hk, Hn, Ha. reflexivity.
  - apply get_set_same.
  - unfold vget, crd_resource, aget, aset.
    rewrite get_set_other by discriminate. apply get_set_same.
  - unfold vget, crd_resource, aget, aset.
    rewrite !get_set_other by discriminate. apply get_set_same.
  - intros k H1 H2 H3. unfold crd_resource, aget, aset.
    rewrite !get_set_other by assumption. reflexivity.
Qed.

(** ** The annotation marker of the Service decoder *)

Lemma string_length_append a b :
  String.length (a ++ b) = (String.length a + String.length b)%nat.
Proof. induction a as [|c a IH]; simpl; [reflexivity | rewrite IH; reflexivity]. Qed.

Lemma substring_whole s : substring 0 (String.length s) s = s.
Proof. induction s as [|c s IH]; simpl; [reflexivity | rewrite IH; reflexivity]. Qed.

Lemma substring_after a b n :
  substring (String.length a) n (a ++ b)%string = substring 0 n b.
Proof. induction a as [|c a IH]; simpl; [reflexivity | exact IH]. Qed.

Lemma endswith_append a suffix : endswith (a ++ suffix) suffix = true.
Proof.
  unfold endswith. rewrite string_length_append.
  replace (String.length a + String.length suffix - String.length suffix)%nat
    with (String.length a) by lia.
  rewrite substring_after, substring_whole, String.eqb_refl.
  rewrite andb_true_r. apply Nat.leb_le. lia.
Qed.

(** X12: when the Service decoder meets a service that has a configuration
    annotation while the current source label is a string, the label ends
    in [:annotation] afterwards: the marker is added if the label does not
    end in it yet and is never added twice.  The ordinal and the saved
    locations are not touched. *)
Theorem annotation_marker_added_once :
  forall (obj : k8s_object) (md : metadata) (text f : string)
         (s : fetcher ACResource),
    ko_metadata obj = Some md ->
    truthy (md_name md) = true ->
    wrong_namespace Config (resource_namespace_of (Some md)) = false ->
    md_config md = Some text ->
    text <> "" ->
    filename s = VS f ->
    exists r s',
      handle_k8s_service parse_yaml_text Config obj s = Ok r s'
      /\ filename s'
         = VS (if endswith f ":annotation" then f else f ++ ":annotation")
      /\ (exists f', filename s' = VS f' /\ endswith f' ":annotation" = true)
      /\ ocount s' = ocount s
      /\ saved s' = saved s.
Proof.
  intros obj md text f s Hmd Hname Hns Hcfg Htext Hf.
  unfold handle_k8s_service. cbv zeta. rewrite Hmd. simpl resource_name_of.
  rewrite Hname, Hns, Hcfg. simpl orb. cbv iota.
  apply String.eqb_neq in Htext. rewrite Htext.
  set (s1 := match ko_ports obj with [] => s | _ => _ end).
  assert (H1 : filename s1 = VS f /\ ocount s1 = ocount s /\ saved s1 = saved s).
  { subst s1. destruct (ko_ports obj); simpl; auto. }
  clearbody s1. destruct H1 as (Hf1 & Ho1 & Hs1). rewrite Hf1. unfold VS.
  destruct (endswith f ":annotation") eqn:E; simpl.
  - eexists. eexists. split; [reflexivity|].
    split; [exact Hf1|]. split; [|auto]. exists f. auto.
  - eexists. eexists. split; [reflexivity|]. simpl.
    split; [reflexivity|]. split; [|auto].
    exists (f ++ ":annotation")%string. split; [reflexivity|].
    apply endswith_append.
Qed.

(** ** When processing an application resource raises *)

Ltac side := first [reflexivity | eassumption].

(** X13: [process_object] raises in five situations and in no other, and
    has then changed nothing.  Two come from a diagnostic that prints the
    object with sorted keys, which raises TypeError when some dictionary
    in it has two or more keys that are not all numbers or all strings:
    the object is no dictionary and not empty, or it is a dictionary of
    ours without a kind.  The others are a dictionary of ours with a kind
    other than Pragma: a Service without a [name] (KeyError), a Service
    whose [name] is a list or a dictionary (TypeError, the name is used as
    a key), or another kind for which [ACResource.from_dict] raised an
    exception without arguments (IndexError, from reading [e.args[0]]).
    Whatever else it is given, it returns. *)
Theorem process_object_raises_only :
  forall (obj : value) (rkey : atom) (s s' : fetcher ACResource) (e : exn),
    process_object from_dict dump_yaml good_ambassador_id py_repr obj rkey s
    = Raise e s'
    <-> s' = s
        /\ raising_situation from_dict dump_yaml good_ambassador_id py_repr
             obj rkey s e.
Proof.
    intros obj rkey s s' e. unfold raising_situation, process_object.
  split.
  - intros H. destruct obj as [a|l|d].
    + destruct (truthy_value (VAtom a)) eqn:Ht; cbn [negb] in H;
        [|discriminate].
      destruct (json_dumps_returns (VAtom a)) eqn:Hj; [discriminate|].
      injection H as <- <-. split; [side|]. left.
      repeat split; auto. intros d; discriminate.
    + destruct (truthy_value (VList l)) eqn:Ht; cbn [negb] in H;
        [|discriminate].
      destruct (json_dumps_returns (VList l)) eqn:Hj; [discriminate|].
      injection H as <- <-. split; [side|]. left.
      repeat split; auto. intros d; discriminate.
    + destruct (good_ambassador_id (VDict d)) eqn:Hgood; cbn [negb] in H;
        [|discriminate].
      destruct (vget d "kind") as [kind|] eqn:Hkind.
      2:{ destruct (json_dumps_returns (VDict d)) eqn:Hj; [discriminate|].
          injection H as <- <-. split; [side|]. right. exists d.
          split; [side|]. split; [side|]. left. auto. }
      destruct (value_is_str kind "Pragma") eqn:Hpragma; [discriminate|].
      destruct (value_is_str kind "Service") eqn:Hsvc.
      * destruct (vget d "name") as [[name|l|d']|] eqn:Hname;
          try discriminate; injection H as <- <-;
          (split; [side|]); right; exists d;
          (split; [side|]); (split; [side|]); right;
          exists kind; (split; [side|]); (split; [side|]).
        -- right. left. split; [side|]. split; [|side].
           eexists. split; [side|]. intros a; discriminate.
        -- right. left. split; [side|]. split; [|side].
           eexists. split; [side|]. intros a; discriminate.
        -- left. auto.
      * destruct (from_dict _ _ _ _) as [r|[|arg args]] eqn:Hfd;
          try discriminate.
        injection H as <- <-. split; [side|]. right. exists d.
        split; [side|]. split; [side|]. right. exists kind.
        split; [side|]. split; [side|]. right. right.
        split; [side|]. split; [side | reflexivity].
  - intros [-> [(Hnd & Ht & Hj & ->)|(d & -> & Hgood & Hcase)]].
    + destruct obj as [a|l|d]; [| |exfalso; eapply Hnd; reflexivity];
        rewrite Ht, Hj; reflexivity.
    + rewrite Hgood. cbn [negb].
      destruct Hcase as [(Hkind & Hj & ->)|(kind & Hkind & Hpragma & Hcase)].
      * rewrite Hkind, Hj. reflexivity.
      * rewrite Hkind, Hpragma.
        destruct Hcase as [(Hsvc & Hname & ->)
                          |[(Hsvc & (v & Hname & Hv) & ->)
                           |(Hsvc & Hfd & ->)]]; rewrite Hsvc.
        -- rewrite Hname. reflexivity.
        -- rewrite Hname. destruct v as [a|l|d'];
             [exfalso; eapply Hv; reflexivity | reflexivity | reflexivity].
        -- cbv zeta in Hfd. unfold resource_key in Hfd. rewrite Hfd.
           reflexivity.
Qed.

(** ** The location around a batch *)

Lemma process_object_keeps_saved obj rkey s :
  match process_object from_dict dump_yaml good_ambassador_id py_repr obj rkey s with
  | Ok _ s' | Raise _ s' => saved s' = saved s
  end.
Proof.
  unfold process_object.
  destruct obj as [a|l|d].
  - destruct (negb (truthy_value (VAtom a))); [reflexivity|].
    destruct (json_dumps_returns (VAtom a)); reflexivity.
  - destruct (negb (truthy_value (VList l))); [reflexivity|].
    destruct (json_dumps_returns (VList l)); reflexivity.
  - destruct (negb (good_ambassador_id (VDict d))); [reflexivity|].
    destruct (vget d "kind") as [kind|];
      [|destruct (json_dumps_returns (VDict d)); reflexivity].
    destruct (value_is_str kind "Pragma"); [reflexivity|].
    destruct (value_is_str kind "Service").
    + destruct (vget d "name") as [[name|?|?]|]; reflexivity.
    + destruct (from_dict _ _ _ _) as [r|[|arg args]]; reflexivity.
Qed.

Lemma process_objects_keeps_saved rkey objects :
  forall s,
    match process_objects from_dict dump_yaml good_ambassador_id py_repr
            rkey objects s with
    | Ok _ s' | Raise _ s' => saved s' = saved s
    end.
Proof.
  induction objects as [|obj objects IH]; intros s; [reflexivity|].
  unfold process_objects in *. cbn [for_each]. unfold bind at 1. unfold bind at 1.
  pose proof (process_object_keeps_saved obj rkey s) as Hp.
  destruct (process_object _ _ _ _ obj rkey s) as [[] s1|e s1]; [|exact Hp].
  unfold modify.
  specialize (IH (set_location (filename s1) (ocount s1 + 1) (saved s1) s1)).
  destruct (for_each _ objects _) as [[] s2|e s2]; simpl in IH; congruence.
Qed.

Lemma parse_object_steps objects rkey f s :
  parse_object from_dict dump_yaml good_ambassador_id py_repr objects rkey f s
  = match process_objects from_dict dump_yaml good_ambassador_id py_repr
            rkey objects
            (set_location f 1 ((filename s, ocount s) :: saved s) s) with
    | Ok _ s1 => pop_location s1
    | Raise e s1 => Raise e s1
    end.
Proof. reflexivity. Qed.

(** X14: a call of [parse_object] on application resources that returns
    leaves the source label, the ordinal and the stack of saved locations
    as it found them, whatever Pragma objects the batch held.  A call that
    raises does not: the location it pushed on entry is still on the
    stack. *)
Theorem parse_object_restores_location :
  forall (objects : list value) (rkey : atom) (f : value)
         (s : fetcher ACResource),
    match parse_object from_dict dump_yaml good_ambassador_id py_repr
            objects rkey f s with
    | Ok _ s' =>
        filename s' = filename s /\ ocount s' = ocount s /\ saved s' = saved s
    | Raise _ s' => saved s' = (filename s, ocount s) :: saved s
    end.
Proof.
  intros objects rkey f s. rewrite parse_object_steps.
  pose proof (process_objects_keeps_saved rkey objects
                (set_location f 1 ((filename s, ocount s) :: saved s) s)) as H.
  destruct (process_objects _ _ _ _ rkey objects _) as [[] s1|e s1];
    simpl in H; [|exact H].
  unfold pop_location. rewrite H. simpl. auto.
Qed.

(** ** Pragma objects *)

(** X15: a Pragma object of ours at the head of a batch is not stored,
    posts nothing and takes no ordinal: the batch is processed exactly as
    the rest of it would be under the source label the Pragma names (under
    the batch's own label when the Pragma names none). *)
Theorem pragma_takes_no_ordinal :
  forall (obj : value) (rest : list value) (rkey : atom) (f : value)
         (s : fetcher ACResource),
    is_pragma good_ambassador_id obj ->
    parse_object from_dict dump_yaml good_ambassador_id py_repr
      (obj :: rest) rkey f s
    = parse_object from_dict dump_yaml good_ambassador_id py_repr
        rest rkey (pragma_source obj f) s.
Proof.
  intros obj rest rkey f s (d & kind & -> & Hgood & Hkind & Hpragma).
  rewrite !parse_object_steps. unfold process_objects. cbn [for_each].
  unfold bind at 1. unfold bind at 1.
  unfold process_object at 1. rewrite Hgood, Hkind, Hpragma. simpl negb.
  cbv iota. unfold modify, pragma_source. simpl.
  destruct (vget d "source") as [v|]; [destruct (truthy_value v)|]; reflexivity.
Qed.

(** ** Keys of a batch of resources *)

Lemma modify_run (f : fetcher ACResource -> fetcher ACResource) s :
  modify f s = Ok tt (f s).
Proof. reflexivity. Qed.

Lemma process_objects_numbered rkey objects :
  forall els fn i sv ke ks svs errs rs,
    Forall (plain_resource good_ambassador_id) objects ->
    construct_all from_dict dump_yaml
      (numbered good_ambassador_id
         (str_value py_repr (if truthy rkey then VAtom rkey else fn))
         i objects)
    = Built rs ->
    process_objects from_dict dump_yaml good_ambassador_id py_repr rkey objects
      {| elements := els; filename := fn; ocount := i; saved := sv;
         k8s_endpoints := ke; k8s_services := ks; services := svs;
         errors := errs |}
    = Ok tt
        {| elements := els ++ rs; filename := fn;
           ocount := i + Z.of_nat (List.length objects); saved := sv;
           k8s_endpoints := ke; k8s_services := ks; services := svs;
           errors := errs |}.
Proof.
  induction objects as [|obj objects IH];
    intros els fn i sv ke ks svs errs rs Hplain Hc.
  - simpl in Hc. injection Hc as <-. simpl.
    rewrite app_nil_r, Z.add_0_r. reflexivity.
  - inversion Hplain as [|? ? (d & -> & Hobj) Hrest]; subst.
    unfold process_objects in *. cbn [for_each]. unfold bind at 1. unfold bind at 1.
    cbn [numbered] in Hc. unfold process_object at 1.
    replace (i + Z.of_nat (List.length (VDict d :: objects)))
      with (i + 1 + Z.of_nat (List.length objects))
      by (simpl List.length; lia).
    destruct (good_ambassador_id (VDict d)) eqn:Hgood; simpl negb; cbv iota.
    + destruct (Hobj eq_refl) as (kind & Hkind & Hpragma & Hsvc).
      rewrite Hkind, Hpragma, Hsvc.
      cbn [construct_all] in Hc. cbn [filename ocount].
      unfold resource_key in Hc.
      destruct (from_dict _ _ _ (VDict d)) as [r|args]; [|discriminate].
      destruct (construct_all _ _ _) as [rs'|args] eqn:Hrs; [|discriminate].
      injection Hc as <-. cbv beta. rewrite modify_run.
      unfold set_location, set_elements.
      cbn [elements filename ocount saved k8s_endpoints k8s_services services
           errors].
      rewrite (IH _ _ _ _ _ _ _ _ rs' Hrest Hrs).
      rewrite <- app_assoc. reflexivity.
    + cbv beta. rewrite modify_run. unfold set_location.
      cbn [elements filename ocount saved k8s_endpoints k8s_services services
           errors].
      apply IH; assumption.
Qed.

(** X16: in a batch of dictionaries whose kinds are neither Pragma nor
    Service, the objects are numbered from 1 in the order given, an object
    with another ambassador_id taking a number and nothing else.  When
    [ACResource.from_dict] accepts every object of ours under the key
    [<source>.<number>] (the source is [rkey], or the file name when there
    is no [rkey]), the batch appends exactly those resources, in that
    order, and changes nothing else. *)
Theorem batch_keys_are_numbered :
  forall (objects : list value) (rkey : atom) (f : value)
         (s : fetcher ACResource) (rs : list ACResource),
    Forall (plain_resource good_ambassador_id) objects ->
    construct_all from_dict dump_yaml
      (numbered good_ambassador_id
         (str_value py_repr (if truthy rkey then VAtom rkey else f))
         1 objects)
    = Built rs ->
    parse_object from_dict dump_yaml good_ambassador_id py_repr objects rkey f s
    = Ok tt (set_elements (elements s ++ rs) s).
Proof.
  intros objects rkey f s rs Hplain Hc. rewrite parse_object_steps.
  destruct s as [els fn i sv ke ks svs errs]. unfold set_location. simpl.
  rewrite process_objects_numbered with (rs := rs);
    [reflexivity | exact Hplain | exact Hc].
Qed.

(** ** The writes of the finalizer to [services] *)

Lemma resolve_services_app eps l1 l2 :
  forall svcs,
    resolve_services Config eps (l1 ++ l2) svcs
    = resolve_services Config eps l2 (resolve_services Config eps l1 svcs).
Proof.
  induction l1 as [|[key svc] l1 IH]; intros svcs; simpl; [reflexivity | apply IH].
Qed.

Lemma resolve_services_other eps items :
  forall svcs k,
    (forall item, In item items -> service_key (snd item) <> k) ->
    aget (resolve_services Config eps items svcs) k = aget svcs k.
Proof.
  induction items as [|[key svc] items IH]; intros svcs k H; simpl;
    [reflexivity|].
  rewrite IH.
  - unfold aget, aset. apply get_set_other.
    intros E. apply (H (key, svc) (or_introl eq_refl)). symmetry. exact E.
  - intros item Hin. apply H. right. exact Hin.
Qed.

Lemma resolve_services_keeps_order eps items :
  forall svcs,
    exists new,
      Dict.keys (resolve_services Config eps items svcs)
      = Dict.keys svcs ++ new.
Proof.
  induction items as [|[key svc] items IH]; intros svcs; simpl.
  - exists []. rewrite app_nil_r. reflexivity.
  - destruct (IH (aset svcs (service_key svc)
                    (service_value Config (resolve_service eps key svc))))
      as [new Hnew].
    rewrite Hnew. unfold aset.
    destruct (in_dec atom_eq_dec (service_key svc) (Dict.keys svcs)) as [Hin|Hnin].
    + rewrite keys_set_in by exact Hin. eauto.
    + rewrite keys_set_notin by exact Hnin. rewrite <- app_assoc. eauto.
Qed.

(** X17: the first loop of [finalize] leaves every entry of [services] in
    its place and adds new keys after them.  A key that no staged
    Kubernetes service resolves to keeps its entry; a key that staged
    services resolve to ends up bound to the resolution of the last of
    them, be it the key of a directly declared or Consul service or of
    another Kubernetes service. *)
Theorem last_staged_service_wins :
  (forall eps before after key k8s_svc svcs,
      (forall item, In item after ->
                    service_key (snd item) <> service_key k8s_svc) ->
      aget (resolve_services Config eps (before ++ (key, k8s_svc) :: after) svcs)
           (service_key k8s_svc)
      = Some (service_value Config (resolve_service eps key k8s_svc)))
  /\ (forall eps items svcs k,
        (forall item, In item items -> service_key (snd item) <> k) ->
        aget (resolve_services Config eps items svcs) k = aget svcs k)
  /\ (forall eps items svcs,
        exists new,
          Dict.keys (resolve_services Config eps items svcs)
          = Dict.keys svcs ++ new).
Proof.
  split; [|split].
  - intros eps before after key svc svcs Hafter.
    rewrite resolve_services_app. simpl.
    rewrite resolve_services_other by exact Hafter.
    apply get_set_same.
  - intros eps items svcs k. apply resolve_services_other.
  - intros eps items svcs. apply resolve_services_keeps_order.
Qed.

(** ** A failure while emitting services *)

Lemma emit_services_failure before :
  forall key svc after rs args (s : fetcher ACResource),
    construct_all from_dict dump_yaml before = Built rs ->
    from_dict key key (dump_yaml svc) svc = Failed args ->
    for_each (emit_service from_dict dump_yaml)
      (before ++ (key, svc) :: after) s
    = Raise (ConstructionError args) (set_elements (elements s ++ rs) s).
Proof.
  induction before as [|[k v] before IH]; intros key svc after rs args s Hc Hf.
  - simpl in Hc. injection Hc as <-. simpl. unfold bind, emit_service.
    rewrite Hf. unfold set_elements. rewrite app_nil_r. destruct s; reflexivity.
  - simpl in Hc. simpl. unfold bind at 1. unfold emit_service at 1.
    destruct (from_dict k k (dump_yaml v) v) as [r|a]; [|discriminate].
    destruct (construct_all from_dict dump_yaml before) as [rs'|a] eqn:E;
      [|discriminate].
    injection Hc as <-. rewrite (IH _ _ _ rs' _ _ eq_refl Hf). simpl.
    rewrite <- app_assoc. reflexivity.
Qed.

(** X18: [finalize] does not catch what [ACResource.from_dict] raises, and
    it is not all-or-nothing: when the construction fails for an entry of
    [services], the call raises with the table already rewritten and with
    the resources of the entries before the failing one already appended;
    the entries after it are not visited. *)
Theorem finalize_failure_is_partial :
  forall (s : fetcher ACResource) (before after : list (atom * value))
         (key : atom) (svc : value) (rs : list ACResource) (args : list value),
    Dict.items
      (resolve_services Config (k8s_endpoints s) (Dict.items (k8s_services s))
         (services s))
    = before ++ (key, svc) :: after ->
    construct_all from_dict dump_yaml before = Built rs ->
    from_dict key key (dump_yaml svc) svc = Failed args ->
    finalize from_dict dump_yaml Config s
    = Raise (ConstructionError args)
        (set_elements (elements s ++ rs)
           (set_services
              (resolve_services Config (k8s_endpoints s)
                 (Dict.items (k8s_services s)) (services s)) s)).
Proof.
  intros s before after key svc rs args Hitems Hc Hf.
  unfold finalize. cbv zeta. rewrite Hitems.
  rewrite emit_services_failure with (rs := rs) (args := args);
    [reflexivity | exact Hc | exact Hf].
Qed.

(** ** What a snapshot is read for *)

Lemma for_each_ext {A} (f g : A -> M ACResource unit) l :
  (forall x, In x l -> forall s, f x s = g x s) ->
  forall s, for_each f l s = for_each g l s.
Proof.
  induction l as [|x l IH]; intros H s; simpl; [reflexivity|].
  unfold bind. rewrite (H x (or_introl eq_refl)).
  destruct (g x s) as [[] s1|e s1]; [|reflexivity].
  apply IH. intros y Hy. apply H. right. exact Hy.
Qed.

(** X19: decoding a snapshot reads its Kubernetes part under the three
    object kinds and the eleven CRD kinds it lists and under no other key:
    two snapshots that agree on those fourteen keys and on the Consul
    entries are decoded to the same result, whatever else they hold. *)
Theorem snapshot_read_under_known_kinds :
  forall (w w' : watt) (s : fetcher ACResource),
    (forall key, In key (watt_k8s_kinds ++ watt_crd_kinds) ->
                 watt_objects w key = watt_objects w' key) ->
    w_Consul_Endpoints w = w_Consul_Endpoints w' ->
    decode_watt from_dict dump_yaml good_ambassador_id parse_yaml_text py_repr
      Config w s
    = decode_watt from_dict dump_yaml good_ambassador_id parse_yaml_text
        py_repr Config w' s.
Proof.
  intros w w' s Hk Hc. unfold decode_watt. rewrite Hc. unfold bind.
  rewrite for_each_ext
    with (g := fun key =>
                 for_each
                   (handle_k8s from_dict dump_yaml good_ambassador_id
                      parse_yaml_text py_repr Config)
                   (watt_objects w' key)).
  2:{ intros key Hin s0. rewrite Hk; [reflexivity|].
      apply in_or_app. left. exact Hin. }
  destruct (for_each _ watt_k8s_kinds s) as [[] s1|e s1]; [|reflexivity].
  rewrite for_each_ext
    with (g := fun key =>
                 for_each
                   (handle_k8s_crd from_dict dump_yaml good_ambassador_id
                      py_repr)
                   (watt_objects w' key)).
  2:{ intros key Hin s0. rewrite Hk; [reflexivity|].
      apply in_or_app. right. exact Hin. }
  reflexivity.
Qed.

(** ** The location after decoding *)

Lemma settled_refl (s : fetcher ACResource) : settled s s.
Proof. unfold settled. auto. Qed.

Lemma settled_trans (s1 s2 s3 : fetcher ACResource) :
  settled s1 s2 -> settled s2 s3 -> settled s1 s3.
Proof.
  intros (Ho1 & Hs1 & Hf1) (Ho2 & Hs2 & Hf2).
  split; [congruence|]. split; [congruence|].
  destruct Hf2 as [E2|(f2 & E2 & Hend2 & E2')].
  - rewrite E2. exact Hf1.
  - destruct Hf1 as [E1|(f1 & E1 & Hend1 & E1')].
    + right. exists f2. rewrite <- E1. auto.
    + rewrite E1' in E2. unfold VS in E2. injection E2 as <-.
      rewrite endswith_append in Hend2. discriminate.
Qed.

Lemma settled_same (s s' : fetcher ACResource) :
  ocount s' = ocount s -> saved s' = saved s -> filename s' = filename s ->
  settled s s'.
Proof. unfold settled. auto. Qed.

Lemma returns_settled_ret {A} (a : A) :
  returns_settled (ret (ACResource := ACResource) a).
Proof. intros s a' s' H. injection H as _ <-. apply settled_refl. Qed.

Lemma returns_settled_bind {A B} (m : M ACResource A) (k : A -> M ACResource B) :
  returns_settled m -> (forall a, returns_settled (k a)) ->
  returns_settled (bind m k).
Proof.
  intros Hm Hk s b s' H. unfold bind in H.
  destruct (m s) as [a s1|e s1] eqn:E; [|discriminate].
  eapply settled_trans; [eapply Hm; exact E | eapply Hk; exact H].
Qed.

Lemma returns_settled_for_each {A} (body : A -> M ACResource unit) l :
  (forall x, returns_settled (body x)) -> returns_settled (for_each body l).
Proof.
  intros H. induction l as [|x l IH]; simpl.
  - apply returns_settled_ret.
  - apply returns_settled_bind; [apply H | intros _; exact IH].
Qed.

Lemma returns_settled_parse_object objects rkey f :
  returns_settled
    (parse_object from_dict dump_yaml good_ambassador_id py_repr objects rkey f).
Proof.
  intros s a s' H. rewrite parse_object_steps in H.
  pose proof (process_objects_keeps_saved rkey objects
                (set_location f 1 ((filename s, ocount s) :: saved s) s)) as Hs.
  destruct (process_objects _ _ _ _ rkey objects _) as [[] s1|e s1];
    [|discriminate].
  simpl in Hs. unfold pop_location in H. rewrite Hs in H.
  injection H as _ <-. apply settled_same; reflexivity.
Qed.

Lemma returns_settled_fragments (result : option (string * list value)) :
  returns_settled
    (match result with
     | Some (rkey, parsed_objects) =>
         fun s' : fetcher ACResource =>
           parse_object from_dict dump_yaml good_ambassador_id py_repr
             parsed_objects (PStr rkey) (filename s') s'
     | None => ret tt
     end).
Proof.
  destruct result as [[rkey objs]|]; [|apply returns_settled_ret].
  intros s a s' H. eapply returns_settled_parse_object. exact H.
Qed.

Lemma returns_settled_handle_k8s_service obj :
  returns_settled
    (handle_k8s_service (ACResource := ACResource) parse_yaml_text Config obj).
Proof.
  intros s r s' H. unfold handle_k8s_service in H. cbv zeta in H.
  destruct (_ || _); [injection H as _ <-; apply settled_refl|].
  set (s1 := match ko_ports obj with [] => s | _ => _ end) in H.
  assert (H1 : settled s s1).
  { subst s1. destruct (ko_ports obj); apply settled_same; reflexivity. }
  clearbody s1.
  destruct (match ko_metadata obj with Some m => md_config m | None => None end)
    as [text|]; [|injection H as _ <-; exact H1].
  destruct (String.eqb text ""); [injection H as _ <-; exact H1|].
  destruct (filename s1) as [[|z|fn]|l|d] eqn:Ef; try discriminate;
    [injection H as _ <-; exact H1|].
  destruct (endswith fn ":annotation") eqn:Eend; simpl in H;
    injection H as _ <-; [exact H1|].
  eapply settled_trans; [exact H1|].
  split; [reflexivity|]. split; [reflexivity|].
  right. exists fn. rewrite Ef. auto.
Qed.

Lemma handle_k8s_secret_state obj (s : fetcher ACResource) r s' :
  handle_k8s_secret Config obj s = Ok r s' -> s' = s.
Proof.
  unfold handle_k8s_secret. cbv zeta.
  destruct (ko_data obj) as [data|]; [|intros H; injection H as _ <-; reflexivity].
  destruct (_ || _); [intros H; injection H as _ <-; reflexivity|].
  destruct (_ && _); intros H; injection H as _ <-; reflexivity.
Qed.

Lemma returns_settled_handle_k8s obj :
  returns_settled
    (handle_k8s from_dict dump_yaml good_ambassador_id parse_yaml_text py_repr
       Config obj).
Proof.
  intros s a s' H. unfold handle_k8s in H.
  destruct (ko_kind obj) as [|z|kind].
  - injection H as _ <-. apply settled_refl.
  - destruct (z =? 0); [|discriminate]. injection H as _ <-. apply settled_refl.
  - destruct (String.eqb kind ""); [injection H as _ <-; apply settled_refl|].
    cbv zeta in H.
    destruct (String.eqb (lower kind) "service").
    { revert H. apply returns_settled_bind;
        [apply returns_settled_handle_k8s_service|apply returns_settled_fragments]. }
    destruct (String.eqb (lower kind) "endpoints").
    { revert H. apply returns_settled_bind; [|apply returns_settled_fragments].
      intros s0 r s0' H0. injection H0 as _ <-. apply settled_same; reflexivity. }
    destruct (String.eqb (lower kind) "secret").
    { revert H. apply returns_settled_bind; [|apply returns_settled_fragments].
      intros s0 r s0' H0.
      rewrite (handle_k8s_secret_state obj s0 H0). apply settled_refl. }
    destruct (String.eqb (lower kind) "crd").
    + unfold handle_k8s_crd in H.
      destruct (negb (truthy (ko_kind obj)));
        [injection H as _ <-; apply settled_refl|].
      destruct (negb (truthy (resource_name_of (ko_metadata obj))));
        [injection H as _ <-; apply settled_refl|].
      destruct (negb (truthy (ko_apiVersion obj)));
        [injection H as _ <-; apply settled_refl|].
      eapply returns_settled_parse_object. exact H.
    + injection H as _ <-. apply settled_refl.
Qed.

Lemma returns_settled_decode_watt w :
  returns_settled
    (decode_watt from_dict dump_yaml good_ambassador_id parse_yaml_text py_repr
       Config w).
Proof.
  unfold decode_watt.
  apply returns_settled_bind.
  { apply returns_settled_for_each. intros key. apply returns_settled_for_each.
    apply returns_settled_handle_k8s. }
  intros _. apply returns_settled_bind.
  { apply returns_settled_for_each. intros key. apply returns_settled_for_each.
    intros obj s a s' H. unfold handle_k8s_crd in H.
    destruct (negb (truthy (ko_kind obj)));
      [injection H as _ <-; apply settled_refl|].
    destruct (negb (truthy (resource_name_of (ko_metadata obj))));
      [injection H as _ <-; apply settled_refl|].
    destruct (negb (truthy (ko_apiVersion obj)));
      [injection H as _ <-; apply settled_refl|].
    eapply returns_settled_parse_object. exact H. }
  intros _. apply returns_settled_for_each. intros [rkey o].
  apply returns_settled_bind; [|apply returns_settled_fragments].
  intros s r s' H. unfold handle_consul_service in H.
  destruct (consul_service rkey o) as [e|[[key svc]|]]; [discriminate| |];
    injection H as _ <-; apply settled_same; reflexivity.
Qed.

Lemma finalize_location s a s' :
  finalize from_dict dump_yaml Config s = Ok a s' ->
  ocount s' = ocount s /\ saved s' = saved s /\ filename s' = filename s.
Proof.
  unfold finalize. cbv zeta.
  set (svcs := resolve_services _ _ _ _).
  assert (H0 : forall items (s0 s1 : fetcher ACResource) u,
             for_each (emit_service from_dict dump_yaml) items s0 = Ok u s1 ->
             ocount s1 = ocount s0 /\ saved s1 = saved s0
             /\ filename s1 = filename s0).
  { induction items as [|[k v] items IH]; intros s0 s1 u H; simpl in H.
    - injection H as _ <-. auto.
    - unfold bind, emit_service in H.
      destruct (from_dict k k (dump_yaml v) v) as [r|args]; [|discriminate].
      apply IH in H. simpl in H. exact H. }
  intros H. apply H0 in H. simpl in H. exact H.
Qed.

(** X20: a call of [parse_watt] that returns, with or without [finalize],
    leaves the ordinal and the stack of saved locations as it found them;
    the source label is the one it found, or that label with the marker
    [:annotation] added once (by an annotated Service).  Pragma objects in
    annotations change the label only until their batch ends. *)
Theorem parse_watt_settles_location :
  forall (ignore_crds ignore_crds_2 : bool) (w : option watt)
         (do_finalize : bool) (s s' : fetcher ACResource),
    parse_watt from_dict dump_yaml good_ambassador_id parse_yaml_text py_repr
      Config ignore_crds ignore_crds_2 w do_finalize s
    = Ok tt s' ->
    ocount s' = ocount s
    /\ saved s' = saved s
    /\ (filename s' = filename s
        \/ exists f, filename s = VS f
                     /\ endswith f ":annotation" = false
                     /\ filename s' = VS (f ++ ":annotation")).
Proof.
  intros ic ic2 w fin s s' H.
  change (settled s s').
  unfold parse_watt, bind, modify in H.
  set (s0 := if ic2 then _ else _) in H.
  assert (H0 : settled s s0).
  { subst s0. destruct ic, ic2; apply settled_same; reflexivity. }
  clearbody s0.
  assert (Hfin : forall s1 : fetcher ACResource,
             (if fin then finalize from_dict dump_yaml Config else ret tt) s1
             = Ok tt s' -> settled s1 s').
  { intros s1 Hf. destruct fin.
    - apply finalize_location in Hf. apply settled_same; tauto.
    - injection Hf as <-. apply settled_refl. }
  destruct w as [w0|].
  - destruct (decode_watt from_dict dump_yaml good_ambassador_id parse_yaml_text
                py_repr Config w0 s0) as [[] s1|e s1] eqn:E; [|discriminate].
    eapply settled_trans; [exact H0|].
    eapply settled_trans; [eapply returns_settled_decode_watt; exact E|].
    apply Hfin. exact H.
  - eapply settled_trans; [exact H0|].
    eapply settled_trans; [|apply Hfin; exact H].
    apply settled_same; reflexivity.
Qed.

End FetcherMore.

(** ** Worked examples for the further properties *)

Lemma crd_resource_keeps_identity_example :
  vget (crd_resource mapping_crd) "kind" = Some (VS "Mapping")
  /\ aget (crd_resource mapping_crd) (PStr "prefix") = Some (VS "/web/").
Proof.
  pose proof (crd_resource_keeps_identity sample_from_dict sample_dump_yaml
                sample_good_id sample_repr mapping_crd sample_init
                eq_refl eq_refl eq_refl) as (_ & Hk & _ & _ & Hother).
  split; [exact Hk|].
  exact (Hother (PStr "prefix") ltac:(discriminate) ltac:(discriminate)
           ltac:(discriminate)).
Defined.

Lemma annotation_marker_added_once_example :
  exists r s',
    handle_k8s_service sample_parse_yaml sample_config annotated_service
      reading_state
    = Ok r s'
    /\ filename s' = VS "demo.yaml:annotation"
    /\ (exists f', filename s' = VS f' /\ endswith f' ":annotation" = true)
    /\ ocount s' = ocount reading_state
    /\ saved s' = saved reading_state.
Proof.
  refine (@annotation_marker_added_once _ sample_parse_yaml sample_config
            annotated_service
            {| md_name := PStr "web"; md_namespace := None;
               md_config := Some "---" |}
            "---" "demo.yaml" reading_state
            eq_refl eq_refl eq_refl eq_refl _ eq_refl).
  discriminate.
Defined.

(** A dictionary without a kind whose keys do not sort: the diagnostic
    is never posted. *)
Lemma process_object_raises_only_example :
  process_object sample_from_dict sample_dump_yaml sample_good_id sample_repr
    mixed_keys PNone sample_init
  = Raise TypeError sample_init.
Proof.
  apply (proj2 (@process_object_raises_only _ sample_from_dict
                  sample_dump_yaml sample_good_id sample_repr mixed_keys
                  PNone sample_init sample_init TypeError)).
  split; [reflexivity|]. right. eexists. split; [reflexivity|].
  split; [reflexivity|]. left. repeat split.
Defined.

Lemma pragma_takes_no_ordinal_example :
  parse_object sample_from_dict sample_dump_yaml sample_good_id sample_repr
    [some_pragma; some_mapping] PNone (VS "demo.yaml") sample_init
  = parse_object sample_from_dict sample_dump_yaml sample_good_id sample_repr
      [some_mapping] PNone (VS "service web") sample_init.
Proof.
  refine (@pragma_takes_no_ordinal _ sample_from_dict sample_dump_yaml
            sample_good_id sample_repr some_pragma [some_mapping] PNone
            (VS "demo.yaml") sample_init _).
  eexists. exists (VS "Pragma").
  split; [reflexivity|]. repeat split.
Defined.

(** The Mapping after the Pragma is the first object of [service web]. *)
Lemma pragma_renames_the_source :
  exists s',
    parse_object sample_from_dict sample_dump_yaml sample_good_id sample_repr
      [some_pragma; some_mapping] PNone (VS "demo.yaml") sample_init
    = Ok tt s'
    /\ elements s' = [(PStr "service web.1", some_mapping)].
Proof. eexists. split; reflexivity. Qed.

Lemma batch_keys_are_numbered_example :
  parse_object sample_from_dict sample_dump_yaml sample_good_id sample_repr
    [some_mapping; other_mapping] PNone (VS "demo.yaml") sample_init
  = Ok tt
      (set_elements
         (elements sample_init
          ++ [(PStr "demo.yaml.1", some_mapping);
              (PStr "demo.yaml.2", other_mapping)])
         sample_init).
Proof.
  refine (@batch_keys_are_numbered _ sample_from_dict sample_dump_yaml
            sample_good_id sample_repr [some_mapping; other_mapping] PNone
            (VS "demo.yaml") sample_init
            [(PStr "demo.yaml.1", some_mapping);
             (PStr "demo.yaml.2", other_mapping)] _ eq_refl).
  repeat constructor;
    (eexists; split; [reflexivity|]; intros _; exists (VS "Mapping");
     repeat split).
Defined.

Lemma finalize_failure_is_partial_example :
  finalize picky_from_dict sample_dump_yaml sample_config two_services_state
  = Raise (ConstructionError [VS "no datacenter, please"])
      (set_elements
         (elements two_services_state ++ [(PStr "plain", declared_service)])
         (set_services
            (resolve_services sample_config (k8s_endpoints two_services_state)
               (Dict.items (k8s_services two_services_state))
               (services two_services_state))
            two_services_state)).
Proof.
  exact (@finalize_failure_is_partial _ picky_from_dict sample_dump_yaml
           sample_config two_services_state
           [(PStr "plain", declared_service)] []
           (PStr "consul-db-dc2") consul_d_value
           [(PStr "plain", declared_service)]
           [VS "no datacenter, please"] eq_refl eq_refl eq_refl).
Defined.

Lemma snapshot_read_under_known_kinds_example :
  decode_watt sample_from_dict sample_dump_yaml sample_good_id
    sample_parse_yaml sample_repr sample_config mixed_snapshot reading_state
  = decode_watt sample_from_dict sample_dump_yaml sample_good_id
      sample_parse_yaml sample_repr sample_config mixed_snapshot_known
      reading_state.
Proof.
  refine (@snapshot_read_under_known_kinds _ sample_from_dict sample_dump_yaml
            sample_good_id sample_parse_yaml sample_repr sample_config
            mixed_snapshot mixed_snapshot_known reading_state _ eq_refl).
  intros key Hin. simpl in Hin.
  repeat (destruct Hin as [<-|Hin]; [reflexivity|]). destruct Hin.
Defined.

Lemma parse_watt_settles_location_example :
  ocount decoded_state = 1
  /\ saved decoded_state = []
  /\ (filename decoded_state = VS "demo.yaml"
      \/ exists f, VS "demo.yaml" = VS f
                   /\ endswith f ":annotation" = false
                   /\ filename decoded_state = VS (f ++ ":annotation")).
Proof.
  refine (@parse_watt_settles_location _ sample_from_dict sample_dump_yaml
            sample_good_id pragma_parse_yaml sample_repr sample_config
            false false (Some mixed_snapshot) false reading_state
            decoded_state _).
  vm_compute. reflexivity.
Defined.

(** The label the example ends with, and what it decoded: the Pragma of the
    annotation is forgotten, the marker stays. *)
Lemma decoded_state_label :
  filename decoded_state = VS "demo.yaml:annotation"
  /\ map fst (elements decoded_state)
     = [PStr "web.default.1"; PStr "web-mapping.default.1"].
Proof. split; vm_compute; reflexivity. Qed.

(** ** What a finished [finalize] has emitted *)

Section FinalizeOutput.

Variable ACResource : Type.
Variable from_dict : atom -> atom -> string -> value -> construction ACResource.
Variable dump_yaml : value -> string.
Variable Config : config.

Lemma construct_all_length items :
  forall rs : list ACResource,
    construct_all from_dict dump_yaml items = Built rs ->
    List.length rs = List.length items.
Proof.
  induction items as [|[k v] items IH]; intros rs H; simpl in H.
  - injection H as <-. reflexivity.
  - destruct (from_dict k k (dump_yaml v) v) as [r|args]; [|discriminate].
    destruct (construct_all from_dict dump_yaml items) as [rs'|args];
      [|discriminate].
    injection H as <-. simpl. f_equal. apply IH. reflexivity.
Qed.

Lemma resolve_services_has_key eps items :
  forall svcs key k8s_svc,
    In (key, k8s_svc) items ->
    In (service_key k8s_svc)
       (Dict.keys (resolve_services Config eps items svcs)).
Proof.
  induction items as [|[key0 svc0] items IH]; intros svcs key svc Hin;
    [destruct Hin|].
  simpl. destruct Hin as [E|Hin].
  - injection E as -> ->.
    destruct (resolve_services_keeps_order Config eps items
                (aset svcs (service_key svc)
                   (service_value Config (resolve_service eps key svc))))
      as [new Hnew].
    rewrite Hnew. apply in_or_app. left.
    eapply get_in_keys. apply get_set_same.
  - apply IH with (key := key). exact Hin.
Qed.

(** X21: when [finalize] returns, every staged Kubernetes service has an
    entry in [services] under [k8s-<name>-<namespace>], the staging tables
    are as they were, and [elements] has grown by exactly one resource for
    each entry of [services], Kubernetes, Consul and directly declared
    alike. *)
Theorem finalize_emits_every_service :
  forall (s s' : fetcher ACResource),
    finalize from_dict dump_yaml Config s = Ok tt s' ->
    (forall key k8s_svc,
        In (key, k8s_svc) (Dict.items (k8s_services s)) ->
        In (service_key k8s_svc) (Dict.keys (services s')))
    /\ k8s_services s' = k8s_services s
    /\ k8s_endpoints s' = k8s_endpoints s
    /\ List.length (elements s')
       = (List.length (elements s) + List.length (services s'))%nat.
Proof.
  intros s s' H. destruct (finalize_ok _ _ _ _ H) as [emitted [Hc ->]].
  simpl. split; [|split; [reflexivity|split; [reflexivity|]]].
  - intros key svc Hin. apply resolve_services_has_key with (key := key).
    exact Hin.
  - rewrite length_app. f_equal.
    apply construct_all_length in Hc. exact Hc.
Qed.

End FinalizeOutput.

Lemma finalize_emits_every_service_example :
  (forall key k8s_svc,
      In (key, k8s_svc) (Dict.items (k8s_services staged_state)) ->
      In (service_key k8s_svc) (Dict.keys (services finalized_state)))
  /\ k8s_services finalized_state = k8s_services staged_state
  /\ k8s_endpoints finalized_state = k8s_endpoints staged_state
  /\ List.length (elements finalized_state)
     = (List.length (elements staged_state)
        + List.length (services finalized_state))%nat.
Proof.
  exact (@finalize_emits_every_service _ sample_from_dict sample_dump_yaml
           sample_config staged_state finalized_state eq_refl).
Defined.

(** ** The Consul decoder: the entry it stores *)

Section ConsulEntry.

Variable ACResource : Type.
Variable Config : config.

(** X22: for a Consul catalog entry with at least one endpoint, in which
    every endpoint that lacks an address or a port has an [ID] key, the
    decoder returns no fragments and changes the state in one place only:
    [services] gets one entry under [consul-<name>-<datacenter>], with the
    name taken from [Service] (the catalog key when that is absent) and
    the datacenter from [Id] (dc1 when that is unset).  The entry is the
    Service dictionary written out below: its endpoints map holds, under
    the one key ['*'], the endpoints that have both an address and a port,
    in their order, each as [ip], [port] and the mark [Consul]; the others
    are left out, and the map is empty when all are. *)
Theorem consul_entry_written :
  forall (consul_rkey : string) (o : consul_object) (s : fetcher ACResource),
    co_Endpoints o <> [] ->
    (forall ep, In ep (co_Endpoints o) ->
                has_address_and_port ep = false -> ce_ID ep <> None) ->
    let name :=
      match co_Service o with Some n => n | None => PStr consul_rkey end in
    let datacenter := if truthy (co_Id o) then co_Id o else PStr "dc1" in
    let key := PStr ("consul-" ++ py_str name ++ "-" ++ py_str datacenter) in
    let target (ep : consul_endpoint) :=
      VDict [(PStr "ip", VAtom (ce_Address ep));
             (PStr "port", VAtom (ce_Port ep));
             (PStr "target_kind", VAtom (PStr "Consul"))] in
    let entry :=
      VDict [(PStr "apiVersion", VAtom (PStr "ambassador/v1"));
             (PStr "ambassador_id", ambassador_id Config);
             (PStr "kind", VAtom (PStr "Service"));
             (PStr "name", VAtom name);
             (PStr "datacenter", VAtom datacenter);
             (PStr "endpoints",
              VDict match filter has_address_and_port (co_Endpoints o) with
                    | [] => []
                    | usable => [(PStr "*", VList (map target usable))]
                    end)] in
    exists s',
      handle_consul_service Config consul_rkey o s = Ok None s'
      /\ services s' = aset (services s) key entry
      /\ aget (services s') key = Some entry
      /\ (forall k, k <> key -> aget (services s') k = aget (services s) k)
      /\ elements s' = elements s
      /\ k8s_endpoints s' = k8s_endpoints s
      /\ k8s_services s' = k8s_services s
      /\ errors s' = errors s
      /\ filename s' = filename s
      /\ ocount s' = ocount s
      /\ saved s' = saved s.
Proof.
  intros rkey o s Hne Hids name datacenter key target entry.
  assert (Hlen : (List.length (co_Endpoints o) <? 1)%nat = false).
  { destruct (co_Endpoints o); [congruence | reflexivity]. }
  unfold handle_consul_service, consul_service. rewrite Hlen.
  rewrite consul_endpoints_from_empty.
  rewrite (skipped_without_id_none _ Hids).
  eexists. split; [reflexivity|].
  cbn [services set_services elements k8s_endpoints k8s_services errors
       filename ocount saved].
  set (v := consul_value _ _).
  assert (Hentry : v = entry).
  { subst v entry. unfold consul_value, consul_survivors. cbn [cs_name
      cs_datacenter cs_endpoints Dict.items].
    destruct (filter has_address_and_port (co_Endpoints o)) as [|ep eps];
      [reflexivity|].
    cbn [map]. unfold consul_target_value at 1. cbn [ct_ip ct_port
      ct_target_kind consul_target_of].
    rewrite map_map. reflexivity. }
  rewrite Hentry. cbn [cs_datacenter].
  change (PStr ("consul-" ++ py_str (consul_name rkey o) ++ "-"
                ++ py_str (py_or (co_Id o) (PStr "dc1")))%string) with key.
  split; [reflexivity|]. split; [apply get_set_same|].
  split; [intros k Hk; apply get_set_other; exact Hk|].
  repeat split.
Qed.

End ConsulEntry.

(** Scenario D: one entry keyed [consul-db-dc2], both endpoints under
    ['*'], nothing else touched. *)
Lemma consul_entry_written_example :
  exists s',
    handle_consul_service sample_config "db" scenario_d sample_init
    = Ok None s'
    /\ services s'
       = [(PStr "consul-db-dc2",
           VDict [(PStr "apiVersion", VAtom (PStr "ambassador/v1"));
                  (PStr "ambassador_id", ambassador_id sample_config);
                  (PStr "kind", VAtom (PStr "Service"));
                  (PStr "name", VAtom (PStr "db"));
                  (PStr "datacenter", VAtom (PStr "dc2"));
                  (PStr "endpoints",
                   VDict [(PStr "*",
                           VList [VDict [(PStr "ip", VAtom (PStr "10.1.0.1"));
                                         (PStr "port", VAtom (PInt 9000));
                                         (PStr "target_kind",
                                          VAtom (PStr "Consul"))];
                                  VDict [(PStr "ip", VAtom (PStr "10.1.0.2"));
                                         (PStr "port", VAtom (PInt 9000));
                                         (PStr "target_kind",
                                          VAtom (PStr "Consul"))]])])])]
    /\ elements s' = [].
Proof.
  destruct (@consul_entry_written sample_resource sample_config "db"
              scenario_d sample_init)
    as (s' & Hrun & Hsvc & _ & _ & Hel & _).
  - discriminate.
  - intros ep [<-|[<-|[]]] H; discriminate.
  - exists s'. split; [exact Hrun|]. split; [exact Hsvc | exact Hel].
Defined.

(** ** Order of the output *)

Section OutputOrder.

Variable ACResource : Type.
Variable from_dict : atom -> atom -> string -> value -> construction ACResource.
Variable dump_yaml : value -> string.
Variable good_ambassador_id : value -> bool.
Variable parse_yaml_text : string -> option (list value).
Variable py_repr : value -> string.
Variable Config : config.

Lemma process_object_built obj rkey (s s' : fetcher ACResource) :
  process_object from_dict dump_yaml good_ambassador_id py_repr obj rkey s
  = Ok tt s' ->
  exists c, built_from from_dict dump_yaml obj c
            /\ elements s' = elements s ++ c.
Proof.
  unfold process_object. intros H.
  assert (Hnone : forall s0 : fetcher ACResource,
             Ok tt s0 = Ok tt s' -> elements s0 = elements s ->
             exists c, built_from from_dict dump_yaml obj c
                       /\ elements s' = elements s ++ c).
  { intros s0 E Hel. injection E as <-. exists [].
    split; [left; reflexivity|]. rewrite app_nil_r. exact Hel. }
  destruct obj as [a|l|d].
  - destruct (negb (truthy_value (VAtom a)));
      [eapply Hnone; [exact H | reflexivity]|].
    destruct (json_dumps_returns (VAtom a));
      [eapply Hnone; [exact H | reflexivity] | discriminate].
  - destruct (negb (truthy_value (VList l)));
      [eapply Hnone; [exact H | reflexivity]|].
    destruct (json_dumps_returns (VList l));
      [eapply Hnone; [exact H | reflexivity] | discriminate].
  - destruct (negb (good_ambassador_id (VDict d)));
      [eapply Hnone; [exact H | reflexivity]|].
    destruct (vget d "kind") as [kind|].
    2:{ destruct (json_dumps_returns (VDict d));
          [eapply Hnone; [exact H | reflexivity] | discriminate]. }
    destruct (value_is_str kind "Pragma");
      [eapply Hnone; [exact H | reflexivity]|].
    destruct (value_is_str kind "Service").
    + destruct (vget d "name") as [[name|?|?]|]; try discriminate.
      eapply Hnone; [exact H | reflexivity].
    + destruct (from_dict _ _ _ _) as [r|[|arg args]] eqn:Hfd;
        [|discriminate|eapply Hnone; [exact H | reflexivity]].
      injection H as <-. exists [r]. split; [|reflexivity].
      right. eexists. exists r. split; [reflexivity | exact Hfd].
Qed.

Lemma process_objects_built rkey objects :
  forall s s' : fetcher ACResource,
    process_objects from_dict dump_yaml good_ambassador_id py_repr rkey
      objects s
    = Ok tt s' ->
    exists built,
      Forall2 (built_from from_dict dump_yaml) objects built
      /\ elements s' = elements s ++ List.concat built.
Proof.
  induction objects as [|obj objects IH]; intros s s' H.
  - injection H as <-. exists []. split; [constructor|].
    simpl. rewrite app_nil_r. reflexivity.
  - unfold process_objects in *. cbn [for_each] in H.
    unfold bind at 1 in H. unfold bind at 1 in H.
    destruct (process_object _ _ _ _ obj rkey s) as [[] s1|e s1] eqn:E;
      [|discriminate].
    unfold modify in H.
    destruct (process_object_built _ _ _ E) as [c [Hc Hel]].
    apply IH in H. destruct H as [built [Hb Hel2]].
    exists (c :: built). split; [constructor; assumption|].
    simpl in Hel2. simpl. rewrite Hel2, Hel, app_assoc. reflexivity.
Qed.

Lemma parse_object_built objects rkey f (s s' : fetcher ACResource) :
  parse_object from_dict dump_yaml good_ambassador_id py_repr objects rkey f s
  = Ok tt s' ->
  exists built,
    Forall2 (built_from from_dict dump_yaml) objects built
    /\ elements s' = elements s ++ List.concat built.
Proof.
  rewrite parse_object_steps. intros H.
  destruct (process_objects _ _ _ _ rkey objects _) as [[] s1|e s1] eqn:E;
    [|discriminate].
  apply process_objects_built in E. destruct E as [built [Hb Hel]].
  exists built. split; [exact Hb|].
  unfold pop_location in H.
  destruct (saved s1) as [|[f0 n0] rest]; [discriminate|].
  injection H as <-. simpl in *. exact Hel.
Qed.

Lemma for_each_app {A} (body : A -> M ACResource unit) l1 l2 :
  forall s,
    for_each body (l1 ++ l2) s
    = bind (for_each body l1) (fun _ => for_each body l2) s.
Proof.
  induction l1 as [|x l1 IH]; intros s; simpl; [reflexivity|].
  unfold bind. destruct (body x s) as [[] s1|e s1]; [|reflexivity].
  rewrite IH. reflexivity.
Qed.

Lemma for_each_flat_map {A B} (body : B -> M ACResource unit)
    (f : A -> list B) l :
  forall s,
    for_each (fun x => for_each body (f x)) l s
    = for_each body (flat_map f l) s.
Proof.
  induction l as [|x l IH]; intros s; simpl; [reflexivity|].
  rewrite for_each_app. unfold bind.
  destruct (for_each body (f x) s) as [[] s1|e s1]; [apply IH | reflexivity].
Qed.

Lemma for_each_map {A B} (body : B -> M ACResource unit) (g : A -> B) l :
  forall s,
    for_each (fun x => body (g x)) l s = for_each body (map g l) s.
Proof.
  induction l as [|x l IH]; intros s; simpl; [reflexivity|].
  unfold bind. destruct (body (g x) s) as [[] s1|e s1];
    [apply IH | reflexivity].
Qed.

(** [decode_watt] is one pass over the source objects of the snapshot. *)
Lemma decode_watt_sources w (s : fetcher ACResource) :
  decode_watt from_dict dump_yaml good_ambassador_id parse_yaml_text py_repr
    Config w s
  = for_each
      (handle_source from_dict dump_yaml good_ambassador_id parse_yaml_text
         py_repr Config)
      (watt_sources w) s.
Proof.
  unfold decode_watt, watt_sources.
  set (h := handle_source from_dict dump_yaml good_ambassador_id
              parse_yaml_text py_repr Config).
  assert (E1 : forall s0,
             for_each
               (fun key =>
                  for_each
                    (handle_k8s from_dict dump_yaml good_ambassador_id
                       parse_yaml_text py_repr Config)
                    (watt_objects w key))
               watt_k8s_kinds s0
             = for_each h
                 (map KubernetesObject
                    (flat_map (watt_objects w) watt_k8s_kinds)) s0).
  { intros s0. rewrite for_each_flat_map.
    rewrite <- (for_each_map h KubernetesObject). reflexivity. }
  assert (E2 : forall s0,
             for_each
               (fun key =>
                  for_each
                    (handle_k8s_crd from_dict dump_yaml good_ambassador_id
                       py_repr)
                    (watt_objects w key))
               watt_crd_kinds s0
             = for_each h
                 (map CrdObject (flat_map (watt_objects w) watt_crd_kinds))
                 s0).
  { intros s0. rewrite for_each_flat_map.
    rewrite <- (for_each_map h CrdObject). reflexivity. }
  rewrite !for_each_app. unfold bind. rewrite E1.
  destruct (for_each h _ s) as [[] s1|e s1]; [|reflexivity].
  rewrite E2, for_each_app. unfold bind.
  destruct (for_each h _ s1) as [[] s2|e s2]; [|reflexivity].
  rewrite <- for_each_map. apply for_each_ext.
  intros [rkey o] _ s3. reflexivity.
Qed.

Lemma for_each_in_source_order {A} (handle : A -> M ACResource unit) l :
  (forall x, appends_only (handle x)) ->
  forall s s',
    for_each handle l s = Ok tt s' ->
    exists built, in_source_order handle l s built s'.
Proof.
  intros Happ. induction l as [|x l IH]; intros s s' H; simpl in H.
  - injection H as <-. exists []. reflexivity.
  - unfold bind in H. pose proof (Happ x s) as Hx.
    destruct (handle x s) as [[] s1|e s1] eqn:E; [|discriminate].
    destruct Hx as [c Hc]. destruct (IH _ _ H) as [built Hb].
    exists (c :: built). simpl. exists s1. auto.
Qed.

Lemma in_source_order_elements {A} (handle : A -> M ACResource unit) l :
  forall s built s',
    in_source_order handle l s built s' ->
    elements s' = elements s ++ List.concat built.
Proof.
  induction l as [|x l IH]; intros s [|c built] s' H; simpl in H;
    try contradiction.
  - subst. simpl. rewrite app_nil_r. reflexivity.
  - destruct H as (s1 & _ & Hc & Hrest). apply IH in Hrest.
    rewrite Hrest, Hc. simpl. rewrite app_assoc. reflexivity.
Qed.

Lemma appends_only_handle_source src :
  appends_only
    (handle_source from_dict dump_yaml good_ambassador_id parse_yaml_text
       py_repr Config src).
Proof.
  destruct src as [obj|obj|rkey o]; cbn [handle_source].
  - apply appends_only_handle_k8s.
  - apply appends_only_handle_k8s_crd.
  - apply appends_only_bind;
      [apply appends_only_handle_consul_service | apply appends_only_fragments].
Qed.

Lemma handler_keeps_elements obj (s s0 : fetcher ACResource) result :
  handle_k8s_service parse_yaml_text Config obj s = Ok result s0
  \/ handle_k8s_endpoints Config obj s = Ok result s0
  \/ handle_k8s_secret Config obj s = Ok result s0 ->
  elements s0 = elements s.
Proof.
  intros [H|[H|H]].
  - unfold handle_k8s_service in H. cbv zeta in H.
    destruct (_ || _); [injection H as _ <-; reflexivity|].
    set (s1 := match ko_ports obj with [] => s | _ => _ end) in H.
    assert (H1 : elements s1 = elements s).
    { subst s1. destruct (ko_ports obj); reflexivity. }
    clearbody s1.
    destruct (match ko_metadata obj with Some m => md_config m | None => None end)
      as [text|]; [|injection H as _ <-; exact H1].
    destruct (String.eqb text ""); [injection H as _ <-; exact H1|].
    destruct (filename s1) as [[|z|fn]|l|d]; try discriminate;
      [injection H as _ <-; exact H1|].
    destruct (negb (endswith fn ":annotation")); injection H as _ <-;
      exact H1.
  - injection H as _ <-. reflexivity.
  - apply handle_k8s_secret_state in H. subst s0. reflexivity.
Qed.

Lemma fragments_built (result : option (string * list value))
    (s0 s1 : fetcher ACResource) :
  match result with
  | Some (rkey, parsed_objects) =>
      fun s' : fetcher ACResource =>
        parse_object from_dict dump_yaml good_ambassador_id py_repr
          parsed_objects (PStr rkey) (filename s') s'
  | None => ret tt
  end s0 = Ok tt s1 ->
  exists built,
    Forall2 (built_from from_dict dump_yaml) (returned_fragments result) built
    /\ elements s1 = elements s0 ++ List.concat built.
Proof.
  destruct result as [[rkey objs]|]; intros H.
  - apply parse_object_built in H. exact H.
  - injection H as <-. exists []. split; [constructor|].
    simpl. rewrite app_nil_r. reflexivity.
Qed.

Lemma handle_k8s_crd_built obj (s s1 : fetcher ACResource) :
  handle_k8s_crd from_dict dump_yaml good_ambassador_id py_repr obj s
  = Ok tt s1 ->
  exists objects built,
    (objects = [VDict (crd_resource obj)] \/ objects = [])
    /\ Forall2 (built_from from_dict dump_yaml) objects built
    /\ elements s1 = elements s ++ List.concat built.
Proof.
  assert (Hnone : Ok tt s = Ok tt s1 ->
                  exists objects built,
                    (objects = [VDict (crd_resource obj)] \/ objects = [])
                    /\ Forall2 (built_from from_dict dump_yaml) objects built
                    /\ elements s1 = elements s ++ List.concat built).
  { intros E. injection E as <-. exists [], [].
    split; [right; reflexivity|]. split; [constructor|].
    simpl. rewrite app_nil_r. reflexivity. }
  unfold handle_k8s_crd. cbv zeta.
  destruct (negb (truthy (ko_kind obj))); [exact Hnone|].
  destruct (negb (truthy (resource_name_of (ko_metadata obj))));
    [exact Hnone|].
  destruct (negb (truthy (ko_apiVersion obj))); [exact Hnone|].
  intros H. apply parse_object_built in H. destruct H as [built [Hb Hel]].
  exists [VDict (crd_resource obj)], built.
  split; [left; reflexivity|]. split; [exact Hb | exact Hel].
Qed.

Lemma handle_source_built src (s s1 : fetcher ACResource) :
  handle_source from_dict dump_yaml good_ambassador_id parse_yaml_text py_repr
    Config src s
  = Ok tt s1 ->
  exists objects built,
    source_objects parse_yaml_text Config src s objects
    /\ Forall2 (built_from from_dict dump_yaml) objects built
    /\ elements s1 = elements s ++ List.concat built.
Proof.
  assert (Hnone : forall src0,
             match src0 with
             | KubernetesObject _ | CrdObject _ | ConsulEntry _ _ => True
             end ->
             elements s1 = elements s ->
             exists objects built,
               source_objects parse_yaml_text Config src0 s objects
               /\ Forall2 (built_from from_dict dump_yaml) objects built
               /\ elements s1 = elements s ++ List.concat built).
  { intros src0 _ Hel. exists [], [].
    split; [destruct src0; simpl; auto|]. split; [constructor|].
    simpl. rewrite app_nil_r. exact Hel. }
  assert (Hrun : forall obj handler,
             (forall result s0,
                 handler obj s = Ok result s0 ->
                 handle_k8s_service parse_yaml_text Config obj s
                 = Ok result s0
                 \/ handle_k8s_endpoints Config obj s = Ok result s0
                 \/ handle_k8s_secret Config obj s = Ok result s0) ->
             bind (handler obj)
               (fun result =>
                  match result with
                  | Some (rkey, parsed_objects) =>
                      fun s' : fetcher ACResource =>
                        parse_object from_dict dump_yaml good_ambassador_id
                          py_repr parsed_objects (PStr rkey) (filename s') s'
                  | None => ret tt
                  end) s = Ok tt s1 ->
             exists objects built,
               source_objects parse_yaml_text Config (KubernetesObject obj)
                 s objects
               /\ Forall2 (built_from from_dict dump_yaml) objects built
               /\ elements s1 = elements s ++ List.concat built).
  { intros obj handler Hh H. unfold bind in H.
    case_eq (handler obj s); [intros result s0 E | intros e s0 E];
      rewrite E in H; [|discriminate].
    apply Hh in E. apply fragments_built in H.
    destruct H as [built [Hb Hel]].
    exists (returned_fragments result), built.
    split; [left; exists result, s0; auto|]. split; [exact Hb|].
    rewrite Hel, (handler_keeps_elements E). reflexivity. }
  destruct src as [obj|obj|rkey o]; cbn [handle_source]; intros H.
  - unfold handle_k8s in H.
    destruct (ko_kind obj) as [|z|kind].
    + injection H as <-. apply (Hnone (KubernetesObject obj) I eq_refl).
    + destruct (z =? 0); [|discriminate].
      injection H as <-. apply (Hnone (KubernetesObject obj) I eq_refl).
    + destruct (String.eqb kind "");
        [injection H as <-; apply (Hnone (KubernetesObject obj) I eq_refl)|].
      cbv zeta in H.
      destruct (String.eqb (lower kind) "service").
      { revert H. apply Hrun. auto. }
      destruct (String.eqb (lower kind) "endpoints").
      { revert H. apply Hrun. auto. }
      destruct (String.eqb (lower kind) "secret").
      { revert H. apply Hrun. auto. }
      destruct (String.eqb (lower kind) "crd").
      * apply handle_k8s_crd_built in H.
        destruct H as (objects & built & [->| ->] & Hb & Hel);
          eexists; exists built; (split; [|split; eassumption]); simpl; auto.
      * injection H as <-. apply (Hnone (KubernetesObject obj) I eq_refl).
  - apply handle_k8s_crd_built in H.
    destruct H as (objects & built & Ho & Hb & Hel).
    exists objects, built. auto.
  - unfold bind in H.
    destruct (handle_consul_service Config rkey o s) as [result s0|e s0] eqn:E;
      [|discriminate].
    unfold handle_consul_service in E.
    destruct (consul_service rkey o) as [e|[[key svc]|]]; [discriminate| |];
      injection E as <- <-; injection H as <-;
      apply (Hnone (ConsulEntry rkey o) I eq_refl).
Qed.

Lemma resolve_services_new_keys eps items :
  forall svcs,
    Dict.keys (resolve_services Config eps items svcs)
    = Dict.keys svcs ++ new_keys (Dict.keys svcs) (staged_keys items).
Proof.
  induction items as [|[key svc] items IH]; intros svcs.
  - simpl. rewrite app_nil_r. reflexivity.
  - unfold staged_keys. cbn [resolve_services map snd new_keys].
    fold (staged_keys items). rewrite IH. unfold aset.
    destruct (in_dec atom_eq_dec (service_key svc) (Dict.keys svcs))
      as [Hin|Hnin].
    + rewrite keys_set_in by exact Hin. reflexivity.
    + rewrite keys_set_notin by exact Hnin. rewrite <- app_assoc.
      reflexivity.
Qed.

(** C7, as the code has it.  The resources of a batch of application
    resources come out in the order of its objects, at most one for each,
    built from that object; the resources of one source object of a
    snapshot are those of the batch its handler hands back, in that
    order.  The source objects of a snapshot are handled one after the
    other in the order [parse_watt] meets them, each adding its resources
    at the end of [elements], and [finalize] adds its resources after all
    of them.  The finalizer's resources are one per
    entry of the [services] table, in the order of the table's keys: the
    keys stored while decoding (directly declared and Consul services)
    keep their places, and the keys of the staged Kubernetes services that
    are new come after them in [k8s_services] order; this need not be the
    order in which the source objects were met. *)
Theorem finalizer_resources_come_last :
  (forall obj rkey (s : fetcher ACResource),
      match process_object from_dict dump_yaml good_ambassador_id py_repr
              obj rkey s with
      | Ok _ s' | Raise _ s' =>
          exists l, grows_by s s' l /\ (List.length l <= 1)%nat
      end)
  /\ (forall src,
        appends_only
          (handle_source from_dict dump_yaml good_ambassador_id
             parse_yaml_text py_repr Config src))
  /\ (forall objects rkey f (s s' : fetcher ACResource),
        parse_object from_dict dump_yaml good_ambassador_id py_repr
          objects rkey f s
        = Ok tt s' ->
        exists built,
          Forall2 (built_from from_dict dump_yaml) objects built
          /\ elements s' = elements s ++ List.concat built)
  /\ (forall src (s s1 : fetcher ACResource),
        handle_source from_dict dump_yaml good_ambassador_id parse_yaml_text
          py_repr Config src s
        = Ok tt s1 ->
        exists objects built,
          source_objects parse_yaml_text Config src s objects
          /\ Forall2 (built_from from_dict dump_yaml) objects built
          /\ elements s1 = elements s ++ List.concat built)
  /\ (forall ignore_crds ignore_crds_2 w (s s' : fetcher ACResource),
        parse_watt from_dict dump_yaml good_ambassador_id parse_yaml_text
          py_repr Config ignore_crds ignore_crds_2 (Some w) true s
        = Ok tt s' ->
        exists s1 built emitted,
          in_source_order
            (handle_source from_dict dump_yaml good_ambassador_id
               parse_yaml_text py_repr Config)
            (watt_sources w) (after_markers ignore_crds ignore_crds_2 s)
            built s1
          /\ Dict.keys (services s')
             = Dict.keys (services s1)
               ++ new_keys (Dict.keys (services s1))
                    (staged_keys (Dict.items (k8s_services s1)))
          /\ (forall k,
                ~ In k (staged_keys (Dict.items (k8s_services s1))) ->
                aget (services s') k = aget (services s1) k)
          /\ construct_all from_dict dump_yaml (Dict.items (services s'))
             = Built emitted
          /\ elements s' = elements s ++ List.concat built ++ emitted).
Proof.
  split; [apply process_object_appends|].
  split; [apply appends_only_handle_source|].
  split; [apply parse_object_built|].
  split; [apply handle_source_built|].
  intros ic ic2 w s s' H.
  unfold parse_watt, bind, modify in H.
  fold (after_markers ic ic2 s) in H.
  destruct (decode_watt _ _ _ _ _ _ w (after_markers ic ic2 s))
    as [[] s1|e s1] eqn:E; [|discriminate].
  rewrite decode_watt_sources in E.
  apply for_each_in_source_order in E; [|apply appends_only_handle_source].
  destruct E as [built Hb].
  pose proof (in_source_order_elements _ _ _ _ _ Hb) as Hel.
  assert (Hs0 : elements (after_markers ic ic2 s) = elements s).
  { unfold after_markers. destruct ic, ic2; reflexivity. }
  rewrite Hs0 in Hel.
  apply finalize_ok in H. destruct H as [emitted [Hc ->]].
  exists s1, built, emitted. simpl.
  split; [exact Hb|]. split; [apply resolve_services_new_keys|].
  split.
  { intros k Hk. apply resolve_services_other. intros item Hin E.
    apply Hk. unfold staged_keys. apply in_map_iff. exists item. auto. }
  split; [exact Hc|]. rewrite Hel, app_assoc. reflexivity.
Qed.

End OutputOrder.

(** A snapshot read from [demo.yaml]: the two Mappings of the annotation in
    their order, then the Mapping CRD; after them the finalizer's
    resources, the Consul service first and the Kubernetes services in
    the order they were staged. *)
Lemma finalizer_resources_come_last_example :
  exists s1 built emitted,
    parse_watt sample_from_dict sample_dump_yaml sample_good_id
      two_mappings_yaml sample_repr sample_config false false
      (Some ordered_snapshot) true reading_state
    = Ok tt ordered_state
    /\ in_source_order
         (handle_source sample_from_dict sample_dump_yaml sample_good_id
            two_mappings_yaml sample_repr sample_config)
         (watt_sources ordered_snapshot)
         (after_markers false false reading_state) built s1
    /\ Dict.keys (services ordered_state)
       = Dict.keys (services s1)
         ++ new_keys (Dict.keys (services s1))
              (staged_keys (Dict.items (k8s_services s1)))
    /\ construct_all sample_from_dict sample_dump_yaml
         (Dict.items (services ordered_state))
       = Built emitted
    /\ elements ordered_state
       = elements reading_state ++ List.concat built ++ emitted
    /\ firstn 3 (elements ordered_state)
       = [(PStr "web.default.1", some_mapping);
          (PStr "web.default.2", other_mapping);
          (PStr "web-mapping.default.1", VDict (crd_resource mapping_crd))]
    /\ map fst (elements ordered_state)
       = [PStr "web.default.1"; PStr "web.default.2";
          PStr "web-mapping.default.1"; PStr "consul-db-dc2";
          PStr "k8s-api-default"; PStr "k8s-web-default"]
    /\ Dict.keys (services ordered_state)
       = [PStr "consul-db-dc2"; PStr "k8s-api-default";
          PStr "k8s-web-default"].
Proof.
  assert (Hrun :
            parse_watt sample_from_dict sample_dump_yaml sample_good_id
              two_mappings_yaml sample_repr sample_config false false
              (Some ordered_snapshot) true reading_state
            = Ok tt ordered_state) by (vm_compute; reflexivity).
  destruct (proj2 (proj2 (proj2 (proj2
              (@finalizer_resources_come_last _ sample_from_dict
                 sample_dump_yaml sample_good_id two_mappings_yaml
                 sample_repr sample_config))))
              false false ordered_snapshot reading_state ordered_state Hrun)
    as (s1 & built & emitted & H1 & H2 & _ & H4 & H5).
  exists s1, built, emitted.
  split; [exact Hrun|]. split; [exact H1|]. split; [exact H2|].
  split; [exact H4|]. split; [exact H5|].
  split; [reflexivity|]. split; reflexivity.
Defined.
